(** * UCXUtils: a shallow embedding of torch/csrc/distributed/c10d/ucc/UCXUtils.cpp

    The file wraps four resources of the UCX transport library (context,
    worker, endpoint, request) for the c10d UCC backend.  The C++ code is
    translated function by function.  The native library is an interface
    ([UCX]): every native entry point is a method, the code is written
    against the interface, and the theorems hold for every implementation
    of it.  A small reference transport ([RefUCX]) implements the interface
    so that the definitions can be run on concrete inputs. *)

From Stdlib Require Import ZArith Lia Bool String.
From stdpp Require Import base gmap list.

Local Open Scope Z_scope.

(** ** Native status codes and status pointers (ucs/type/status.h) *)

Definition ucs_status_t := Z.
Definition ucs_status_ptr_t := Z.

Definition UCS_OK : ucs_status_t := 0.
Definition UCS_INPROGRESS : ucs_status_t := 1.
Definition UCS_ERR_NO_MESSAGE : ucs_status_t := -1.
Definition UCS_ERR_NO_RESOURCE : ucs_status_t := -2.
Definition UCS_ERR_IO_ERROR : ucs_status_t := -3.
Definition UCS_ERR_NO_MEMORY : ucs_status_t := -4.
Definition UCS_ERR_CANCELED : ucs_status_t := -16.
Definition UCS_ERR_CONNECTION_RESET : ucs_status_t := -25.
Definition UCS_ERR_LAST : ucs_status_t := -100.

Definition ptr_modulus : Z := 2 ^ 64.

(** [(uintptr_t)x]: a pointer-sized unsigned integer, wrap-around written out. *)
Definition uintptr (x : Z) : Z := x mod ptr_modulus.

(** [(intptr_t)p]: the same 64 bits read as a signed integer. *)
Definition intptr (p : Z) : Z :=
  let u := uintptr p in if u <? 2 ^ 63 then u else u - ptr_modulus.

Definition nullptr : Z := 0.

(** [#define UCS_PTR_IS_ERR(_ptr) (((uintptr_t)(_ptr)) >= ((uintptr_t)UCS_ERR_LAST))] *)
Definition UCS_PTR_IS_ERR (p : ucs_status_ptr_t) : bool :=
  uintptr UCS_ERR_LAST <=? uintptr p.

(** [#define UCS_PTR_IS_PTR(_ptr) (((uintptr_t)(_ptr) - 1) < ((uintptr_t)UCS_ERR_LAST - 1))] *)
Definition UCS_PTR_IS_PTR (p : ucs_status_ptr_t) : bool :=
  uintptr (uintptr p - 1) <? uintptr (uintptr UCS_ERR_LAST - 1).

(** [#define UCS_PTR_RAW_STATUS(_ptr) ((ucs_status_t)(intptr_t)(_ptr))] *)
Definition UCS_PTR_RAW_STATUS (p : ucs_status_ptr_t) : ucs_status_t := intptr p.

(** [#define UCS_PTR_STATUS(_ptr)
       (UCS_PTR_IS_PTR(_ptr) ? UCS_INPROGRESS : UCS_PTR_RAW_STATUS(_ptr))] *)
Definition UCS_PTR_STATUS (p : ucs_status_ptr_t) : ucs_status_t :=
  if UCS_PTR_IS_PTR p then UCS_INPROGRESS else UCS_PTR_RAW_STATUS p.

(** [#define UCS_STATUS_PTR(_status) ((void * )(intptr_t)(_status))] *)
Definition UCS_STATUS_PTR (st : ucs_status_t) : ucs_status_ptr_t := uintptr st.

(** ** Memory kinds and device kinds *)

(** [ucs_memory_type_t] (ucs/memory/memory_type.h). *)
Inductive ucs_memory_type :=
| UCS_MEMORY_TYPE_HOST
| UCS_MEMORY_TYPE_CUDA
| UCS_MEMORY_TYPE_CUDA_MANAGED
| UCS_MEMORY_TYPE_ROCM
| UCS_MEMORY_TYPE_ROCM_MANAGED
| UCS_MEMORY_TYPE_UNKNOWN.

(** [c10::DeviceType]: the three kinds the switch names; every other
    enumerator is [kOtherDevice] with its numeric code. *)
Inductive DeviceType :=
| kCPU
| kCUDA
| kHIP
| kOtherDevice (code : Z).

(** UCXUtils.cpp:93-104. *)
Definition getUCSMemoryType (type : DeviceType) : ucs_memory_type :=
  match type with
  | kCPU => UCS_MEMORY_TYPE_HOST
  | kCUDA => UCS_MEMORY_TYPE_CUDA
  | kHIP => UCS_MEMORY_TYPE_ROCM
  | kOtherDevice _ => UCS_MEMORY_TYPE_UNKNOWN
  end.

(** ** Request state and the hooks the program hands to the library *)

(** [UCPRequest::Data]: the per-request extra bytes the library reserves
    ([params.request_size = sizeof(UCPRequest::Data)]). *)
Record Data := mkData { completed : bool }.

(** The user part of the native request objects, keyed by address. *)
Abbreviation ReqMem := (gmap Z Data).

(** [ucp_tag_recv_info_t]. *)
Record ucp_tag_recv_info_t := mkInfo { info_sender_tag : Z; info_length : Z }.

(** The library calls back into the program through function pointers.  A
    function pointer can only designate a function of the program, so the
    pointers are the enumeration of the lambdas of this file. *)
Inductive request_hook :=
| request_init_lambda      (* UCXUtils.cpp:28-31 *)
| request_cleanup_lambda.  (* UCXUtils.cpp:32 *)

Inductive completion_callback :=
| p2p_completion_lambda.   (* UCXUtils.cpp:117-123 *)

(** [r->completed = b] for [r = reinterpret_cast<UCPRequest::Data*>(request)]. *)
Definition set_completed (request : Z) (b : bool) (rm : ReqMem) : ReqMem :=
  <[request := mkData b]> rm.

Definition run_request_hook (h : request_hook) (request : Z) (rm : ReqMem) : ReqMem :=
  match h with
  | request_init_lambda => set_completed request false rm
  | request_cleanup_lambda => rm
  end.

Definition run_completion_callback (cb : completion_callback)
    (request : Z) (status : ucs_status_t) (info : ucp_tag_recv_info_t)
    (user_data : Z) (rm : ReqMem) : ReqMem :=
  match cb with
  | p2p_completion_lambda => set_completed request true rm
  end.

(** ** Parameter blocks *)

Definition UCS_BIT (i : Z) : Z := Z.shiftl 1 i.

(** ucp_params_field (ucp/api/ucp.h). *)
Definition UCP_PARAM_FIELD_FEATURES : Z := UCS_BIT 0.
Definition UCP_PARAM_FIELD_REQUEST_SIZE : Z := UCS_BIT 1.
Definition UCP_PARAM_FIELD_REQUEST_INIT : Z := UCS_BIT 2.
Definition UCP_PARAM_FIELD_REQUEST_CLEANUP : Z := UCS_BIT 3.
Definition UCP_FEATURE_TAG : Z := UCS_BIT 0.

(** ucp_op_attr_t (ucp/api/ucp.h). *)
Definition UCP_OP_ATTR_FIELD_CALLBACK : Z := UCS_BIT 1.
Definition UCP_OP_ATTR_FIELD_DATATYPE : Z := UCS_BIT 3.
Definition UCP_OP_ATTR_FIELD_MEMORY_TYPE : Z := UCS_BIT 6.

(** [ucp_dt_make_contig(elem_size)]:
    [((ucp_datatype_t)elem_size << UCP_DATATYPE_SHIFT) | UCP_DATATYPE_CONTIG]
    with shift 3 and class 0. *)
Definition ucp_dt_make_contig (elem_size : Z) : Z :=
  uintptr (Z.lor (Z.shiftl elem_size 3) 0).

(** Element size of a contiguous datatype ([ucp_contig_dt_elem_size]). *)
Definition ucp_contig_dt_elem_size (datatype : Z) : Z := Z.shiftr datatype 3.

(** [sizeof(UCPRequest::Data)]: one [bool]. *)
Definition sizeof_Data : Z := 1.

Record ucp_params_t := mk_ucp_params {
  field_mask : Z;
  features : Z;
  request_size : Z;
  request_init : request_hook;
  request_cleanup : request_hook
}.

Record ucp_request_param_t := mk_request_param {
  op_attr_mask : Z;
  datatype : Z;
  memory_type : ucs_memory_type;
  cb_recv : completion_callback
}.

(** ucp_worker_params_field and ucs_thread_mode_t. *)
Definition UCP_WORKER_PARAM_FIELD_THREAD_MODE : Z := UCS_BIT 0.

Inductive ucs_thread_mode :=
| UCS_THREAD_MODE_SINGLE
| UCS_THREAD_MODE_SERIALIZED
| UCS_THREAD_MODE_MULTI.

Record ucp_worker_params_t := mk_worker_params {
  worker_field_mask : Z;
  thread_mode : ucs_thread_mode
}.

(** ucp_ep_params_field and the part of [ucp_ep_params_t] the constructor
    of the endpoint fills in.  [address] stands for the bytes the pointer
    [address.data()] designates. *)
Definition UCP_EP_PARAM_FIELD_REMOTE_ADDRESS : Z := UCS_BIT 0.

Record ucp_ep_params_t := mk_ep_params {
  ep_field_mask : Z;
  address : list Byte.byte
}.

Inductive ucp_ep_close_mode := UCP_EP_CLOSE_MODE_FORCE | UCP_EP_CLOSE_MODE_FLUSH.

(** ** The native library as an interface *)

(** What a native call does to the memory the program can see: it writes a
    payload into a caller buffer, or it runs a registered callback. *)
Inductive Upcall :=
| Deliver (addr : Z) (payload : list Byte.byte)
| Completed (cb : completion_callback) (request : Z) (status : ucs_status_t)
            (info : ucp_tag_recv_info_t) (user_data : Z).

(** Caller buffers, byte addressed. *)
Abbreviation Mem := (gmap Z Byte.byte).

(** Buffers the library owns and lends to the program, keyed by their
    address: the buffer [ucp_worker_get_address] hands out is here from the
    query until [ucp_worker_release_address] takes it back. *)
Abbreviation Lent := (gmap Z (list Byte.byte)).

Class UCX (N : Type) := {
  ucp_config_read : string -> N -> ucs_status_t * Z * N;
  ucp_init : ucp_params_t -> Z -> N -> ucs_status_t * Z * N;
  ucp_config_release : Z -> N -> N;
  ucp_cleanup : Z -> N -> N;
  ucp_worker_create : Z -> ucp_worker_params_t -> N -> ucs_status_t * Z * N;
  ucp_worker_get_address : Z -> N -> ucs_status_t * Z * list Byte.byte * N;
  ucp_worker_release_address : Z -> Z -> N -> N;
  ucp_worker_progress : Z -> N -> list Upcall * N;
  ucp_ep_create : Z -> ucp_ep_params_t -> N -> ucs_status_t * Z * N;
  ucp_ep_close_nb : Z -> ucp_ep_close_mode -> N -> ucs_status_ptr_t * N;
  ucp_request_check_status : Z -> N -> ucs_status_t;
  ucp_request_free : Z -> N -> N;
  ucp_tag_recv_nbx :
    Z -> Z -> Z -> Z -> Z -> ucp_request_param_t -> Mem -> N ->
    ucs_status_ptr_t * list Upcall * N;
  ucp_tag_send_nbx :
    Z -> Z -> Z -> Z -> ucp_request_param_t -> Mem -> N ->
    ucs_status_ptr_t * list Upcall * N
}.

(** ** The world the code runs in *)

(** Every native call and every warning leaves an event, so that a
    statement can count calls and speak about their order. *)
Inductive Event :=
| Ev_config_read (env_prefix : string)
| Ev_init (params : ucp_params_t) (status : ucs_status_t) (context : Z)
| Ev_config_release (config : Z)
| Ev_cleanup (context : Z)
| Ev_worker_create (context : Z) (params : ucp_worker_params_t)
| Ev_worker_get_address (worker : Z)
| Ev_worker_release_address (worker address : Z)
| Ev_worker_progress (worker : Z)
| Ev_ep_create (worker : Z) (params : ucp_ep_params_t)
| Ev_ep_close_nb (ep : Z) (mode : ucp_ep_close_mode)
| Ev_request_check_status (request : Z)
| Ev_request_free (request : Z)
| Ev_tag_recv_nbx (worker buffer count tag tag_mask : Z) (param : ucp_request_param_t)
| Ev_tag_send_nbx (ep buffer count tag : Z) (param : ucp_request_param_t)
| Ev_warn (message : string) (status : ucs_status_t).

(** ** The objects of the file *)

(** [class UCPContext { ucp_context_h context; ... }], UCXUtils.cpp:6-12. *)
Record UCPContext := mkUCPContext { context : Z }.

(** UCXUtils.cpp:11. *)
Definition UCPContext_get (self : UCPContext) : Z := context self.

(** Modelled from the spec: the class UCPWorker is declared in
    UCXUtils.hpp, which is not among the sources.  The spec gives a Worker
    an opaque native worker handle; [worker] is the member UCXUtils.cpp
    reads and writes. *)
Record UCPWorker := mkUCPWorker { worker : Z }.

(** Modelled from the spec: [UCPWorker::get], of UCXUtils.hpp, returns the
    native handle (UCXUtils.cpp:72 and :151 use it so). *)
Definition UCPWorker_get (self : UCPWorker) : Z := worker self.

(** Modelled from the spec: the class UCPEndpoint is declared in
    UCXUtils.hpp.  The spec gives an Endpoint a native connection handle
    and a shared reference to the Worker it is bound to; the members are
    [endpoint] and [worker] in UCXUtils.cpp, the second named [ep_worker]
    here. *)
Record UCPEndpoint := mkUCPEndpoint {
  ep_worker : UCPWorker;
  endpoint : Z
}.

(** Modelled from the spec: the class UCPRequest is declared in
    UCXUtils.hpp.  The spec gives a Request an optional native request
    handle; UCXUtils.cpp constructs it from a pointer to [UCPRequest::Data],
    null when the operation completed at submission. *)
Record UCPRequest := mkUCPRequest { data : Z }.

Record World (N : Type) := mkWorld {
  native : N;
  mem : Mem;
  lent : Lent;
  reqmem : ReqMem;
  context_wrapper : option UCPContext;  (* the function-local static, UCXUtils.cpp:39 *)
  trace : list Event
}.
Arguments mkWorld {N}.
Arguments native {N}.
Arguments mem {N}.
Arguments lent {N}.
Arguments reqmem {N}.
Arguments context_wrapper {N}.
Arguments trace {N}.

Definition count_events (P : Event -> bool) (tr : list Event) : nat :=
  List.length (List.filter P tr).

(** A C++ call either returns or throws; the world is threaded through. *)
Inductive Outcome (A : Type) :=
| Returns (a : A)
| Throws (what : string) (status : ucs_status_t).
Arguments Returns {A}.
Arguments Throws {A}.

Definition M (N A : Type) : Type := World N -> Outcome A * World N.

Definition ret {N A} (a : A) : M N A := fun w => (Returns a, w).

Definition bind {N A B} (m : M N A) (k : A -> M N B) : M N B :=
  fun w =>
    match m w with
    | (Returns a, w') => k a w'
    | (Throws what st, w') => (Throws what st, w')
    end.

Definition throw {N A} (what : string) (st : ucs_status_t) : M N A :=
  fun w => (Throws what st, w).

Declare Scope ucx_scope.
Delimit Scope ucx_scope with ucx.
Notation "'let*' pat := m 'in' k" :=
  (bind m (fun x => match x with pat => k end))
  (at level 10, pat pattern, m at level 100, k at level 200) : ucx_scope.
Notation "m ;;; k" := (bind m (fun _ => k))
  (at level 100, right associativity) : ucx_scope.

Definition lift {N A} (f : World N -> A * World N) : M N A :=
  fun w => let (a, w') := f w in (Returns a, w').

(** Modelled from the spec: the macro TORCH_UCX_CHECK of UCXUtils.hpp, which
    is not among the sources.  The spec has every checked native call fail
    with a transport error when the native status is not success. *)
Definition TORCH_UCX_CHECK {N} (st : ucs_status_t) (what : string) : M N unit :=
  if st =? UCS_OK then ret tt else throw what st.

(** ** Native calls seen from the program *)

(** [buffer[0..n)] as the library reads it; a byte that was never written
    reads as zero. *)
Definition read_bytes (m : Mem) (addr : Z) (n : nat) : list Byte.byte :=
  map (fun i => default Byte.x00 (m !! (addr + Z.of_nat i))) (seq 0 n).

Fixpoint write_bytes (addr : Z) (bs : list Byte.byte) (m : Mem) : Mem :=
  match bs with
  | [] => m
  | b :: bs' => write_bytes (addr + 1) bs' (<[addr := b]> m)
  end.

(** UCXUtils.cpp:24-32: the parameter block [UCPContext::UCPContext] hands to
    [ucp_init]. *)
Definition UCPContext_params : ucp_params_t :=
  {| field_mask :=
       Z.lor (Z.lor (Z.lor UCP_PARAM_FIELD_FEATURES UCP_PARAM_FIELD_REQUEST_SIZE)
                    UCP_PARAM_FIELD_REQUEST_INIT)
             UCP_PARAM_FIELD_REQUEST_CLEANUP;
     features := UCP_FEATURE_TAG;
     request_size := sizeof_Data;
     request_init := request_init_lambda;
     request_cleanup := request_cleanup_lambda |}.

(** The library creates a request object for an operation it could not
    finish at once.  On the first use of the request memory it runs the
    initializer registered with the context, if one was registered; a
    recycled request is handed out as it was left. *)
Definition request_created (params : ucp_params_t) (request : Z) (rm : ReqMem) : ReqMem :=
  match rm !! request with
  | Some _ => rm
  | None =>
      if Z.land (field_mask params) UCP_PARAM_FIELD_REQUEST_INIT =? 0 then rm
      else run_request_hook (request_init params) request rm
  end.

Section Program.
Context {N : Type} `{UCX N}.

Definition log (e : Event) (w : World N) : World N :=
  mkWorld (native w) (mem w) (lent w) (reqmem w) (context_wrapper w) (trace w ++ [e]).

Definition set_native (n : N) (w : World N) : World N :=
  mkWorld n (mem w) (lent w) (reqmem w) (context_wrapper w) (trace w).

Definition set_reqmem (rm : ReqMem) (w : World N) : World N :=
  mkWorld (native w) (mem w) (lent w) rm (context_wrapper w) (trace w).

Definition set_mem (m : Mem) (w : World N) : World N :=
  mkWorld (native w) m (lent w) (reqmem w) (context_wrapper w) (trace w).

Definition set_lent (l : Lent) (w : World N) : World N :=
  mkWorld (native w) (mem w) l (reqmem w) (context_wrapper w) (trace w).

Definition set_context_wrapper (c : option UCPContext) (w : World N) : World N :=
  mkWorld (native w) (mem w) (lent w) (reqmem w) c (trace w).

Definition apply_upcall (u : Upcall) (w : World N) : World N :=
  match u with
  | Deliver addr payload =>
      set_mem (write_bytes addr payload (mem w)) w
  | Completed cb request status info user_data =>
      set_reqmem (run_completion_callback cb request status info user_data (reqmem w)) w
  end.

Definition apply_upcalls (us : list Upcall) (w : World N) : World N :=
  foldl (fun w u => apply_upcall u w) w us.

Definition native_config_read (env_prefix : string) (w : World N)
  : (ucs_status_t * Z) * World N :=
  let '(st, config, n) := ucp_config_read env_prefix (native w) in
  ((st, config), set_native n (log (Ev_config_read env_prefix) w)).

Definition native_init (params : ucp_params_t) (config : Z) (w : World N)
  : (ucs_status_t * Z) * World N :=
  let '(st, context, n) := ucp_init params config (native w) in
  ((st, context), set_native n (log (Ev_init params st context) w)).

Definition native_config_release (config : Z) (w : World N) : unit * World N :=
  (tt, set_native (ucp_config_release config (native w)) (log (Ev_config_release config) w)).

Definition native_cleanup (context : Z) (w : World N) : unit * World N :=
  (tt, set_native (ucp_cleanup context (native w)) (log (Ev_cleanup context) w)).

Definition native_worker_create (context : Z) (params : ucp_worker_params_t) (w : World N)
  : (ucs_status_t * Z) * World N :=
  let '(st, worker, n) := ucp_worker_create context params (native w) in
  ((st, worker), set_native n (log (Ev_worker_create context params) w)).

(** [ucp_worker_get_address(worker, &local_addr, &local_addr_len)]: the
    out-parameters are the buffer and its length.  A query that succeeds
    lends the program the buffer at [local_addr], which holds the address. *)
Definition native_worker_get_address (worker : Z) (w : World N)
  : (ucs_status_t * Z * nat) * World N :=
  let '(st, local_addr, bytes, n) := ucp_worker_get_address worker (native w) in
  ((st, local_addr, List.length bytes),
   set_native n
     (log (Ev_worker_get_address worker)
        (if st =? UCS_OK then set_lent (<[local_addr := bytes]> (lent w)) w else w))).

(** [ucp_worker_release_address(worker, local_addr)]: the library takes the
    buffer back; what was in it is gone. *)
Definition native_worker_release_address (worker local_addr : Z) (w : World N)
  : unit * World N :=
  (tt, set_native (ucp_worker_release_address worker local_addr (native w))
         (log (Ev_worker_release_address worker local_addr)
            (set_lent (delete local_addr (lent w)) w))).

(** [std::vector<uint8_t>(first, first + len)] for a pointer [first] to a
    lent buffer: a copy of its first [len] bytes, owned by the program.  A
    buffer the library has taken back holds nothing to copy. *)
Definition vector_of_range (first : Z) (len : nat) : M N (list Byte.byte) :=
  fun w => (Returns (take len (default [] (lent w !! first))), w).

Definition native_worker_progress (worker : Z) (w : World N) : unit * World N :=
  let '(ups, n) := ucp_worker_progress worker (native w) in
  (tt, apply_upcalls ups (set_native n (log (Ev_worker_progress worker) w))).

Definition native_ep_create (worker : Z) (params : ucp_ep_params_t) (w : World N)
  : (ucs_status_t * Z) * World N :=
  let '(st, ep, n) := ucp_ep_create worker params (native w) in
  ((st, ep), set_native n (log (Ev_ep_create worker params) w)).

Definition native_ep_close_nb (ep : Z) (mode : ucp_ep_close_mode) (w : World N)
  : ucs_status_ptr_t * World N :=
  let '(request, n) := ucp_ep_close_nb ep mode (native w) in
  (request, set_native n (log (Ev_ep_close_nb ep mode) w)).

Definition native_request_check_status (request : Z) (w : World N)
  : ucs_status_t * World N :=
  (ucp_request_check_status request (native w), log (Ev_request_check_status request) w).

Definition native_request_free (request : Z) (w : World N) : unit * World N :=
  (tt, set_native (ucp_request_free request (native w)) (log (Ev_request_free request) w)).

(** A submission that comes back with a request pointer has created that
    request in the context the worker was made from
    ([ucp_worker_create(getUCPContext(), ...)], UCXUtils.cpp:47). *)
Definition submitted (request : ucs_status_ptr_t) (ups : list Upcall) (w : World N)
  : World N :=
  let w1 :=
    if UCS_PTR_IS_PTR request
    then set_reqmem (request_created UCPContext_params request (reqmem w)) w
    else w in
  apply_upcalls ups w1.

Definition native_tag_recv_nbx (worker buffer count tag tag_mask : Z)
    (param : ucp_request_param_t) (w : World N) : ucs_status_ptr_t * World N :=
  let '(request, ups, n) :=
    ucp_tag_recv_nbx worker buffer count tag tag_mask param (mem w) (native w) in
  (request,
   submitted request ups
     (set_native n (log (Ev_tag_recv_nbx worker buffer count tag tag_mask param) w))).

Definition native_tag_send_nbx (ep buffer count tag : Z)
    (param : ucp_request_param_t) (w : World N) : ucs_status_ptr_t * World N :=
  let '(request, ups, n) :=
    ucp_tag_send_nbx ep buffer count tag param (mem w) (native w) in
  (request,
   submitted request ups
     (set_native n (log (Ev_tag_send_nbx ep buffer count tag param) w))).

Definition TORCH_WARN (message : string) (st : ucs_status_t) (w : World N)
  : unit * World N :=
  (tt, log (Ev_warn message st) w).

(** *** UCPContext *)

(** UCXUtils.cpp:14-36. *)
Definition UCPContext_ctor : M N UCPContext :=
  (let params := UCPContext_params in
   let* (st, config) := lift (native_config_read "TORCH") in
   TORCH_UCX_CHECK st "Failed to read UCP config." ;;;
   let* (st, context) := lift (native_init params config) in
   lift (native_config_release config) ;;;
   TORCH_UCX_CHECK st "Failed to init UCP context." ;;;
   ret (mkUCPContext context))%ucx.

(** UCXUtils.cpp:10. *)
Definition UCPContext_dtor (self : UCPContext) (w : World N) : World N :=
  snd (native_cleanup (context self) w).

(** UCXUtils.cpp:38-41 run by one thread.  The static is constructed
    when control first passes its declaration; a constructor that throws
    leaves it unconstructed, to be tried again by the next call. *)
Definition getUCPContext : M N Z :=
  fun w =>
    match context_wrapper w with
    | Some wrapper => (Returns (UCPContext_get wrapper), w)
    | None =>
        match UCPContext_ctor w with
        | (Returns wrapper, w') =>
            (Returns (UCPContext_get wrapper), set_context_wrapper (Some wrapper) w')
        | (Throws what st, w') => (Throws what st, w')
        end
    end.

(** Process teardown: a static that was constructed is destroyed. *)
Definition process_exit (w : World N) : World N :=
  match context_wrapper w with
  | Some wrapper => set_context_wrapper None (UCPContext_dtor wrapper w)
  | None => w
  end.

(** *** UCPWorker *)

(** UCXUtils.cpp:43-49. *)
Definition UCPWorker_ctor : M N UCPWorker :=
  (let worker_params :=
     {| worker_field_mask := UCP_WORKER_PARAM_FIELD_THREAD_MODE;
        thread_mode := UCS_THREAD_MODE_MULTI |} in
   let* ctx := getUCPContext in
   let* (st, worker) := lift (native_worker_create ctx worker_params) in
   TORCH_UCX_CHECK st "Failed to create UCP worker." ;;;
   ret (mkUCPWorker worker))%ucx.

(** UCXUtils.cpp:51-62.  [addr] is the vector built from
    [local_addr, local_addr + local_addr_len), before the buffer is
    released. *)
Definition UCPWorker_address (self : UCPWorker) : M N (list Byte.byte) :=
  (let* (st, local_addr, local_addr_len) :=
     lift (native_worker_get_address (worker self)) in
   TORCH_UCX_CHECK st "Failed to get worker address." ;;;
   let* addr := vector_of_range local_addr local_addr_len in
   lift (native_worker_release_address (worker self) local_addr) ;;;
   ret addr)%ucx.

(** Modelled from the spec: [UCPWorker::progress] is defined in
    UCXUtils.hpp, which is not among the sources.  The spec has it drive
    the native completion loop one step. *)
Definition UCPWorker_progress (self : UCPWorker) : M N unit :=
  lift (native_worker_progress (worker self)).

(** *** UCPEndpoint *)

(** UCXUtils.cpp:68-74. *)
Definition UCPEndpoint_ctor (worker : UCPWorker) (address : list Byte.byte)
  : M N UCPEndpoint :=
  (let ep_params :=
     {| ep_field_mask := UCP_EP_PARAM_FIELD_REMOTE_ADDRESS; address := address |} in
   let* (st, endpoint) := lift (native_ep_create (UCPWorker_get worker) ep_params) in
   TORCH_UCX_CHECK st "Failed to create endpoint." ;;;
   ret (mkUCPEndpoint worker endpoint))%ucx.

(** UCXUtils.cpp:64-66. *)
Definition UCPWorker_connect (self : UCPWorker) (address : list Byte.byte)
  : M N UCPEndpoint :=
  UCPEndpoint_ctor self address.

(** *** Submission *)

(** UCXUtils.cpp:112-123: the parameter block of a submission. *)
Definition p2p_params (size : Z) (device : DeviceType) : ucp_request_param_t :=
  {| op_attr_mask :=
       Z.lor (Z.lor UCP_OP_ATTR_FIELD_CALLBACK UCP_OP_ATTR_FIELD_DATATYPE)
             UCP_OP_ATTR_FIELD_MEMORY_TYPE;
     datatype := ucp_dt_make_contig size;
     memory_type := getUCSMemoryType device;
     cb_recv := p2p_completion_lambda |}.

(** UCXUtils.cpp:106-131. *)
Definition UCPWorker_submit_p2p_request (self : UCPWorker)
    (size : Z) (device : DeviceType)
    (work : ucp_request_param_t -> M N ucs_status_ptr_t) : M N UCPRequest :=
  (let params := p2p_params size device in
   let* request := work params in
   if UCS_PTR_STATUS request =? UCS_OK then
     ret (mkUCPRequest nullptr)
   else
     UCPWorker_progress self ;;;
     ret (mkUCPRequest request))%ucx.

(** [int tag] converted to [ucp_tag_t], an unsigned 64-bit integer. *)
Definition ucp_tag_of_int (tag : Z) : Z := uintptr tag.

(** UCXUtils.cpp:133-139. *)
Definition UCPWorker_recv_with_tag (self : UCPWorker)
    (data size tag : Z) (device : DeviceType) : M N UCPRequest :=
  UCPWorker_submit_p2p_request self size device (fun params =>
    lift (native_tag_recv_nbx (worker self) data 1 (ucp_tag_of_int tag) 0 params)).

(** UCXUtils.cpp:141-145. *)
Definition UCPEndpoint_send_with_tag (self : UCPEndpoint)
    (data size tag : Z) (device : DeviceType) : M N UCPRequest :=
  UCPWorker_submit_p2p_request (ep_worker self) size device (fun params =>
    lift (native_tag_send_nbx (endpoint self) data 1 (ucp_tag_of_int tag) params)).

(** UCXUtils.cpp:147-153. *)
Definition UCPEndpoint_recv_with_tag (self : UCPEndpoint)
    (data size tag : Z) (device : DeviceType) : M N UCPRequest :=
  UCPWorker_submit_p2p_request (ep_worker self) size device (fun params =>
    lift (native_tag_recv_nbx (UCPWorker_get (ep_worker self)) data 1
            (ucp_tag_of_int tag) 0 params)).

(** *** UCPRequest *)

(** Modelled from the spec: [UCPRequest::is_completed] is defined in
    UCXUtils.hpp, which is not among the sources.  The spec has a Request
    without a native handle read as complete, and one with a handle read
    the completion flag of the request state; [None] is a read through a
    handle that designates no request state. *)
Definition UCPRequest_is_completed (self : UCPRequest) (w : World N) : option bool :=
  if data self =? nullptr then Some true
  else completed <$> reqmem w !! data self.

(** Modelled from the spec: the destructor of UCPRequest is defined in
    UCXUtils.hpp, which is not among the sources.  The spec has the caller
    release the native handle of a Request if one was allocated. *)
Definition UCPRequest_dtor (self : UCPRequest) : M N unit :=
  if data self =? nullptr then ret tt
  else lift (native_request_free (data self)).

(** *** Endpoint teardown *)

(** A [do { body } while (cond)] loop, where [body] returns [cond].
    [fuel] bounds the number of iterations; [None] is a loop that is
    still running when the fuel is spent. *)
Fixpoint do_while (fuel : nat) (body : M N bool) (w : World N)
  : option (Outcome unit * World N) :=
  match fuel with
  | O => None
  | S fuel' =>
      match body w with
      | (Returns true, w') => do_while fuel' body w'
      | (Returns false, w') => Some (Returns tt, w')
      | (Throws what st, w') => Some (Throws what st, w')
      end
  end.

(** UCXUtils.cpp:85-88: one iteration, returning [st != UCS_OK]. *)
Definition drain_step (self : UCPEndpoint) (request : Z) : M N bool :=
  (UCPWorker_progress (ep_worker self) ;;;
   let* st := lift (native_request_check_status request) in
   ret (negb (st =? UCS_OK)))%ucx.

(** The text of the warning, UCXUtils.cpp:82. *)
Definition leak_warning : string :=
  "Will leak endpoint because it fails to close. Error: ".

(** UCXUtils.cpp:79-83: the close request and the warning. *)
Definition close_and_warn (self : UCPEndpoint) : M N ucs_status_ptr_t :=
  (let* request := lift (native_ep_close_nb (endpoint self) UCP_EP_CLOSE_MODE_FLUSH) in
   (if UCS_PTR_IS_ERR request
    then lift (TORCH_WARN leak_warning (UCS_PTR_STATUS request))
    else ret tt) ;;;
   ret request)%ucx.

(** UCXUtils.cpp:76-91. *)
Definition UCPEndpoint_dtor (fuel : nat) (self : UCPEndpoint) (w : World N)
  : option (Outcome unit * World N) :=
  match close_and_warn self w with
  | (Throws what st, w1) => Some (Throws what st, w1)
  | (Returns request, w1) =>
      if UCS_PTR_IS_PTR request then
        match do_while fuel (drain_step self request) w1 with
        | Some (Returns _, w2) => Some (lift (native_request_free request) w2)
        | Some (Throws what st, w2) => Some (Throws what st, w2)
        | None => None
        end
      else Some (Returns tt, w1)
  end.

End Program.

(** ** A reference transport

    A small tag-matching transport that implements [UCX], after the
    behaviour ucp/api/ucp.h documents: a send is queued and completes on a
    progress step of its worker, which carries the message to the
    destination; a receive is matched against the arrived messages by
    [ucp_tag_is_match]; a close request completes once the endpoint has no
    send left. *)
Module Ref.

Definition UCS_ERR_INVALID_PARAM : ucs_status_t := -5.
Definition UCS_ERR_MESSAGE_TRUNCATED : ucs_status_t := -9.

(** ucp/tag/tag_match.h: [((tag ^ exp_tag) & tag_mask) == 0]. *)
Definition ucp_tag_is_match (tag exp_tag tag_mask : Z) : bool :=
  Z.land (Z.lxor tag exp_tag) tag_mask =? 0.

Record message := mkMessage {
  m_dst : Z;
  m_tag : Z;
  m_payload : list Byte.byte
}.

Record send_op := mkSend {
  so_request : Z;
  so_cb : completion_callback;
  so_worker : Z;
  so_ep : Z;
  so_msg : message
}.

Record recv_op := mkRecv {
  ro_request : Z;
  ro_cb : completion_callback;
  ro_worker : Z;
  ro_buffer : Z;
  ro_size : Z;
  ro_tag : Z;
  ro_mask : Z
}.

Record state := mkState {
  next : Z;                          (* next fresh handle or request address *)
  eps : gmap Z (Z * Z);              (* endpoint: owning worker, remote worker *)
  sends : list send_op;              (* submitted, not yet sent *)
  arrived : list message;            (* at the destination, not yet matched *)
  recvs : list recv_op;              (* posted, not yet matched *)
  statuses : gmap Z ucs_status_t;    (* requests that are done *)
  closing : list (Z * Z)             (* close request, endpoint *)
}.

Definition init_state : state := mkState 4096 ∅ [] [] [] ∅ [].

Definition fresh (s : state) : Z * state :=
  (next s,
   mkState (next s + 64) (eps s) (sends s) (arrived s) (recvs s) (statuses s) (closing s)).

(** The address of a worker is its handle, as eight little-endian bytes. *)
Definition byte_of (x : Z) : Byte.byte :=
  default Byte.x00 (Byte.of_N (Z.to_N (x mod 256))).

Fixpoint le_bytes (n : nat) (x : Z) : list Byte.byte :=
  match n with
  | O => []
  | S n' => byte_of x :: le_bytes n' (x / 256)
  end.

Fixpoint le_value (bs : list Byte.byte) : Z :=
  match bs with
  | [] => 0
  | b :: bs' => Z.of_N (Byte.to_N b) + 256 * le_value bs'
  end.

Definition address_of (worker : Z) : list Byte.byte := le_bytes 8 worker.

Definition worker_of (address : list Byte.byte) : option Z :=
  if Nat.eqb (List.length address) 8 then Some (le_value address) else None.

(** The first arrived message for [worker] that matches, and the rest. *)
Fixpoint take_match (worker tag tag_mask : Z) (ms : list message)
  : option (message * list message) :=
  match ms with
  | [] => None
  | m :: ms' =>
      if (m_dst m =? worker) && ucp_tag_is_match (m_tag m) tag tag_mask
      then Some (m, ms')
      else
        match take_match worker tag tag_mask ms' with
        | Some (m', rest) => Some (m', m :: rest)
        | None => None
        end
  end.

(** What receiving [m] into a buffer of [size] bytes at [buffer] does. *)
Definition receive (buffer size : Z) (m : message) : ucs_status_t * list Upcall :=
  if Z.of_nat (List.length (m_payload m)) <=? size
  then (UCS_OK, [Deliver buffer (m_payload m)])
  else (UCS_ERR_MESSAGE_TRUNCATED, []).

Definition info_of (m : message) : ucp_tag_recv_info_t :=
  mkInfo (m_tag m) (Z.of_nat (List.length (m_payload m))).

(** Sends of [worker] leave: each completes and its message arrives. *)
Fixpoint flush_sends (worker : Z) (ops : list send_op)
  : list Upcall * list (Z * ucs_status_t) * list message * list send_op :=
  match ops with
  | [] => ([], [], [], [])
  | op :: ops' =>
      let '(ups, done, ms, keep) := flush_sends worker ops' in
      if so_worker op =? worker
      then (Completed (so_cb op) (so_request op) UCS_OK (mkInfo 0 0) 0 :: ups,
            (so_request op, UCS_OK) :: done, so_msg op :: ms, keep)
      else (ups, done, ms, op :: keep)
  end.

(** Posted receives of [worker] are matched in posting order. *)
Fixpoint match_recvs (worker : Z) (ops : list recv_op) (ms : list message)
  : list Upcall * list (Z * ucs_status_t) * list message * list recv_op :=
  match ops with
  | [] => ([], [], ms, [])
  | op :: ops' =>
      if ro_worker op =? worker then
        match take_match worker (ro_tag op) (ro_mask op) ms with
        | Some (m, ms') =>
            let '(st, wr) := receive (ro_buffer op) (ro_size op) m in
            let '(ups, done, ms'', keep) := match_recvs worker ops' ms' in
            (wr ++ Completed (ro_cb op) (ro_request op) st (info_of m) 0 :: ups,
             (ro_request op, st) :: done, ms'', keep)
        | None =>
            let '(ups, done, ms'', keep) := match_recvs worker ops' ms in
            (ups, done, ms'', op :: keep)
        end
      else
        let '(ups, done, ms'', keep) := match_recvs worker ops' ms in
        (ups, done, ms'', op :: keep)
  end.

Definition ep_busy (ep : Z) (ops : list send_op) : bool :=
  existsb (fun op => so_ep op =? ep) ops.

(** Close requests whose endpoint has no send left are done. *)
Fixpoint settle_closing (ops : list send_op) (cs : list (Z * Z))
  : list (Z * ucs_status_t) * list (Z * Z) :=
  match cs with
  | [] => ([], [])
  | (r, ep) :: cs' =>
      let '(done, keep) := settle_closing ops cs' in
      if ep_busy ep ops then (done, (r, ep) :: keep)
      else ((r, UCS_OK) :: done, keep)
  end.

Definition record_statuses (done : list (Z * ucs_status_t)) (m : gmap Z ucs_status_t)
  : gmap Z ucs_status_t :=
  foldl (fun m p => <[p.1 := p.2]> m) m done.

Definition progress (worker : Z) (s : state) : list Upcall * state :=
  let '(ups1, done1, ms, sends') := flush_sends worker (sends s) in
  let '(ups2, done2, arrived', recvs') :=
    match_recvs worker (recvs s) (arrived s ++ ms) in
  let '(done3, closing') := settle_closing sends' (closing s) in
  (ups1 ++ ups2,
   mkState (next s) (eps s) sends' arrived' recvs'
           (record_statuses (done1 ++ done2 ++ done3) (statuses s)) closing').

Definition tag_send_nbx (ep buffer count tag : Z) (param : ucp_request_param_t)
    (m : Mem) (s : state) : ucs_status_ptr_t * list Upcall * state :=
  match eps s !! ep with
  | None => (UCS_STATUS_PTR UCS_ERR_INVALID_PARAM, [], s)
  | Some (worker, remote) =>
      let len := Z.to_nat (count * ucp_contig_dt_elem_size (datatype param)) in
      let msg := mkMessage remote tag (read_bytes m buffer len) in
      let '(r, s1) := fresh s in
      (r, [],
       mkState (next s1) (eps s1)
               (sends s1 ++ [mkSend r (cb_recv param) worker ep msg])
               (arrived s1) (recvs s1) (statuses s1) (closing s1))
  end.

Definition tag_recv_nbx (worker buffer count tag tag_mask : Z)
    (param : ucp_request_param_t) (m : Mem) (s : state)
  : ucs_status_ptr_t * list Upcall * state :=
  let size := count * ucp_contig_dt_elem_size (datatype param) in
  match take_match worker tag tag_mask (arrived s) with
  | Some (msg, rest) =>
      let '(st, wr) := receive buffer size msg in
      (UCS_STATUS_PTR st, wr,
       mkState (next s) (eps s) (sends s) rest (recvs s) (statuses s) (closing s))
  | None =>
      let '(r, s1) := fresh s in
      (r, [],
       mkState (next s1) (eps s1) (sends s1) (arrived s1)
               (recvs s1 ++ [mkRecv r (cb_recv param) worker buffer size tag tag_mask])
               (statuses s1) (closing s1))
  end.

Definition ep_create (worker : Z) (params : ucp_ep_params_t) (s : state)
  : ucs_status_t * Z * state :=
  match worker_of (address params) with
  | None => (UCS_ERR_INVALID_PARAM, 0, s)
  | Some remote =>
      let '(ep, s1) := fresh s in
      (UCS_OK, ep,
       mkState (next s1) (<[ep := (worker, remote)]> (eps s1)) (sends s1)
               (arrived s1) (recvs s1) (statuses s1) (closing s1))
  end.

Definition ep_close_nb (ep : Z) (mode : ucp_ep_close_mode) (s : state)
  : ucs_status_ptr_t * state :=
  match eps s !! ep with
  | None => (UCS_STATUS_PTR UCS_ERR_INVALID_PARAM, s)
  | Some _ =>
      let s0 := mkState (next s) (delete ep (eps s)) (sends s) (arrived s)
                        (recvs s) (statuses s) (closing s) in
      if ep_busy ep (sends s) then
        let '(r, s1) := fresh s0 in
        (r, mkState (next s1) (eps s1) (sends s1) (arrived s1) (recvs s1)
                    (statuses s1) (closing s1 ++ [(r, ep)]))
      else (UCS_STATUS_PTR UCS_OK, s0)
  end.

Definition request_check_status (r : Z) (s : state) : ucs_status_t :=
  default UCS_INPROGRESS (statuses s !! r).

Definition request_free (r : Z) (s : state) : state :=
  mkState (next s) (eps s) (sends s) (arrived s) (recvs s)
          (delete r (statuses s)) (closing s).

Definition alloc_handle (s : state) : ucs_status_t * Z * state :=
  let '(h, s1) := fresh s in (UCS_OK, h, s1).

#[global] Instance RefUCX : UCX state := {|
  ucp_config_read := fun _ s => alloc_handle s;
  ucp_init := fun _ _ s => alloc_handle s;
  ucp_config_release := fun _ s => s;
  ucp_cleanup := fun _ s => s;
  ucp_worker_create := fun _ _ s => alloc_handle s;
  ucp_worker_get_address := fun worker s =>
    let '(local_addr, s1) := fresh s in
    (UCS_OK, local_addr, address_of worker, s1);
  ucp_worker_release_address := fun _ _ s => s;
  ucp_worker_progress := progress;
  ucp_ep_create := ep_create;
  ucp_ep_close_nb := ep_close_nb;
  ucp_request_check_status := request_check_status;
  ucp_request_free := request_free;
  ucp_tag_recv_nbx := tag_recv_nbx;
  ucp_tag_send_nbx := tag_send_nbx
|}.

Definition init_world : World state := mkWorld init_state ∅ ∅ ∅ None [].

End Ref.


(** ** A scripted library

    A second implementation of [UCX] that answers from a script, the way a
    test double does: what a call returns depends only on how many progress
    steps (or initialisation attempts) came before it.  It reaches the
    native outcomes the reference transport never produces. *)
Module Scripted.

Record script := mkScript {
  sc_config_read : nat -> ucs_status_t * Z;    (* k-th call of ucp_config_read *)
  sc_init : nat -> ucs_status_t * Z;           (* k-th call of ucp_init *)
  sc_address : ucs_status_t * Z * list Byte.byte;
  sc_submit : ucs_status_ptr_t * list Upcall;  (* every send and receive *)
  sc_progress : nat -> list Upcall;            (* k-th progress step *)
  sc_close : ucs_status_ptr_t;
  sc_status : nat -> ucs_status_t              (* any request, after k progress steps *)
}.

Record state := mkState {
  clock : nat;
  reads : nat;
  inits : nat;
  the_script : script
}.

Definition start (sc : script) : World state :=
  mkWorld (mkState 0 0 0 sc) ∅ ∅ ∅ None [].

#[global] Instance ScriptedUCX : UCX state := {|
  ucp_config_read := fun _ s =>
    (sc_config_read (the_script s) (reads s),
     mkState (clock s) (S (reads s)) (inits s) (the_script s));
  ucp_init := fun _ _ s =>
    (sc_init (the_script s) (inits s),
     mkState (clock s) (reads s) (S (inits s)) (the_script s));
  ucp_config_release := fun _ s => s;
  ucp_cleanup := fun _ s => s;
  ucp_worker_create := fun _ _ s => (UCS_OK, 1, s);
  ucp_worker_get_address := fun _ s => (sc_address (the_script s), s);
  ucp_worker_release_address := fun _ _ s => s;
  ucp_worker_progress := fun _ s =>
    (sc_progress (the_script s) (clock s),
     mkState (S (clock s)) (reads s) (inits s) (the_script s));
  ucp_ep_create := fun _ _ s => (UCS_OK, 2, s);
  ucp_ep_close_nb := fun _ _ s => (sc_close (the_script s), s);
  ucp_request_check_status := fun _ s => sc_status (the_script s) (clock s);
  ucp_request_free := fun _ s => s;
  ucp_tag_recv_nbx := fun _ _ _ _ _ _ _ s => (sc_submit (the_script s), s);
  ucp_tag_send_nbx := fun _ _ _ _ _ _ s => (sc_submit (the_script s), s)
|}.

(** A script in which every send and receive fails with
    [UCS_ERR_NO_MEMORY] at submission. *)
Definition out_of_memory : script :=
  mkScript (fun _ => (UCS_OK, 10)) (fun _ => (UCS_OK, 20))
           (UCS_OK, 30, [Byte.x01]) (UCS_STATUS_PTR UCS_ERR_NO_MEMORY, [])
           (fun _ => []) (UCS_STATUS_PTR UCS_OK) (fun _ => UCS_OK).

Definition an_endpoint : UCPEndpoint := mkUCPEndpoint (mkUCPWorker 1) 2.

(** A script in which the first configuration read fails and every later
    one succeeds. *)
Definition flaky_config : script :=
  mkScript (fun k => if (k <? 1)%nat then (UCS_ERR_NO_MEMORY, 0) else (UCS_OK, 10))
           (fun _ => (UCS_OK, 20))
           (UCS_OK, 30, [Byte.x01]) (UCS_STATUS_PTR UCS_OK, [])
           (fun _ => []) (UCS_STATUS_PTR UCS_OK) (fun _ => UCS_OK).

(** A script in which the address query fails. *)
Definition no_address : script :=
  mkScript (fun _ => (UCS_OK, 10)) (fun _ => (UCS_OK, 20))
           (UCS_ERR_NO_MEMORY, 0, []) (UCS_STATUS_PTR UCS_OK, [])
           (fun _ => []) (UCS_STATUS_PTR UCS_OK) (fun _ => UCS_OK).

(** A script in which closing an endpoint fails at once. *)
Definition failing_close : script :=
  mkScript (fun _ => (UCS_OK, 10)) (fun _ => (UCS_OK, 20))
           (UCS_OK, 30, [Byte.x01]) (UCS_STATUS_PTR UCS_OK, [])
           (fun _ => []) (UCS_STATUS_PTR UCS_ERR_CONNECTION_RESET) (fun _ => UCS_OK).

(** A script in which the close request 5000 is in progress for two
    progress steps and done from the third on. *)
Definition slow_close : script :=
  mkScript (fun _ => (UCS_OK, 10)) (fun _ => (UCS_OK, 20))
           (UCS_OK, 30, [Byte.x01]) (UCS_STATUS_PTR UCS_OK, [])
           (fun _ => []) 5000
           (fun n => if (n <? 3)%nat then UCS_INPROGRESS else UCS_OK).

(** A script in which the close request 5000 is in progress for two
    progress steps and has failed with [UCS_ERR_CONNECTION_RESET] from the
    third on. *)
Definition stuck_close : script :=
  mkScript (fun _ => (UCS_OK, 10)) (fun _ => (UCS_OK, 20))
           (UCS_OK, 30, [Byte.x01]) (UCS_STATUS_PTR UCS_OK, [])
           (fun _ => []) 5000
           (fun n => if (n <? 3)%nat then UCS_INPROGRESS else UCS_ERR_CONNECTION_RESET).

End Scripted.

(** * Notions the statements are written in *)

(** The annotation the library reads: the field is announced in the
    attribute mask and holds [kind]. *)
Definition annotated (kind : ucs_memory_type) (p : ucp_request_param_t) : Prop :=
  Z.land (op_attr_mask p) UCP_OP_ATTR_FIELD_MEMORY_TYPE <> 0 /\ memory_type p = kind.

(** The native calls of a run that carry a parameter block. *)
Definition submitted_params (tr : list Event) : list ucp_request_param_t :=
  omap (fun e =>
          match e with
          | Ev_tag_recv_nbx _ _ _ _ _ p => Some p
          | Ev_tag_send_nbx _ _ _ _ p => Some p
          | _ => None
          end) tr.

(** Every send and every receive submitted for a buffer of device kind
    [d] reaches the library with exactly one parameter block, annotated
    with [kind]. *)
Definition submits_with_kind (d : DeviceType) (kind : ucs_memory_type) : Prop :=
  forall (N : Type) (U : UCX N) (self : UCPWorker) (ep : UCPEndpoint)
         (data size tag : Z) (w : World N),
    (exists p,
        submitted_params (trace (snd (UCPWorker_recv_with_tag self data size tag d w)))
        = submitted_params (trace w) ++ [p] /\ annotated kind p) /\
    (exists p,
        submitted_params (trace (snd (UCPEndpoint_send_with_tag ep data size tag d w)))
        = submitted_params (trace w) ++ [p] /\ annotated kind p) /\
    (exists p,
        submitted_params (trace (snd (UCPEndpoint_recv_with_tag ep data size tag d w)))
        = submitted_params (trace w) ++ [p] /\ annotated kind p).

(** Whether a batch of upcalls runs a completion callback on [request]. *)
Definition completes (request : Z) (ups : list Upcall) : bool :=
  existsb (fun u =>
             match u with
             | Completed _ r _ _ _ => r =? request
             | Deliver _ _ => false
             end) ups.

(** The completion callback [cb] reads none of its arguments: run on a
    request with any status, receive information and user data, it leaves
    the world it leaves when run with [UCS_OK], and in that world the flag
    of the request is set and a Request on the request reads as complete. *)
Definition ignores_status (N : Type) `{UCX N} (cb : completion_callback) : Prop :=
  forall (request : Z) (status : ucs_status_t) (info info' : ucp_tag_recv_info_t)
         (user_data user_data' : Z) (w : World N),
    apply_upcall (Completed cb request status info user_data) w
    = apply_upcall (Completed cb request UCS_OK info' user_data') w /\
    reqmem (apply_upcall (Completed cb request status info user_data) w) !! request
    = Some (mkData true) /\
    UCPRequest_is_completed (mkUCPRequest request)
      (apply_upcall (Completed cb request status info user_data) w) = Some true.

(** The submission [op], run in the world [w], hands the library exactly
    one parameter block; the block announces a callback; the callback it
    installs ignores the status; and when the library runs that callback
    on the Request the submission returned, with whatever status, the
    Request reads as complete. *)
Definition installs_status_blind_callback {N : Type} `{UCX N}
    (op : M N UCPRequest) (w : World N) : Prop :=
  exists p,
    submitted_params (trace (snd (op w))) = submitted_params (trace w) ++ [p] /\
    Z.land (op_attr_mask p) UCP_OP_ATTR_FIELD_CALLBACK <> 0 /\
    ignores_status N (cb_recv p) /\
    forall (rq : UCPRequest) (w1 : World N),
      op w = (Returns rq, w1) ->
      forall (status : ucs_status_t) (info : ucp_tag_recv_info_t) (user_data : Z)
             (w2 : World N),
        UCPRequest_is_completed rq
          (apply_upcall (Completed (cb_recv p) (data rq) status info user_data) w2)
        = Some true.

(** The upcalls [ups] with every completion status replaced by [st]. *)
Definition with_status (st : ucs_status_t) (ups : list Upcall) : list Upcall :=
  map (fun u =>
         match u with
         | Completed cb request _ info user_data => Completed cb request st info user_data
         | Deliver addr payload => Deliver addr payload
         end) ups.

(** Calls of [progress()] on the given workers, one after the other. *)
Fixpoint progress_calls {N : Type} `{UCX N} (workers : list UCPWorker) (w : World N)
  : World N :=
  match workers with
  | [] => w
  | wk :: workers' => progress_calls workers' (snd (UCPWorker_progress wk w))
  end.

(** ** Worked scenario on the reference transport

    The scenario of the spec: two workers on one context, the address of
    the first handed to the second, an endpoint from the second to the
    first, and the five bytes of [hello] in the buffer at address 1000. *)
Module Demo.
Import Ref.

Definition hello : list Byte.byte :=
  [Byte.x68; Byte.x65; Byte.x6c; Byte.x6c; Byte.x6f].

Definition world0 : World state :=
  mkWorld init_state (write_bytes 1000 hello ∅) ∅ ∅ None [].

Definition connect_pair : M state (UCPWorker * UCPEndpoint) :=
  (let* w1 := UCPWorker_ctor in
   let* w2 := UCPWorker_ctor in
   let* addrA := UCPWorker_address w1 in
   let* e := UCPWorker_connect w2 addrA in
   ret (w1, e))%ucx.

Definition receiver : UCPWorker := mkUCPWorker 4224.
Definition sender : UCPWorker := mkUCPWorker 4288.
Definition sender_ep : UCPEndpoint := mkUCPEndpoint sender 4416.

Definition connected : World state := snd (connect_pair world0).

(** A receive for [rtag] into the buffer at 2000 on the receiver, then a
    send of the buffer at 1000 with [stag] on the endpoint, then one more
    progress call on the receiver.  The result is the two completion flags
    and the five bytes at 2000. *)
Definition exchange (rtag stag : Z)
  : M state (option bool * option bool * list Byte.byte) :=
  (let* rr := UCPWorker_recv_with_tag receiver 2000 5 rtag kCPU in
   let* sr := UCPEndpoint_send_with_tag sender_ep 1000 5 stag kCPU in
   UCPWorker_progress receiver ;;;
   fun w => (Returns (UCPRequest_is_completed rr w, UCPRequest_is_completed sr w,
                      read_bytes (mem w) 2000 5), w))%ucx.

(** The world after the receive for tag 7 and the send with tag 7 were
    submitted: the receive is the request 4480, the send the request 4544. *)
Definition exchanged : World state :=
  snd ((UCPWorker_recv_with_tag receiver 2000 5 7 kCPU ;;;
        UCPEndpoint_send_with_tag sender_ep 1000 5 7 kCPU)%ucx connected).

End Demo.

(** What [submit_p2p_request] does once [work] has returned [request] in
    world [w1]: by the status of the pointer, the Request it returns, the
    world it leaves and the completion flag the Request reads there. *)
Definition submit_outcome {N : Type} `{UCX N} (self : UCPWorker)
    (result : Outcome UCPRequest * World N)
    (request : ucs_status_ptr_t) (w1 : World N) : Prop :=
  if UCS_PTR_STATUS request =? UCS_OK then
    result = (Returns (mkUCPRequest nullptr), w1) /\
    UCPRequest_is_completed (mkUCPRequest nullptr) w1 = Some true
  else
    let w2 := snd (native_worker_progress (worker self) w1) in
    result = (Returns (mkUCPRequest request), w2) /\
    trace w2 = trace w1 ++ [Ev_worker_progress (worker self)] /\
    UCPRequest_is_completed (mkUCPRequest request) w2 =
      if completes request (fst (ucp_worker_progress (worker self) (native w1)))
      then Some true
      else completed <$> reqmem w1 !! request.

(** ** The drain loop of the destructor, iteration by iteration *)

Section DrainLoop.
Context {N : Type} `{UCX N}.
Variable self : UCPEndpoint.
Variable request : Z.

(** The world after [n] iterations of the drain loop. *)
Fixpoint drain_world (n : nat) (w : World N) : World N :=
  match n with
  | O => w
  | S n' => drain_world n' (snd (drain_step self request w))
  end.

(** The status the iteration after those [n] reads from the close request. *)
Definition drain_status (n : nat) (w : World N) : ucs_status_t :=
  ucp_request_check_status request
    (native (snd (native_worker_progress (worker (ep_worker self)) (drain_world n w)))).

(** The events of [n] iterations. *)
Fixpoint drain_events (n : nat) : list Event :=
  match n with
  | O => []
  | S n' =>
      Ev_worker_progress (worker (ep_worker self))
      :: Ev_request_check_status request :: drain_events n'
  end.

End DrainLoop.

(** The pointer [ucp_ep_close_nb] returns to the destructor, and the world
    right after that call. *)
Definition close_request {N : Type} `{UCX N} (self : UCPEndpoint) (w : World N)
  : ucs_status_ptr_t :=
  fst (native_ep_close_nb (endpoint self) UCP_EP_CLOSE_MODE_FLUSH w).

Definition closing_world {N : Type} `{UCX N} (self : UCPEndpoint) (w : World N)
  : World N :=
  snd (native_ep_close_nb (endpoint self) UCP_EP_CLOSE_MODE_FLUSH w).

(** ** The function-local static under concurrent callers

    [static UCPContext context_wrapper;] inside [getUCPContext] is a
    function-local static.  Threads that call the function are interleaved
    by a schedule; a step of a thread is what it does up to its next native
    call.  The first thread to pass the declaration of an unconstructed
    static constructs it, the others wait at the declaration; a
    constructor that throws leaves the static unconstructed. *)

(** Where the constructor of the static stands ([UCPContext::UCPContext]). *)
Inductive ctor_pc :=
| AtConfigRead                                              (* UCXUtils.cpp:20 *)
| AtInit (config : Z)                                       (* UCXUtils.cpp:33 *)
| AtConfigRelease (config : Z) (st : ucs_status_t) (context : Z).  (* UCXUtils.cpp:34 *)

Record thread := mkThread {
  calls_left : nat;                 (* calls of getUCPContext still to make *)
  results : list (Outcome Z)        (* how the calls made so far ended *)
}.

Record process (N : Type) := mkProcess {
  world : World N;
  busy : option (nat * ctor_pc);    (* the thread constructing the static *)
  threads : list thread
}.
Arguments mkProcess {N}.
Arguments world {N}.
Arguments busy {N}.
Arguments threads {N}.

Section Process.
Context {N : Type} `{UCX N}.

(** The call of thread [tid] ends with [out]. *)
Definition finish (tid : nat) (t : thread) (out : Outcome Z)
    (w : World N) (ts : list thread) : process N :=
  mkProcess w None (<[tid := mkThread (pred (calls_left t)) (results t ++ [out])]> ts).

(** One step of the constructor, run by thread [tid]. *)
Definition ctor_step (tid : nat) (t : thread) (pc : ctor_pc) (s : process N) : process N :=
  match pc with
  | AtConfigRead =>
      let '((st, config), w) := native_config_read "TORCH" (world s) in
      if st =? UCS_OK then mkProcess w (Some (tid, AtInit config)) (threads s)
      else finish tid t (Throws "Failed to read UCP config." st) w (threads s)
  | AtInit config =>
      let '((st, context), w) := native_init UCPContext_params config (world s) in
      mkProcess w (Some (tid, AtConfigRelease config st context)) (threads s)
  | AtConfigRelease config st context =>
      let w := snd (native_config_release config (world s)) in
      if st =? UCS_OK then
        finish tid t (Returns (UCPContext_get (mkUCPContext context)))
               (set_context_wrapper (Some (mkUCPContext context)) w) (threads s)
      else finish tid t (Throws "Failed to init UCP context." st) w (threads s)
  end.

(** One step of thread [tid]. *)
Definition step (tid : nat) (s : process N) : process N :=
  match threads s !! tid with
  | None => s
  | Some t =>
      match busy s with
      | Some (owner, pc) => if Nat.eqb owner tid then ctor_step tid t pc s else s
      | None =>
          match calls_left t with
          | O => s
          | S _ =>
              match context_wrapper (world s) with
              | Some wrapper =>
                  finish tid t (Returns (UCPContext_get wrapper)) (world s) (threads s)
              | None => mkProcess (world s) (Some (tid, AtConfigRead)) (threads s)
              end
          end
      end
  end.

Definition run (schedule : list nat) (s : process N) : process N :=
  foldl (fun s tid => step tid s) s schedule.

(** A process at its start: thread [i] will call [getUCPContext] as often
    as the [i]-th number says. *)
Definition boot (w0 : World N) (calls : list nat) : process N :=
  mkProcess w0 None (map (fun n => mkThread n []) calls).

(** [n] calls of [getUCPContext] by one thread, and how each ended. *)
Fixpoint sequential (n : nat) (w : World N) : list (Outcome Z) * World N :=
  match n with
  | O => ([], w)
  | S n' =>
      let '(out, w1) := getUCPContext w in
      let '(outs, w2) := sequential n' w1 in
      (out :: outs, w2)
  end.

End Process.

Definition is_cleanup (e : Event) : bool :=
  match e with
  | Ev_cleanup _ => true
  | _ => false
  end.

Definition is_init (e : Event) : bool :=
  match e with
  | Ev_init _ _ _ => true
  | _ => false
  end.

(** Some call of some thread has returned the handle [c]. *)
Definition has_returned (ts : list thread) (c : Z) : Prop :=
  exists i t, ts !! i = Some t /\ In (Returns c) (results t).

(** The construction of the static has begun or is over. *)
Definition begun {N : Type} (s : process N) : Prop :=
  busy s <> None \/ context_wrapper (world s) <> None.

(** A valid configuration: the library reads its configuration and
    initialises a context without error. *)
Definition valid_configuration (N : Type) `{UCX N} : Prop :=
  (forall prefix n, fst (fst (ucp_config_read prefix n)) = UCS_OK) /\
  (forall params config n, fst (fst (ucp_init params config n)) = UCS_OK).

(** The events of the one construction, as far as it has come. *)
Definition construction_stage {N : Type} (s : process N) : Prop :=
  match busy s, context_wrapper (world s) with
  | None, None => trace (world s) = []
  | Some (_, AtConfigRead), None => trace (world s) = []
  | Some (_, AtInit config), None => trace (world s) = [Ev_config_read "TORCH"]
  | Some (_, AtConfigRelease config st c), None =>
      st = UCS_OK /\
      trace (world s) = [Ev_config_read "TORCH"; Ev_init UCPContext_params UCS_OK c]
  | None, Some wrapper =>
      exists config,
        trace (world s) = [Ev_config_read "TORCH";
                           Ev_init UCPContext_params UCS_OK (context wrapper);
                           Ev_config_release config]
  | Some _, Some _ => False
  end.

Definition process_invariant {N : Type} (s : process N) : Prop :=
  construction_stage s /\
  forall c, has_returned (threads s) c ->
            context_wrapper (world s) = Some (mkUCPContext c).

(** An initialisation the library reported as successful. *)
Definition is_ok_init (e : Event) : bool :=
  match e with
  | Ev_init _ st _ => st =? UCS_OK
  | _ => false
  end.

(** The count of successful initialisations, by where the construction
    stands, whatever the library answers. *)
Definition construction_count {N : Type} (s : process N) : Prop :=
  count_events is_cleanup (trace (world s)) = 0%nat /\
  match busy s, context_wrapper (world s) with
  | Some (_, AtConfigRelease _ st c), None =>
      if st =? UCS_OK
      then count_events is_ok_init (trace (world s)) = 1%nat /\
           In (Ev_init UCPContext_params UCS_OK c) (trace (world s))
      else count_events is_ok_init (trace (world s)) = 0%nat
  | Some _, None => count_events is_ok_init (trace (world s)) = 0%nat
  | None, None => count_events is_ok_init (trace (world s)) = 0%nat
  | None, Some wrapper =>
      count_events is_ok_init (trace (world s)) = 1%nat /\
      In (Ev_init UCPContext_params UCS_OK (context wrapper)) (trace (world s))
  | Some _, Some _ => False
  end.

Definition process_invariant_any {N : Type} (s : process N) : Prop :=
  construction_count s /\
  forall c, has_returned (threads s) c ->
            context_wrapper (world s) = Some (mkUCPContext c).

(** What holds of a process [schedule] has run from its start, whatever
    the library answers: at most one context is initialised, the calls that
    returned all returned it, and teardown cleans up what was initialised,
    once. *)
Definition at_most_one_context {N : Type} `{UCX N} (w0 : World N)
    (calls schedule : list nat) : Prop :=
  let s := run schedule (boot w0 calls) in
  (count_events is_ok_init (trace (world s)) <= 1)%nat /\
  (forall c, has_returned (threads s) c ->
             count_events is_ok_init (trace (world s)) = 1%nat /\
             In (Ev_init UCPContext_params UCS_OK c) (trace (world s)) /\
             context_wrapper (world s) = Some (mkUCPContext c)) /\
  (busy s = None ->
   count_events is_cleanup (trace (process_exit (world s)))
   = count_events is_ok_init (trace (world s)) /\
   (forall c, has_returned (threads s) c ->
              In (Ev_cleanup c) (trace (process_exit (world s)))) /\
   process_exit (process_exit (world s)) = process_exit (world s)).

(** What holds in addition when the configuration is valid: the library is
    asked to initialise only once, the first thread scheduled with a call to
    make begins the construction, and of [n]+1 calls made one after the
    other the first constructs the context and all return it. *)
Definition first_request_constructs {N : Type} `{UCX N} (w0 : World N)
    (calls schedule : list nat) (n : nat) : Prop :=
  let s := run schedule (boot w0 calls) in
  (count_events is_init (trace (world s)) <= 1)%nat /\
  ((exists tid k, In tid schedule /\ calls !! tid = Some (S k)) -> begun s) /\
  (exists c,
      fst (sequential (S n) w0) = repeat (Returns c) (S n) /\
      trace (snd (sequential (S n) w0)) = trace (snd (getUCPContext w0)) /\
      count_events is_init (trace (snd (sequential (S n) w0))) = 1%nat /\
      count_events is_cleanup (trace (process_exit (snd (sequential (S n) w0)))) = 1%nat).

(** All the calls of all the threads have been made. *)
Definition all_done {N : Type} (s : process N) : Prop :=
  busy s = None /\ forall tid t, threads s !! tid = Some t -> calls_left t = O.

(** Every thread in turn, [rounds] times over. *)
Definition round_robin (nthreads rounds : nat) : list nat :=
  concat (repeat (seq 0 nthreads) rounds).

(** Whether thread [tid] has a call to make at the start. *)
Definition has_call (calls : list nat) (tid : nat) : bool :=
  match calls !! tid with
  | Some (S _) => true
  | _ => false
  end.

(** The first thread of the schedule that has a call to make. *)
Definition first_caller (calls schedule : list nat) : option nat :=
  List.find (has_call calls) schedule.

(** How far the constructor has come. *)
Definition stage_of (b : option (nat * ctor_pc)) : nat :=
  match b with
  | None => 0
  | Some (_, AtConfigRead) => 1
  | Some (_, AtInit _) => 2
  | Some (_, AtConfigRelease _ _ _) => 3
  end.

(** The calls the threads have still to make, all together. *)
Definition calls_to_make (ts : list thread) : nat :=
  foldr (fun t n => (calls_left t + n)%nat) O ts.

(** The steps the process still has to take: four for a call that
    constructs, less those the constructor has taken. *)
Definition togo {N : Type} (s : process N) : nat :=
  (4 * calls_to_make (threads s) - stage_of (busy s))%nat.

(** A step of thread [tid] does something. *)
Definition enabled {N : Type} (tid : nat) (s : process N) : Prop :=
  (exists pc, busy s = Some (tid, pc)) \/
  (busy s = None /\ exists t, threads s !! tid = Some t /\ calls_left t <> O).

(** What the threads have been answered so far. *)
Definition results_invariant {N : Type} (calls : list nat) (s : process N) : Prop :=
  List.length (threads s) = List.length calls /\
  (forall tid t,
      threads s !! tid = Some t ->
      exists k, calls !! tid = Some k /\ (calls_left t <= k)%nat /\
                match context_wrapper (world s) with
                | Some wrapper =>
                    results t = repeat (Returns (context wrapper)) (k - calls_left t)
                | None => calls_left t = k /\ results t = []
                end) /\
  (forall owner pc,
      busy s = Some (owner, pc) ->
      exists t, threads s !! owner = Some t /\ calls_left t <> O).

(** The thread inside the constructor is [a], or the construction is over. *)
Definition constructed_by {N : Type} (a : nat) (s : process N) : Prop :=
  (context_wrapper (world s) <> None /\ busy s = None) \/
  (exists pc, busy s = Some (a, pc)).

(** The process has served every call by constructing once: its events
    are those of one successful construction; every thread was answered
    the context of that construction, as often as it asked; and teardown
    cleans that context up, once. *)
Definition served_once {N : Type} `{UCX N} (calls : list nat) (s : process N) : Prop :=
  exists c config,
    trace (world s) = [Ev_config_read "TORCH"; Ev_init UCPContext_params UCS_OK c;
                       Ev_config_release config] /\
    (forall tid t, threads s !! tid = Some t ->
                   exists k, calls !! tid = Some k /\ results t = repeat (Returns c) k) /\
    trace (process_exit (world s)) = trace (world s) ++ [Ev_cleanup c] /\
    process_exit (process_exit (world s)) = process_exit (world s).

(** What holds of concurrent callers when the configuration is valid.  The
    thread inside the constructor is the first thread of the schedule that
    had a call to make.  A process in which every call has been made, and
    one was, has served them by constructing once.  And every schedule can
    be continued to that end: after enough turns of every thread no call is
    left, and the calls have been served by constructing once. *)
Definition requests_construct_once {N : Type} `{UCX N} (w0 : World N)
    (calls schedule : list nat) : Prop :=
  let s := run schedule (boot w0 calls) in
  let served :=
    run (schedule ++ round_robin (List.length calls) (4 * list_sum calls)) (boot w0 calls) in
  (forall owner pc, busy s = Some (owner, pc) -> first_caller calls schedule = Some owner) /\
  (all_done s -> (exists tid k, calls !! tid = Some (S k)) -> served_once calls s) /\
  all_done served /\
  ((exists tid k, calls !! tid = Some (S k)) -> served_once calls served).

Definition one_context {N : Type} `{UCX N} (w0 : World N)
    (calls schedule : list nat) (n : nat) : Prop :=
  at_most_one_context w0 calls schedule /\
  (valid_configuration N ->
   first_request_constructs w0 calls schedule n /\
   requests_construct_once w0 calls schedule).

(** ** Further notions: kinds of events, parameter blocks, test doubles *)

Definition is_config_read (e : Event) : bool :=
  match e with Ev_config_read _ => true | _ => false end.

Definition is_config_release (e : Event) : bool :=
  match e with Ev_config_release _ => true | _ => false end.

Definition is_worker_create (e : Event) : bool :=
  match e with Ev_worker_create _ _ => true | _ => false end.

Definition is_close (e : Event) : bool :=
  match e with Ev_ep_close_nb _ _ => true | _ => false end.

Definition is_warn (e : Event) : bool :=
  match e with Ev_warn _ _ => true | _ => false end.

Definition is_progress (e : Event) : bool :=
  match e with Ev_worker_progress _ => true | _ => false end.

Definition is_check (e : Event) : bool :=
  match e with Ev_request_check_status _ => true | _ => false end.

Definition is_free (e : Event) : bool :=
  match e with Ev_request_free _ => true | _ => false end.

(** UCXUtils.cpp:44-46: the parameter block of every worker. *)
Definition multi_thread_params : ucp_worker_params_t :=
  {| worker_field_mask := UCP_WORKER_PARAM_FIELD_THREAD_MODE;
     thread_mode := UCS_THREAD_MODE_MULTI |}.

(** UCXUtils.cpp:69-71: the parameter block of an endpoint to [address]. *)
Definition remote_address_params (address : list Byte.byte) : ucp_ep_params_t :=
  {| ep_field_mask := UCP_EP_PARAM_FIELD_REMOTE_ADDRESS; address := address |}.

(** The values of [int], the type of the [tag] parameters. *)
Definition is_int (t : Z) : Prop := - 2 ^ 31 <= t < 2 ^ 31.

(** The scenario with a receive that is too short: the receiver posts a
    receive of three bytes for tag 7, the request 4480, and the endpoint
    sends the five bytes of [hello] with tag 7. *)
Definition short_receive : World Ref.state :=
  snd ((UCPWorker_recv_with_tag Demo.receiver 2000 3 7 kCPU ;;;
        UCPEndpoint_send_with_tag Demo.sender_ep 1000 5 7 kCPU)%ucx Demo.connected).

(** The life of the completion flag of the Request the submission [op]
    returns, when the native call of [op] came back with [request], ran the
    callbacks of [ups] and left the native state [n], and the progress step
    of the submission is driven on [self].  A Request without a native
    handle reads as complete in every world.  A Request on request memory
    the library uses for the first time reads false when the submission
    returns, unless a callback ran on it by then; on request memory the
    library has used before it reads what that use left, unless a callback
    ran.  A progress step changes
    a flag that reads false only by running the callback on the request.
    A flag that reads true still reads true after any further progress
    calls. *)
Definition flag_lifecycle {N : Type} `{UCX N} (self : UCPWorker) (op : M N UCPRequest)
    (w : World N) (request : ucs_status_ptr_t) (ups : list Upcall) (n : N) : Prop :=
  exists (rq : UCPRequest) (w2 : World N),
    op w = (Returns rq, w2) /\
    (UCS_PTR_STATUS request = UCS_OK ->
     data rq = nullptr /\ forall w' : World N, UCPRequest_is_completed rq w' = Some true) /\
    (UCS_PTR_IS_PTR request = true -> reqmem w !! request = None ->
     data rq = request /\
     UCPRequest_is_completed rq w2
     = Some (completes request ups
             || completes request (fst (ucp_worker_progress (worker self) n)))) /\
    (UCS_PTR_IS_PTR request = true ->
     forall prior : Data, reqmem w !! request = Some prior ->
     data rq = request /\
     UCPRequest_is_completed rq w2
     = Some (completed prior || completes request ups
             || completes request (fst (ucp_worker_progress (worker self) n)))) /\
    (forall (wk : UCPWorker) (w3 : World N),
        UCPRequest_is_completed rq w3 = Some false ->
        UCPRequest_is_completed rq (snd (UCPWorker_progress wk w3))
        = Some (completes (data rq) (fst (ucp_worker_progress (worker wk) (native w3))))) /\
    (forall (earlier further : list UCPWorker) (w3 : World N),
        UCPRequest_is_completed rq (progress_calls earlier w3) = Some true ->
        UCPRequest_is_completed rq (progress_calls (earlier ++ further) w3) = Some true).

(** The constructor of the context registers an initializer that clears
    the flag: every parameter block it hands to [ucp_init] announces a
    request initializer, and the initializer writes false. *)
Definition registers_initializer {N : Type} `{UCX N} (w : World N) : Prop :=
  exists rest,
    trace (snd (UCPContext_ctor w)) = trace w ++ rest /\
    forall p s c,
      In (Ev_init p s c) rest ->
      Z.land (field_mask p) UCP_PARAM_FIELD_REQUEST_INIT <> 0 /\
      forall (request : Z) (rm : ReqMem),
        run_request_hook (request_init p) request rm !! request = Some (mkData false).

(** A script in which the library has one piece of request memory, at
    5000, which it hands out for every operation, and completes the
    operation on the first progress step. *)
Definition recycling : Scripted.script :=
  Scripted.mkScript (fun _ => (UCS_OK, 10)) (fun _ => (UCS_OK, 20))
    (UCS_OK, 30, [Byte.x01]) (5000, [])
    (fun k => if (k <? 1)%nat
              then [Completed p2p_completion_lambda 5000 UCS_OK (mkInfo 7 5) 0]
              else [])
    (UCS_STATUS_PTR UCS_OK) (fun _ => UCS_OK).

(** On that script: a worker is constructed, a receive is submitted on it,
    completes in the progress step of its submission, and its Request is
    released. *)
Definition recycled : World Scripted.state :=
  snd ((let* wk := UCPWorker_ctor in
        let* rq := UCPWorker_recv_with_tag wk 2000 5 7 kCPU in
        UCPRequest_dtor rq)%ucx (Scripted.start recycling)).

(** The tags the library is handed, one for every send and every receive
    of a run. *)
Definition submitted_tags (tr : list Event) : list Z :=
  omap (fun e =>
          match e with
          | Ev_tag_recv_nbx _ _ _ tag _ _ => Some tag
          | Ev_tag_send_nbx _ _ _ tag _ => Some tag
          | _ => None
          end) tr.

(** The operation [op], called in the world [w] with the tag [t1] and with
    the tag [t2], hands the library one tag each time, the value of its
    [int] as an unsigned 64-bit integer, and not the same tag twice. *)
Definition keeps_tags_apart {N : Type} `{UCX N} (op : Z -> M N UCPRequest)
    (w : World N) (t1 t2 : Z) : Prop :=
  exists g1 g2,
    submitted_tags (trace (snd (op t1 w))) = submitted_tags (trace w) ++ [g1] /\
    submitted_tags (trace (snd (op t2 w))) = submitted_tags (trace w) ++ [g2] /\
    g1 = (if t1 <? 0 then 2 ^ 64 + t1 else t1) /\
    g2 = (if t2 <? 0 then 2 ^ 64 + t2 else t2) /\
    0 <= g1 < 2 ^ 64 /\ 0 <= g2 < 2 ^ 64 /\
    g1 <> g2.

(** The values of [size_t], the type of the [size] parameters. *)
Definition is_size_t (n : Z) : Prop := 0 <= n < 2 ^ 64.

(** The bytes a tagged operation moves: [count] elements of the datatype. *)
Definition transfer_length (count datatype : Z) : Z :=
  count * ucp_contig_dt_elem_size datatype.

(** A script in which the configuration is read and the initialisation of
    the context fails. *)
Definition failing_init : Scripted.script :=
  Scripted.mkScript (fun _ => (UCS_OK, 10)) (fun _ => (UCS_ERR_NO_MEMORY, 0))
    (UCS_OK, 30, [Byte.x01]) (UCS_STATUS_PTR UCS_OK, [])
    (fun _ => []) (UCS_STATUS_PTR UCS_OK) (fun _ => UCS_OK).

(** A script in which the address query succeeds and reports an address
    of length zero. *)
Definition empty_address : Scripted.script :=
  Scripted.mkScript (fun _ => (UCS_OK, 10)) (fun _ => (UCS_OK, 20))
    (UCS_OK, 30, []) (UCS_STATUS_PTR UCS_OK, [])
    (fun _ => []) (UCS_STATUS_PTR UCS_OK) (fun _ => UCS_OK).

(** A third implementation of [UCX]: a library that initialises a context
    and then refuses to create a worker. *)
Module Refusing.

Inductive state := Idle.

#[global] Instance RefusingUCX : UCX state := {|
  ucp_config_read := fun _ s => (UCS_OK, 10, s);
  ucp_init := fun _ _ s => (UCS_OK, 20, s);
  ucp_config_release := fun _ s => s;
  ucp_cleanup := fun _ s => s;
  ucp_worker_create := fun _ _ s => (UCS_ERR_NO_MEMORY, 0, s);
  ucp_worker_get_address := fun _ s => (UCS_ERR_NO_MEMORY, 0, [], s);
  ucp_worker_release_address := fun _ _ s => s;
  ucp_worker_progress := fun _ s => ([], s);
  ucp_ep_create := fun _ _ s => (UCS_ERR_NO_MEMORY, 0, s);
  ucp_ep_close_nb := fun _ _ s => (UCS_STATUS_PTR UCS_OK, s);
  ucp_request_check_status := fun _ _ => UCS_OK;
  ucp_request_free := fun _ s => s;
  ucp_tag_recv_nbx := fun _ _ _ _ _ _ _ s => (UCS_STATUS_PTR UCS_ERR_NO_MEMORY, [], s);
  ucp_tag_send_nbx := fun _ _ _ _ _ _ s => (UCS_STATUS_PTR UCS_ERR_NO_MEMORY, [], s)
|}.

Definition start : World state := mkWorld Idle ∅ ∅ ∅ None [].

End Refusing.

(** * Facts about status pointers *)

Lemma uintptr_small (x : Z) : 0 <= x < ptr_modulus -> uintptr x = x.
Proof. intros Hx. unfold uintptr. apply Z.mod_small. exact Hx. Qed.

Lemma uintptr_range (x : Z) : 0 <= uintptr x < ptr_modulus.
Proof. unfold uintptr, ptr_modulus. apply Z.mod_pos_bound. lia. Qed.

(** A status pointer is an error, a request, or null, and never two of them. *)
Lemma status_ptr_trichotomy (p : ucs_status_ptr_t) :
  (UCS_PTR_IS_ERR p = true /\ UCS_PTR_IS_PTR p = false /\ uintptr p <> 0) \/
  (UCS_PTR_IS_ERR p = false /\ UCS_PTR_IS_PTR p = true /\ uintptr p <> 0) \/
  (UCS_PTR_IS_ERR p = false /\ UCS_PTR_IS_PTR p = false /\ uintptr p = 0).
Proof.
  unfold UCS_PTR_IS_ERR, UCS_PTR_IS_PTR.
  pose proof (uintptr_range p) as Hp.
  change (uintptr UCS_ERR_LAST) with (ptr_modulus - 100).
  change (uintptr (ptr_modulus - 100 - 1)) with (ptr_modulus - 101).
  unfold ptr_modulus in *.
  destruct (Z.eq_dec (uintptr p) 0) as [Hz | Hz].
  - right; right. rewrite Hz.
    change (uintptr (0 - 1)) with (2 ^ 64 - 1).
    split; [apply Z.leb_gt; lia | split; [apply Z.ltb_ge; lia | reflexivity]].
  - rewrite (uintptr_small (uintptr p - 1)) by (unfold ptr_modulus; lia).
    destruct (Z_lt_le_dec (uintptr p) (2 ^ 64 - 100)) as [Hlt | Hge].
    + right; left.
      split; [apply Z.leb_gt; lia | split; [apply Z.ltb_lt; lia | exact Hz]].
    + left.
      split; [apply Z.leb_le; lia | split; [apply Z.ltb_ge; lia | exact Hz]].
Qed.

Lemma is_err_not_ptr (p : ucs_status_ptr_t) :
  UCS_PTR_IS_ERR p = true -> UCS_PTR_IS_PTR p = false.
Proof. destruct (status_ptr_trichotomy p) as [H | [H | H]]; intuition congruence. Qed.

(** An error pointer never reads as the status [UCS_OK]. *)
Lemma is_err_status_not_ok (p : ucs_status_ptr_t) :
  UCS_PTR_IS_ERR p = true -> (UCS_PTR_STATUS p =? UCS_OK) = false.
Proof.
  intros He. unfold UCS_PTR_STATUS. rewrite (is_err_not_ptr p He).
  unfold UCS_PTR_RAW_STATUS, intptr, UCS_OK.
  unfold UCS_PTR_IS_ERR in He. apply Z.leb_le in He.
  change (uintptr UCS_ERR_LAST) with (ptr_modulus - 100) in He.
  pose proof (uintptr_range p) as Hp. unfold ptr_modulus in *.
  cbv zeta.
  destruct (uintptr p <? 2 ^ 63) eqn:E.
  - apply Z.ltb_lt in E. lia.
  - apply Z.eqb_neq. lia.
Qed.

(** * Facts about the world *)

Section WorldFacts.
Context {N : Type} `{UCX N}.

Lemma trace_apply_upcall (u : Upcall) (w : World N) :
  trace (apply_upcall u w) = trace w.
Proof. destruct u; reflexivity. Qed.

Lemma trace_apply_upcalls (us : list Upcall) (w : World N) :
  trace (apply_upcalls us w) = trace w.
Proof.
  unfold apply_upcalls. revert w.
  induction us as [| u us IH]; intros w; simpl; [reflexivity |].
  rewrite IH. apply trace_apply_upcall.
Qed.

Lemma trace_submitted (request : ucs_status_ptr_t) (us : list Upcall) (w : World N) :
  trace (submitted request us w) = trace w.
Proof.
  unfold submitted. rewrite trace_apply_upcalls.
  destruct (UCS_PTR_IS_PTR request); reflexivity.
Qed.

Lemma trace_log (e : Event) (w : World N) : trace (log e w) = trace w ++ [e].
Proof. reflexivity. Qed.

Lemma trace_native_request_free (request : Z) (w : World N) :
  trace (snd (native_request_free request w)) = trace w ++ [Ev_request_free request].
Proof. reflexivity. Qed.

Lemma trace_native_worker_progress (worker : Z) (w : World N) :
  trace (snd (native_worker_progress worker w)) = trace w ++ [Ev_worker_progress worker].
Proof.
  unfold native_worker_progress.
  destruct (ucp_worker_progress worker (native w)) as [ups n]. simpl.
  apply trace_apply_upcalls.
Qed.

Lemma trace_native_tag_recv_nbx (worker buffer count tag tag_mask : Z)
    (param : ucp_request_param_t) (w : World N) :
  trace (snd (native_tag_recv_nbx worker buffer count tag tag_mask param w))
  = trace w ++ [Ev_tag_recv_nbx worker buffer count tag tag_mask param].
Proof.
  unfold native_tag_recv_nbx.
  destruct (ucp_tag_recv_nbx _ _ _ _ _ _ _ _) as [[request ups] n]. simpl.
  apply trace_submitted.
Qed.

Lemma trace_native_tag_send_nbx (ep buffer count tag : Z)
    (param : ucp_request_param_t) (w : World N) :
  trace (snd (native_tag_send_nbx ep buffer count tag param w))
  = trace w ++ [Ev_tag_send_nbx ep buffer count tag param].
Proof.
  unfold native_tag_send_nbx.
  destruct (ucp_tag_send_nbx _ _ _ _ _ _ _) as [[request ups] n]. simpl.
  apply trace_submitted.
Qed.

Lemma lift_returns {A} (f : World N -> A * World N) (w : World N) :
  lift f w = (Returns (fst (f w)), snd (f w)).
Proof. unfold lift. destruct (f w). reflexivity. Qed.

(** What a submission does, by the status of the pointer [work] returns. *)
Lemma submit_p2p_request_unfold (self : UCPWorker) (size : Z) (device : DeviceType)
    (work : ucp_request_param_t -> M N ucs_status_ptr_t)
    (w w1 : World N) (request : ucs_status_ptr_t) :
  work (p2p_params size device) w = (Returns request, w1) ->
  UCPWorker_submit_p2p_request self size device work w =
    if UCS_PTR_STATUS request =? UCS_OK
    then (Returns (mkUCPRequest nullptr), w1)
    else (Returns (mkUCPRequest request),
          snd (native_worker_progress (worker self) w1)).
Proof.
  intros Hwork. unfold UCPWorker_submit_p2p_request, bind. rewrite Hwork.
  destruct (UCS_PTR_STATUS request =? UCS_OK); [reflexivity |].
  unfold UCPWorker_progress. rewrite lift_returns. reflexivity.
Qed.

(** The trace of a submission starts with the events of [work]. *)
Lemma submit_p2p_request_trace (self : UCPWorker) (size : Z) (device : DeviceType)
    (f : ucp_request_param_t -> World N -> ucs_status_ptr_t * World N) (w : World N) :
  exists rest,
    trace (snd (UCPWorker_submit_p2p_request self size device (fun p => lift (f p)) w))
    = trace (snd (f (p2p_params size device) w)) ++ rest
    /\ (rest = [] \/ rest = [Ev_worker_progress (worker self)]).
Proof.
  rewrite (submit_p2p_request_unfold self size device (fun p => lift (f p)) w
             (snd (f (p2p_params size device) w)) (fst (f (p2p_params size device) w)))
    by apply lift_returns.
  destruct (UCS_PTR_STATUS _ =? UCS_OK); simpl.
  - exists []. split; [symmetry; apply app_nil_r | left; reflexivity].
  - eexists. split; [apply trace_native_worker_progress | right; reflexivity].
Qed.

End WorldFacts.

(** Callbacks and deliveries leave the native state alone. *)
Lemma native_apply_upcalls {N : Type} `{UCX N} (us : list Upcall) (w : World N) :
  native (apply_upcalls us w) = native w.
Proof.
  unfold apply_upcalls. revert w.
  induction us as [| u us IH]; intros w; simpl; [reflexivity |].
  rewrite IH. destruct u; reflexivity.
Qed.

Lemma native_native_worker_progress {N : Type} `{UCX N} (worker : Z) (w : World N) :
  native (snd (native_worker_progress worker w)) = snd (ucp_worker_progress worker (native w)).
Proof.
  unfold native_worker_progress.
  destruct (ucp_worker_progress worker (native w)) as [ups n]. simpl.
  rewrite native_apply_upcalls. reflexivity.
Qed.

(** * Memory kind of a submission *)

Lemma submitted_params_app (tr1 tr2 : list Event) :
  submitted_params (tr1 ++ tr2) = submitted_params tr1 ++ submitted_params tr2.
Proof. unfold submitted_params. apply omap_app. Qed.

Lemma p2p_params_annotated (size : Z) (d : DeviceType) :
  annotated (getUCSMemoryType d) (p2p_params size d).
Proof. split; [discriminate | reflexivity]. Qed.

Lemma submits_with_kind_of (d : DeviceType) : submits_with_kind d (getUCSMemoryType d).
Proof.
  intros N U self ep data size tag w.
  assert (Hone : forall (wk : UCPWorker)
                        (f : ucp_request_param_t -> World N -> ucs_status_ptr_t * World N) e,
             (forall p, trace (snd (f p w)) = trace w ++ [e p]) ->
             submitted_params [e (p2p_params size d)] = [p2p_params size d] ->
             exists p,
               submitted_params
                 (trace (snd (UCPWorker_submit_p2p_request wk size d (fun p => lift (f p)) w)))
               = submitted_params (trace w) ++ [p] /\ annotated (getUCSMemoryType d) p).
  { intros wk f e Hf He.
    destruct (submit_p2p_request_trace wk size d f w) as [rest [Htr Hrest]].
    exists (p2p_params size d). split; [| apply p2p_params_annotated].
    rewrite Htr, Hf, !submitted_params_app, He.
    destruct Hrest as [-> | ->]; simpl; rewrite app_nil_r; reflexivity. }
  split; [| split].
  - apply (Hone self _ (fun p => Ev_tag_recv_nbx (worker self) data 1 (ucp_tag_of_int tag) 0 p)).
    + intros p. apply trace_native_tag_recv_nbx.
    + reflexivity.
  - apply (Hone (ep_worker ep) _
             (fun p => Ev_tag_send_nbx (endpoint ep) data 1 (ucp_tag_of_int tag) p)).
    + intros p. apply trace_native_tag_send_nbx.
    + reflexivity.
  - apply (Hone (ep_worker ep) _
             (fun p => Ev_tag_recv_nbx (UCPWorker_get (ep_worker ep)) data 1
                         (ucp_tag_of_int tag) 0 p)).
    + intros p. apply trace_native_tag_recv_nbx.
    + reflexivity.
Qed.

(** C7.  A send or a receive submitted for a buffer of device kind d hands
    the library one parameter block whose memory-type field is announced in
    the attribute mask and holds the kind of d: host for CPU, the CUDA kind
    for CUDA, the ROCm kind for HIP.  This holds for every implementation of
    the library and in every world. *)
Theorem submission_memory_type :
  submits_with_kind kCPU UCS_MEMORY_TYPE_HOST /\
  submits_with_kind kCUDA UCS_MEMORY_TYPE_CUDA /\
  submits_with_kind kHIP UCS_MEMORY_TYPE_ROCM.
Proof.
  split; [| split].
  - exact (submits_with_kind_of kCPU).
  - exact (submits_with_kind_of kCUDA).
  - exact (submits_with_kind_of kHIP).
Qed.

(** * Completion flags *)

Lemma completes_cons (r : Z) (u : Upcall) (ups : list Upcall) :
  completes r (u :: ups) = (completes r [u] || completes r ups)%bool.
Proof. unfold completes. simpl. rewrite orb_false_r. reflexivity. Qed.

Section FlagFacts.
Context {N : Type} `{UCX N}.

Lemma reqmem_apply_upcall (u : Upcall) (w : World N) (r : Z) :
  reqmem (apply_upcall u w) !! r =
    if completes r [u] then Some (mkData true) else reqmem w !! r.
Proof.
  destruct u as [addr payload | cb r' st info ud]; simpl; [reflexivity |].
  destruct cb. unfold set_completed. rewrite orb_false_r.
  destruct (r' =? r) eqn:E.
  - apply Z.eqb_eq in E. subst r'. apply lookup_insert_eq.
  - apply Z.eqb_neq in E. apply lookup_insert_ne. exact E.
Qed.

Lemma reqmem_apply_upcalls (ups : list Upcall) (w : World N) (r : Z) :
  reqmem (apply_upcalls ups w) !! r =
    if completes r ups then Some (mkData true) else reqmem w !! r.
Proof.
  unfold apply_upcalls. revert w.
  induction ups as [| u ups IH]; intros w; [reflexivity |].
  change (foldl (fun w0 u0 => apply_upcall u0 w0) w (u :: ups))
    with (foldl (fun w0 u0 => apply_upcall u0 w0) (apply_upcall u w) ups).
  rewrite IH, reqmem_apply_upcall, (completes_cons r u ups).
  destruct (completes r [u]), (completes r ups); reflexivity.
Qed.

Lemma reqmem_native_worker_progress (worker : Z) (w : World N) (r : Z) :
  reqmem (snd (native_worker_progress worker w)) !! r =
    if completes r (fst (ucp_worker_progress worker (native w)))
    then Some (mkData true) else reqmem w !! r.
Proof.
  unfold native_worker_progress.
  destruct (ucp_worker_progress worker (native w)) as [ups n]. simpl.
  rewrite reqmem_apply_upcalls. reflexivity.
Qed.

Lemma is_completed_handle (request : Z) (w : World N) :
  request <> nullptr ->
  UCPRequest_is_completed (mkUCPRequest request) w = completed <$> reqmem w !! request.
Proof.
  intros Hr. unfold UCPRequest_is_completed. simpl.
  destruct (request =? nullptr) eqn:E; [apply Z.eqb_eq in E; contradiction | reflexivity].
Qed.

(** One progress call never takes a completion back. *)
Lemma is_completed_progress (rq : UCPRequest) (wk : UCPWorker) (w : World N) :
  UCPRequest_is_completed rq w = Some true ->
  UCPRequest_is_completed rq (snd (UCPWorker_progress wk w)) = Some true.
Proof.
  unfold UCPRequest_is_completed, UCPWorker_progress. rewrite lift_returns. simpl.
  destruct (data rq =? nullptr); [reflexivity |].
  rewrite reqmem_native_worker_progress.
  destruct (completes _ _); [reflexivity | tauto].
Qed.

Lemma is_completed_progress_calls (rq : UCPRequest) (workers : list UCPWorker) (w : World N) :
  UCPRequest_is_completed rq w = Some true ->
  UCPRequest_is_completed rq (progress_calls workers w) = Some true.
Proof.
  revert w. induction workers as [| wk workers IH]; intros w Hw; simpl; [exact Hw |].
  apply IH, is_completed_progress, Hw.
Qed.

(** The same for the flag itself, in the request state. *)
Lemma flag_progress_calls (request : Z) (workers : list UCPWorker) (w : World N) :
  reqmem w !! request = Some (mkData true) ->
  reqmem (progress_calls workers w) !! request = Some (mkData true).
Proof.
  revert w. induction workers as [| wk workers IH]; intros w Hw; simpl; [exact Hw |].
  apply IH. unfold UCPWorker_progress. rewrite lift_returns. simpl.
  rewrite reqmem_native_worker_progress.
  destruct (completes _ _); [reflexivity | exact Hw].
Qed.

Lemma progress_calls_app (ws1 ws2 : list UCPWorker) (w : World N) :
  progress_calls (ws1 ++ ws2) w = progress_calls ws2 (progress_calls ws1 w).
Proof.
  revert w. induction ws1 as [| wk ws1 IH]; intros w; simpl; [reflexivity | apply IH].
Qed.

(** The callback of a submission marks the request complete, whatever the
    status the library reports. *)
Lemma is_completed_after_callback (size : Z) (d : DeviceType) (request : Z)
    (st : ucs_status_t) (info : ucp_tag_recv_info_t) (ud : Z) (w : World N) :
  UCPRequest_is_completed (mkUCPRequest request)
    (apply_upcall (Completed (cb_recv (p2p_params size d)) request st info ud) w)
  = Some true.
Proof.
  unfold UCPRequest_is_completed. simpl.
  destruct (request =? nullptr); [reflexivity |].
  unfold set_completed. rewrite lookup_insert_eq. reflexivity.
Qed.

End FlagFacts.

(** The callback of a submission ignores the status. *)
Lemma p2p_callback_ignores_status {N : Type} `{UCX N} (size : Z) (d : DeviceType) :
  ignores_status N (cb_recv (p2p_params size d)).
Proof.
  intros request status info info' ud ud' w.
  split; [reflexivity | split].
  - simpl. unfold set_completed. apply lookup_insert_eq.
  - apply is_completed_after_callback.
Qed.

(** What the callbacks of a batch of upcalls do does not depend on the
    statuses the library reports to them. *)
Lemma apply_upcalls_with_status {N : Type} `{UCX N} (st : ucs_status_t)
    (ups : list Upcall) (w : World N) :
  apply_upcalls (with_status st ups) w = apply_upcalls ups w.
Proof.
  unfold apply_upcalls, with_status. revert w.
  induction ups as [| u ups IH]; intros w; [reflexivity |].
  simpl. rewrite IH. destruct u as [addr payload | [] request s info ud]; reflexivity.
Qed.

(** Every submission that goes through [submit_p2p_request] with a native
    call that leaves the event [e] installs the status-blind callback. *)
Lemma submission_installs_callback {N : Type} `{UCX N} (wk : UCPWorker) (size : Z)
    (d : DeviceType) (f : ucp_request_param_t -> World N -> ucs_status_ptr_t * World N)
    (e : ucp_request_param_t -> Event) (w : World N) :
  (forall p, trace (snd (f p w)) = trace w ++ [e p]) ->
  submitted_params [e (p2p_params size d)] = [p2p_params size d] ->
  installs_status_blind_callback
    (UCPWorker_submit_p2p_request wk size d (fun p => lift (f p))) w.
Proof.
  intros Hf He.
  destruct (submit_p2p_request_trace wk size d f w) as [rest [Htr Hrest]].
  exists (p2p_params size d).
  split; [| split; [discriminate | split; [apply p2p_callback_ignores_status |]]].
  - rewrite Htr, Hf, !submitted_params_app, He.
    destruct Hrest as [-> | ->]; simpl; rewrite app_nil_r; reflexivity.
  - intros [request] w1 _ status info ud w2. apply is_completed_after_callback.
Qed.

(** C9.  Every send and every receive hands the library one parameter
    block; the block announces a callback, and the callback it installs
    sets the completion flag to true and reads none of its arguments.  So
    when the library runs the callback on the Request the submission
    returned, with a failure status or with [UCS_OK], the Request reads as
    complete and the world is the same; and a progress step leaves the
    world it would leave if every status the library reported were
    [UCS_OK].  On the reference transport a receive of three bytes that is
    matched by a send of five completes with [UCS_ERR_MESSAGE_TRUNCATED],
    and its Request reads as complete. *)
Theorem completion_callback_ignores_status :
  forall (N : Type) (U : UCX N) (self : UCPWorker) (ep : UCPEndpoint)
         (data size tag : Z) (d : DeviceType) (w : World N),
    installs_status_blind_callback (UCPWorker_recv_with_tag self data size tag d) w /\
    installs_status_blind_callback (UCPEndpoint_send_with_tag ep data size tag d) w /\
    installs_status_blind_callback (UCPEndpoint_recv_with_tag ep data size tag d) w /\
    snd (UCPWorker_progress self w)
    = apply_upcalls
        (with_status UCS_OK (fst (ucp_worker_progress (worker self) (native w))))
        (set_native (snd (ucp_worker_progress (worker self) (native w)))
           (log (Ev_worker_progress (worker self)) w)) /\
    (UCPRequest_is_completed (mkUCPRequest 4480) short_receive = Some false /\
     fst (ucp_worker_progress 4224 (native short_receive))
     = [Completed p2p_completion_lambda 4480 Ref.UCS_ERR_MESSAGE_TRUNCATED (mkInfo 7 5) 0] /\
     UCPRequest_is_completed (mkUCPRequest 4480)
       (snd (UCPWorker_progress Demo.receiver short_receive)) = Some true).
Proof.
  intros N U self ep data size tag d w.
  split; [| split; [| split; [| split; [| vm_compute; repeat split]]]].
  - apply (submission_installs_callback self size d _
             (fun p => Ev_tag_recv_nbx (worker self) data 1 (ucp_tag_of_int tag) 0 p)).
    + intros p. apply trace_native_tag_recv_nbx.
    + reflexivity.
  - apply (submission_installs_callback (ep_worker ep) size d _
             (fun p => Ev_tag_send_nbx (endpoint ep) data 1 (ucp_tag_of_int tag) p)).
    + intros p. apply trace_native_tag_send_nbx.
    + reflexivity.
  - apply (submission_installs_callback (ep_worker ep) size d _
             (fun p => Ev_tag_recv_nbx (UCPWorker_get (ep_worker ep)) data 1
                         (ucp_tag_of_int tag) 0 p)).
    + intros p. apply trace_native_tag_recv_nbx.
    + reflexivity.
  - unfold UCPWorker_progress. rewrite lift_returns. simpl.
    unfold native_worker_progress.
    destruct (ucp_worker_progress (worker self) (native w)) as [ups n]. simpl.
    symmetry. apply apply_upcalls_with_status.
Qed.

(** In the scenario the send returns the Request 4480; the library may
    report its completion with any status. *)
Lemma completion_callback_ignores_status_witness :
  fst (UCPEndpoint_send_with_tag Demo.sender_ep 1000 5 7 kCPU Demo.connected)
  = Returns (mkUCPRequest 4480)
  /\ installs_status_blind_callback
       (UCPEndpoint_send_with_tag Demo.sender_ep 1000 5 7 kCPU) Demo.connected
  /\ forall w2 : World Ref.state,
       UCPRequest_is_completed (mkUCPRequest 4480)
         (apply_upcall
            (Completed p2p_completion_lambda 4480 UCS_ERR_CANCELED (mkInfo 0 0) 0) w2)
       = Some true.
Proof.
  assert (Hrun : UCPEndpoint_send_with_tag Demo.sender_ep 1000 5 7 kCPU Demo.connected
                 = (Returns (mkUCPRequest 4480),
                    snd (UCPEndpoint_send_with_tag Demo.sender_ep 1000 5 7 kCPU
                           Demo.connected)))
    by (vm_compute; reflexivity).
  pose proof (proj1 (proj2 (completion_callback_ignores_status Ref.state Ref.RefUCX
                              Demo.receiver Demo.sender_ep 1000 5 7 kCPU Demo.connected)))
    as Hinst.
  split; [rewrite Hrun; reflexivity | split; [exact Hinst |]].
  intros w2. destruct Hinst as [p [Htr [_ [_ Hrq]]]].
  assert (Hp : p = p2p_params 5 kCPU).
  { vm_compute in Htr. inversion Htr; subst. reflexivity. }
  subst p. exact (Hrq _ _ Hrun UCS_ERR_CANCELED (mkInfo 0 0) 0 w2).
Defined.

(** * Context construction *)

Section ContextFacts.
Context {N : Type} `{UCX N}.

Lemma trace_native_config_read (prefix : string) (w : World N) :
  trace (snd (native_config_read prefix w)) = trace w ++ [Ev_config_read prefix].
Proof.
  unfold native_config_read.
  destruct (ucp_config_read prefix (native w)) as [[st config] n]. reflexivity.
Qed.

Lemma trace_native_init (params : ucp_params_t) (config : Z) (w : World N) :
  trace (snd (native_init params config w))
  = trace w ++ [Ev_init params (fst (fst (native_init params config w)))
                        (snd (fst (native_init params config w)))].
Proof.
  unfold native_init.
  destruct (ucp_init params config (native w)) as [[st ctx] n]. reflexivity.
Qed.

(** The constructor, by the statuses the two checked native calls return. *)
Lemma UCPContext_ctor_unfold (w : World N) :
  let r1 := native_config_read "TORCH" w in
  let r2 := native_init UCPContext_params (snd (fst r1)) (snd r1) in
  let w3 := snd (native_config_release (snd (fst r1)) (snd r2)) in
  UCPContext_ctor w =
    if fst (fst r1) =? UCS_OK then
      if fst (fst r2) =? UCS_OK
      then (Returns (mkUCPContext (snd (fst r2))), w3)
      else (Throws "Failed to init UCP context." (fst (fst r2)), w3)
    else (Throws "Failed to read UCP config." (fst (fst r1)), snd r1).
Proof.
  cbv zeta. unfold UCPContext_ctor, bind. rewrite lift_returns.
  destruct (native_config_read "TORCH" w) as [[st1 config] w1]. simpl.
  unfold TORCH_UCX_CHECK at 1.
  destruct (st1 =? UCS_OK); [| reflexivity]. simpl.
  rewrite lift_returns.
  destruct (native_init UCPContext_params config w1) as [[st2 ctx] w2]. simpl.
  unfold TORCH_UCX_CHECK.
  destruct (st2 =? UCS_OK); reflexivity.
Qed.

(** Whatever the constructor hands to [ucp_init] is [UCPContext_params]. *)
Lemma UCPContext_ctor_registers (w : World N) :
  exists rest,
    trace (snd (UCPContext_ctor w)) = trace w ++ rest /\
    forall p st c, In (Ev_init p st c) rest -> p = UCPContext_params.
Proof.
  pose proof (UCPContext_ctor_unfold w) as Hc. cbv zeta in Hc. rewrite Hc. clear Hc.
  destruct (fst (fst (native_config_read "TORCH" w)) =? UCS_OK).
  - assert (Htr : trace (snd (native_config_release (snd (fst (native_config_read "TORCH" w)))
                     (snd (native_init UCPContext_params
                             (snd (fst (native_config_read "TORCH" w)))
                             (snd (native_config_read "TORCH" w))))))
                  = trace w ++ [Ev_config_read "TORCH";
                       Ev_init UCPContext_params
                         (fst (fst (native_init UCPContext_params
                                 (snd (fst (native_config_read "TORCH" w)))
                                 (snd (native_config_read "TORCH" w)))))
                         (snd (fst (native_init UCPContext_params
                                 (snd (fst (native_config_read "TORCH" w)))
                                 (snd (native_config_read "TORCH" w)))));
                       Ev_config_release (snd (fst (native_config_read "TORCH" w)))]).
    { simpl. rewrite trace_native_init, trace_native_config_read, <- !app_assoc.
      reflexivity. }
    eexists. split.
    + destruct (_ =? UCS_OK); simpl snd; exact Htr.
    + intros p st c [Hin | [Hin | [Hin | []]]]; congruence.
  - eexists. split; [apply trace_native_config_read |].
    intros p st c [Hin | []]. discriminate.
Qed.

End ContextFacts.

(** * Outcome of a submission *)

Lemma status_not_ok_not_null (request : ucs_status_ptr_t) :
  (UCS_PTR_STATUS request =? UCS_OK) = false -> request <> nullptr.
Proof. intros Hst ->. discriminate Hst. Qed.

Lemma request_created_lookup (request : Z) (rm : ReqMem) :
  request_created UCPContext_params request rm !! request =
    match rm !! request with
    | Some d => Some d
    | None => Some (mkData false)
    end.
Proof.
  unfold request_created.
  destruct (rm !! request) as [d |] eqn:E; [exact E |].
  simpl. unfold set_completed. apply lookup_insert_eq.
Qed.

(** The state of a request right after the submission that returned it:
    complete if the submission itself ran the callback, otherwise as the
    library created it, which for new request memory is not complete. *)
Lemma reqmem_submitted {N : Type} `{UCX N}
    (request : ucs_status_ptr_t) (ups : list Upcall) (w : World N) :
  reqmem (submitted request ups w) !! request =
    if completes request ups then Some (mkData true)
    else if UCS_PTR_IS_PTR request then
           match reqmem w !! request with
           | Some d => Some d
           | None => Some (mkData false)
           end
         else reqmem w !! request.
Proof.
  unfold submitted. rewrite reqmem_apply_upcalls.
  destruct (completes request ups); [reflexivity |].
  destruct (UCS_PTR_IS_PTR request); [| reflexivity].
  apply request_created_lookup.
Qed.

(** C2, as amended.  When the native operation returns the status OK the
    Request has no native handle, reads as complete, and no progress step
    is driven.  Otherwise exactly one progress step is driven and the
    returned pointer becomes the handle of the Request; the flag the
    Request reads is true when that step ran the completion callback on
    the request, and is otherwise the flag the request state had after the
    submission; a native submission leaves that flag true if it ran the
    callback itself, false on request memory it used for the first time,
    and as it was on recycled request memory. *)
Theorem submit_p2p_request_outcome :
  forall (N : Type) (U : UCX N) (self : UCPWorker) (size : Z) (device : DeviceType)
         (work : ucp_request_param_t -> M N ucs_status_ptr_t)
         (w w1 : World N) (request : ucs_status_ptr_t),
    work (p2p_params size device) w = (Returns request, w1) ->
    submit_outcome self (UCPWorker_submit_p2p_request self size device work w) request w1
    /\ forall (ups : list Upcall) (w0 : World N),
         reqmem (submitted request ups w0) !! request =
           if completes request ups then Some (mkData true)
           else if UCS_PTR_IS_PTR request then
                  match reqmem w0 !! request with
                  | Some d => Some d
                  | None => Some (mkData false)
                  end
                else reqmem w0 !! request.
Proof.
  intros N U self size device work w w1 request Hwork.
  split; [| intros ups w0; apply reqmem_submitted].
  unfold submit_outcome.
  rewrite (submit_p2p_request_unfold self size device work w w1 request Hwork).
  destruct (UCS_PTR_STATUS request =? UCS_OK) eqn:Hst.
  - split; reflexivity.
  - cbv zeta. split; [reflexivity | split].
    + apply trace_native_worker_progress.
    + rewrite is_completed_handle by (apply status_not_ok_not_null, Hst).
      rewrite reqmem_native_worker_progress.
      destruct (completes _ _); reflexivity.
Qed.

(** The send of the scenario: the library returns the request 4480, which is
    pending, and the world after the native call. *)
Lemma submit_p2p_request_outcome_witness :
  lift (native_tag_send_nbx 4416 1000 1 (ucp_tag_of_int 7) (p2p_params 5 kCPU))
       Demo.connected
  = (Returns 4480,
     snd (native_tag_send_nbx 4416 1000 1 (ucp_tag_of_int 7) (p2p_params 5 kCPU)
            Demo.connected))
  /\ submit_outcome Demo.sender
       (UCPWorker_submit_p2p_request Demo.sender 5 kCPU
          (fun params => lift (native_tag_send_nbx 4416 1000 1 (ucp_tag_of_int 7) params))
          Demo.connected)
       4480
       (snd (native_tag_send_nbx 4416 1000 1 (ucp_tag_of_int 7) (p2p_params 5 kCPU)
               Demo.connected)).
Proof.
  split.
  - vm_compute. reflexivity.
  - refine (proj1 (submit_p2p_request_outcome Ref.state Ref.RefUCX Demo.sender 5 kCPU
                     (fun params =>
                        lift (native_tag_send_nbx 4416 1000 1 (ucp_tag_of_int 7) params))
                     Demo.connected
                     (snd (native_tag_send_nbx 4416 1000 1 (ucp_tag_of_int 7)
                             (p2p_params 5 kCPU) Demo.connected))
                     4480 _)).
    vm_compute. reflexivity.
Defined.

(** C2, as stated, fails.  In the scenario the send comes back with the
    request 4480, whose status is not OK; the one progress step the
    submission drives completes it, and the Request the caller receives
    already reads as complete. *)
Lemma pending_request_reads_complete :
  fst (UCPEndpoint_send_with_tag Demo.sender_ep 1000 5 7 kCPU Demo.connected)
  = Returns (mkUCPRequest 4480)
  /\ (UCS_PTR_STATUS 4480 =? UCS_OK) = false
  /\ UCPRequest_is_completed (mkUCPRequest 4480)
       (snd (UCPEndpoint_send_with_tag Demo.sender_ep 1000 5 7 kCPU Demo.connected))
     = Some true.
Proof. vm_compute. repeat split. Qed.

(** * The life of a completion flag *)

Section LifecycleFacts.
Context {N : Type} `{UCX N}.

(** A progress step changes a flag that reads false only through the
    callback. *)
Lemma is_completed_progress_false (rq : UCPRequest) (wk : UCPWorker) (w : World N) :
  UCPRequest_is_completed rq w = Some false ->
  UCPRequest_is_completed rq (snd (UCPWorker_progress wk w))
  = Some (completes (data rq) (fst (ucp_worker_progress (worker wk) (native w)))).
Proof.
  unfold UCPRequest_is_completed, UCPWorker_progress. rewrite lift_returns. simpl.
  destruct (data rq =? nullptr); [discriminate |].
  rewrite reqmem_native_worker_progress.
  destruct (completes _ _); [reflexivity | tauto].
Qed.

(** The native state a submission leaves is the one the library returned. *)
Lemma native_submitted (request : ucs_status_ptr_t) (ups : list Upcall) (w : World N) :
  native (submitted request ups w) = native w.
Proof.
  unfold submitted. rewrite native_apply_upcalls.
  destruct (UCS_PTR_IS_PTR request); reflexivity.
Qed.

(** The lifecycle, for a submission whose native call is [f]: [f] leaves
    the world [submitted request ups] of a world with the request state of
    [w] and the native state [n]. *)
Lemma flag_lifecycle_submission (self : UCPWorker) (size : Z) (d : DeviceType)
    (f : ucp_request_param_t -> World N -> ucs_status_ptr_t * World N)
    (w w0 : World N) (request : ucs_status_ptr_t) (ups : list Upcall) (n : N) :
  f (p2p_params size d) w = (request, submitted request ups w0) ->
  reqmem w0 = reqmem w -> native w0 = n ->
  flag_lifecycle self (UCPWorker_submit_p2p_request self size d (fun p => lift (f p)))
    w request ups n.
Proof.
  intros Hf Hrm Hn.
  assert (Hwork : lift (f (p2p_params size d)) w
                  = (Returns request, submitted request ups w0)).
  { rewrite lift_returns, Hf. reflexivity. }
  pose proof (submit_p2p_request_unfold self size d (fun p => lift (f p)) w
                (submitted request ups w0) request Hwork) as Hrun.
  assert (Htail : forall rq : UCPRequest,
             (forall (wk : UCPWorker) (w3 : World N),
                 UCPRequest_is_completed rq w3 = Some false ->
                 UCPRequest_is_completed rq (snd (UCPWorker_progress wk w3))
                 = Some (completes (data rq)
                           (fst (ucp_worker_progress (worker wk) (native w3))))) /\
             (forall (earlier further : list UCPWorker) (w3 : World N),
                 UCPRequest_is_completed rq (progress_calls earlier w3) = Some true ->
                 UCPRequest_is_completed rq (progress_calls (earlier ++ further) w3)
                 = Some true)).
  { intros rq. split.
    - intros wk w3. apply is_completed_progress_false.
    - intros earlier further w3 Hdone. rewrite progress_calls_app.
      apply is_completed_progress_calls, Hdone. }
  destruct (UCS_PTR_STATUS request =? UCS_OK) eqn:Hst.
  - exists (mkUCPRequest nullptr), (submitted request ups w0).
    split; [exact Hrun | split; [| split; [| split; [| apply Htail]]]].
    + intros _. split; [reflexivity | intros w'; reflexivity].
    + intros Hptr _. unfold UCS_PTR_STATUS in Hst. rewrite Hptr in Hst. discriminate.
    + intros Hptr. unfold UCS_PTR_STATUS in Hst. rewrite Hptr in Hst. discriminate.
  - exists (mkUCPRequest request),
           (snd (native_worker_progress (worker self) (submitted request ups w0))).
    split; [exact Hrun | split; [| split; [| split; [| apply Htail]]]].
    + intros Hok. rewrite Hok in Hst. discriminate.
    + intros Hptr Hnew. split; [reflexivity |].
      rewrite is_completed_handle by (apply status_not_ok_not_null, Hst).
      rewrite reqmem_native_worker_progress, native_submitted, Hn, reqmem_submitted.
      rewrite Hptr, Hrm, Hnew.
      destruct (completes request ups), (completes request _); reflexivity.
    + intros Hptr [b] Hleft. split; [reflexivity |].
      rewrite is_completed_handle by (apply status_not_ok_not_null, Hst).
      rewrite reqmem_native_worker_progress, native_submitted, Hn, reqmem_submitted.
      rewrite Hptr, Hrm, Hleft.
      destruct b, (completes request ups), (completes request _); reflexivity.
Qed.

End LifecycleFacts.




(** * A native error at submission *)

(** A submission whose native call returns an error pointer drives one
    progress step and returns a Request around that pointer; nothing is
    thrown. *)
Lemma submit_p2p_request_error_ptr {N : Type} `{UCX N}
    (self : UCPWorker) (size : Z) (device : DeviceType)
    (work : ucp_request_param_t -> M N ucs_status_ptr_t)
    (w w1 : World N) (request : ucs_status_ptr_t) :
  work (p2p_params size device) w = (Returns request, w1) ->
  UCS_PTR_IS_ERR request = true ->
  UCPWorker_submit_p2p_request self size device work w
  = (Returns (mkUCPRequest request), snd (native_worker_progress (worker self) w1)).
Proof.
  intros Hwork Herr.
  rewrite (submit_p2p_request_unfold self size device work w w1 request Hwork).
  rewrite (is_err_status_not_ok request Herr). reflexivity.
Qed.

(** C3, a defect of the code.  The library refuses a send with
    [UCS_ERR_NO_MEMORY]: the pointer it returns is an error pointer, not a
    request.  [send_with_tag] throws nothing; it drives a progress step and
    returns a Request whose handle is the error pointer, the same shape a
    pending operation has, and a read of its completion flag goes through a
    handle that designates no request state. *)
Theorem submission_error_wrapped_as_pending :
  UCS_PTR_IS_ERR (UCS_STATUS_PTR UCS_ERR_NO_MEMORY) = true
  /\ UCS_PTR_IS_PTR (UCS_STATUS_PTR UCS_ERR_NO_MEMORY) = false
  /\ fst (UCPEndpoint_send_with_tag Scripted.an_endpoint 1000 5 7 kCPU
            (Scripted.start Scripted.out_of_memory))
     = Returns (mkUCPRequest (UCS_STATUS_PTR UCS_ERR_NO_MEMORY))
  /\ trace (snd (UCPEndpoint_send_with_tag Scripted.an_endpoint 1000 5 7 kCPU
                   (Scripted.start Scripted.out_of_memory)))
     = [Ev_tag_send_nbx 2 1000 1 7 (p2p_params 5 kCPU); Ev_worker_progress 1]
  /\ UCPRequest_is_completed (mkUCPRequest (UCS_STATUS_PTR UCS_ERR_NO_MEMORY))
       (snd (UCPEndpoint_send_with_tag Scripted.an_endpoint 1000 5 7 kCPU
               (Scripted.start Scripted.out_of_memory)))
     = None.
Proof. vm_compute. repeat split. Qed.

(** * Tag matching *)

(** C1, a defect of the code.  [recv_with_tag] hands its tag to the library
    together with the tag mask 0, and under a zero mask the matching rule
    of the library accepts every tag.  In the scenario the receive for tag 7
    is completed by the send that carries tag 9 and receives its bytes; the
    round trip with the same tag on both sides completes as well. *)
Theorem receive_ignores_tag :
  (forall (N : Type) (U : UCX N) (self : UCPWorker) (data size tag : Z)
          (d : DeviceType) (w : World N),
      exists rest,
        trace (snd (UCPWorker_recv_with_tag self data size tag d w))
        = trace w
          ++ Ev_tag_recv_nbx (worker self) data 1 (ucp_tag_of_int tag) 0 (p2p_params size d)
          :: rest)
  /\ (forall tag sent, Ref.ucp_tag_is_match (ucp_tag_of_int sent) (ucp_tag_of_int tag) 0 = true)
  /\ read_bytes (mem Demo.connected) 2000 5
     = [Byte.x00; Byte.x00; Byte.x00; Byte.x00; Byte.x00]
  /\ fst (Demo.exchange 7 9 Demo.connected) = Returns (Some true, Some true, Demo.hello)
  /\ fst (Demo.exchange 7 7 Demo.connected) = Returns (Some true, Some true, Demo.hello).
Proof.
  split; [| split; [| split; [| split]]].
  - intros N U self data size tag d w.
    destruct (submit_p2p_request_trace self size d
                (fun p => native_tag_recv_nbx (worker self) data 1 (ucp_tag_of_int tag) 0 p) w)
      as [rest [Htr _]].
    exists rest. unfold UCPWorker_recv_with_tag. rewrite Htr.
    rewrite trace_native_tag_recv_nbx, <- app_assoc. reflexivity.
  - intros tag sent. unfold Ref.ucp_tag_is_match. rewrite Z.land_0_r. reflexivity.
  - vm_compute. reflexivity.
  - vm_compute. reflexivity.
  - vm_compute. reflexivity.
Qed.

(** * Endpoint teardown *)

Section Drain.
Context {N : Type} `{UCX N}.
Variable self : UCPEndpoint.
Variable request : Z.

Lemma drain_step_unfold (w : World N) :
  drain_step self request w
  = (Returns (negb (drain_status self request 0 w =? UCS_OK)),
     log (Ev_request_check_status request)
       (snd (native_worker_progress (worker (ep_worker self)) w))).
Proof.
  unfold drain_step, bind, UCPWorker_progress. rewrite !lift_returns. reflexivity.
Qed.

Lemma drain_step_world (w : World N) :
  snd (drain_step self request w)
  = log (Ev_request_check_status request)
      (snd (native_worker_progress (worker (ep_worker self)) w)).
Proof. rewrite drain_step_unfold. reflexivity. Qed.

Lemma trace_drain_step (w : World N) :
  trace (snd (drain_step self request w))
  = trace w ++ drain_events self request 1.
Proof.
  rewrite drain_step_unfold. simpl.
  rewrite trace_native_worker_progress, <- app_assoc. reflexivity.
Qed.

Lemma trace_drain_world (n : nat) (w : World N) :
  trace (drain_world self request n w) = trace w ++ drain_events self request n.
Proof.
  revert w. induction n as [| n IH]; intros w.
  - simpl. symmetry. apply app_nil_r.
  - simpl drain_world. rewrite IH, trace_drain_step, <- app_assoc. reflexivity.
Qed.

(** The loop leaves at the first iteration that reads [UCS_OK]. *)
Lemma do_while_drain_exit (k : nat) :
  forall (fuel : nat) (w : World N),
    (forall i, (i < k)%nat -> drain_status self request i w <> UCS_OK) ->
    drain_status self request k w = UCS_OK ->
    (k < fuel)%nat ->
    do_while fuel (drain_step self request) w = Some (Returns tt, drain_world self request (S k) w).
Proof.
  induction k as [| k IH]; intros fuel w Hbefore Hat Hfuel.
  - destruct fuel as [| fuel]; [lia |].
    simpl. rewrite drain_step_unfold. rewrite Hat. reflexivity.
  - destruct fuel as [| fuel]; [lia |].
    simpl do_while. rewrite drain_step_unfold.
    assert (H0 : (drain_status self request 0 w =? UCS_OK) = false)
      by (apply Z.eqb_neq, Hbefore; lia).
    rewrite H0. simpl negb. cbv iota. rewrite <- drain_step_world.
    apply (IH fuel (snd (drain_step self request w))).
    + intros i Hi. apply (Hbefore (S i)). lia.
    + exact Hat.
    + lia.
Qed.

(** The loop is still running after [fuel] iterations that all read a
    status other than [UCS_OK]. *)
Lemma do_while_drain_spin (fuel : nat) :
  forall (w : World N),
    (forall i, (i < fuel)%nat -> drain_status self request i w <> UCS_OK) ->
    do_while fuel (drain_step self request) w = None.
Proof.
  induction fuel as [| fuel IH]; intros w Hnever; [reflexivity |].
  simpl do_while. rewrite drain_step_unfold.
  assert (H0 : (drain_status self request 0 w =? UCS_OK) = false)
    by (apply Z.eqb_neq, Hnever; lia).
  rewrite H0. simpl negb. cbv iota. rewrite <- drain_step_world.
  apply IH. intros i Hi. apply (Hnever (S i)). lia.
Qed.

(** A loop that has left did so because an iteration read [UCS_OK]. *)
Lemma do_while_drain_inv (fuel : nat) :
  forall (w w' : World N) (out : Outcome unit),
    do_while fuel (drain_step self request) w = Some (out, w') ->
    exists k, (k < fuel)%nat /\ drain_status self request k w = UCS_OK /\
              (forall i, (i < k)%nat -> drain_status self request i w <> UCS_OK) /\
              out = Returns tt /\ w' = drain_world self request (S k) w.
Proof.
  induction fuel as [| fuel IH]; intros w w' out Hrun; [discriminate |].
  simpl do_while in Hrun. rewrite drain_step_unfold in Hrun.
  destruct (drain_status self request 0 w =? UCS_OK) eqn:H0; simpl negb in Hrun; cbv iota in Hrun.
  - inversion Hrun; subst. exists 0%nat.
    split; [lia | split; [apply Z.eqb_eq, H0 | split; [intros i Hi; lia | split]]].
    + reflexivity.
    + simpl. rewrite drain_step_world. reflexivity.
  - rewrite <- drain_step_world in Hrun.
    destruct (IH _ _ _ Hrun) as [k [Hk [Hat [Hbefore [Hout Hw']]]]].
    exists (S k). split; [lia | split; [exact Hat | split; [| split; assumption]]].
    intros [| i] Hi; [apply Z.eqb_neq, H0 | apply Hbefore; lia].
Qed.

End Drain.

Section TeardownFacts.
Context {N : Type} `{UCX N}.

Lemma trace_closing_world (self : UCPEndpoint) (w : World N) :
  trace (closing_world self w)
  = trace w ++ [Ev_ep_close_nb (endpoint self) UCP_EP_CLOSE_MODE_FLUSH].
Proof.
  unfold closing_world, native_ep_close_nb.
  destruct (ucp_ep_close_nb _ _ _) as [request n]. reflexivity.
Qed.

Lemma close_and_warn_unfold (self : UCPEndpoint) (w : World N) :
  close_and_warn self w
  = (Returns (close_request self w),
     if UCS_PTR_IS_ERR (close_request self w)
     then log (Ev_warn leak_warning (UCS_PTR_STATUS (close_request self w)))
              (closing_world self w)
     else closing_world self w).
Proof.
  unfold close_and_warn, close_request, closing_world, bind.
  rewrite lift_returns.
  destruct (UCS_PTR_IS_ERR _); [rewrite lift_returns |]; reflexivity.
Qed.

(** The destructor when the close request is an error pointer. *)
Lemma dtor_close_failed (self : UCPEndpoint) (w : World N) (fuel : nat) :
  UCS_PTR_IS_ERR (close_request self w) = true ->
  UCPEndpoint_dtor fuel self w
  = Some (Returns tt,
          log (Ev_warn leak_warning (UCS_PTR_STATUS (close_request self w)))
              (closing_world self w)).
Proof.
  intros Herr. unfold UCPEndpoint_dtor.
  rewrite close_and_warn_unfold, Herr, (is_err_not_ptr _ Herr). reflexivity.
Qed.

(** The destructor when the close request is a request pointer. *)
Lemma dtor_close_pending (self : UCPEndpoint) (w : World N) (fuel : nat) :
  UCS_PTR_IS_PTR (close_request self w) = true ->
  UCPEndpoint_dtor fuel self w
  = match do_while fuel (drain_step self (close_request self w)) (closing_world self w) with
    | Some (Returns _, w2) =>
        Some (Returns tt, snd (native_request_free (close_request self w) w2))
    | Some (Throws what st, w2) => Some (Throws what st, w2)
    | None => None
    end.
Proof.
  intros Hptr. unfold UCPEndpoint_dtor. rewrite close_and_warn_unfold, Hptr.
  destruct (status_ptr_trichotomy (close_request self w)) as [He | [He | He]];
    destruct He as [He1 [He2 _]]; try congruence.
  rewrite He1.
  destruct (do_while _ _ _) as [[[u | what st] w2] |]; reflexivity.
Qed.

End TeardownFacts.


(** C10.  When the close request is a request pointer, a destructor that
    returns has read the status OK in one of its iterations; and if the
    close request is in progress for k0 iterations and reads one and the
    same error status from then on, the loop is still running after any
    number of iterations: the destructor never returns. *)
Theorem endpoint_teardown_needs_ok :
  forall (N : Type) (U : UCX N) (self : UCPEndpoint) (w : World N),
    UCS_PTR_IS_PTR (close_request self w) = true ->
    (forall fuel out w',
        UCPEndpoint_dtor fuel self w = Some (out, w') ->
        exists k, (k < fuel)%nat /\
                  drain_status self (close_request self w) k (closing_world self w) = UCS_OK) /\
    (forall (k0 : nat) (e : ucs_status_t),
        e < 0 ->
        (forall i, (i < k0)%nat ->
                   drain_status self (close_request self w) i (closing_world self w)
                   = UCS_INPROGRESS) ->
        (forall i, (k0 <= i)%nat ->
                   drain_status self (close_request self w) i (closing_world self w) = e) ->
        forall fuel, UCPEndpoint_dtor fuel self w = None).
Proof.
  intros N U self w Hptr. split.
  - intros fuel out w' Hrun. rewrite (dtor_close_pending self w fuel Hptr) in Hrun.
    destruct (do_while fuel _ _) as [[o w2] |] eqn:Hloop; [| discriminate].
    destruct (do_while_drain_inv self _ fuel _ _ _ Hloop) as [k [Hk [Hat _]]].
    exists k. split; assumption.
  - intros k0 e He Hprog Hfail fuel. rewrite (dtor_close_pending self w fuel Hptr).
    rewrite (do_while_drain_spin self _ fuel); [reflexivity |].
    intros i _. destruct (Nat.lt_ge_cases i k0) as [Hlt | Hge].
    + rewrite (Hprog i Hlt). discriminate.
    + rewrite (Hfail i Hge). unfold UCS_OK. lia.
Qed.

(** * The drain loop on the scripted library *)

(** On the scripted library [n] iterations of the drain loop advance the
    clock by [n] and change nothing else of the native state. *)
Lemma scripted_drain_world (self : UCPEndpoint) (request : Z) (n : nat)
    (w : World Scripted.state) :
  native (drain_world self request n w)
  = Scripted.mkState (Scripted.clock (native w) + n) (Scripted.reads (native w))
      (Scripted.inits (native w)) (Scripted.the_script (native w)).
Proof.
  revert w. induction n as [| n IH]; intros w.
  - simpl. rewrite Nat.add_0_r. destruct (native w); reflexivity.
  - change (drain_world self request (S n) w)
      with (drain_world self request n (snd (drain_step self request w))).
    rewrite IH, drain_step_world.
    change (native (log (Ev_request_check_status request)
                      (snd (native_worker_progress (worker (ep_worker self)) w))))
      with (native (snd (native_worker_progress (worker (ep_worker self)) w))).
    rewrite native_native_worker_progress. simpl.
    f_equal. lia.
Qed.

Lemma scripted_drain_status (self : UCPEndpoint) (request : Z) (n : nat)
    (w : World Scripted.state) :
  drain_status self request n w
  = Scripted.sc_status (Scripted.the_script (native w))
      (S (Scripted.clock (native w) + n)).
Proof.
  unfold drain_status. rewrite native_native_worker_progress, scripted_drain_world.
  reflexivity.
Qed.


(** On [slow_close] the destructor returns, and an iteration has read OK;
    on [stuck_close] the close request is in progress for two iterations and
    reads [UCS_ERR_CONNECTION_RESET] from then on, and the destructor is
    still running after any number of iterations. *)
Lemma endpoint_teardown_needs_ok_witness :
  (exists k, (k < 5)%nat /\
     drain_status Scripted.an_endpoint
       (close_request Scripted.an_endpoint (Scripted.start Scripted.slow_close)) k
       (closing_world Scripted.an_endpoint (Scripted.start Scripted.slow_close)) = UCS_OK) /\
  UCS_PTR_IS_PTR (close_request Scripted.an_endpoint (Scripted.start Scripted.stuck_close))
  = true /\
  UCS_ERR_CONNECTION_RESET < 0 /\
  forall fuel,
    UCPEndpoint_dtor fuel Scripted.an_endpoint (Scripted.start Scripted.stuck_close) = None.
Proof.
  split; [| split; [vm_compute; reflexivity | split; [reflexivity |]]].
  - assert (Hrun : exists out w',
               UCPEndpoint_dtor 5 Scripted.an_endpoint (Scripted.start Scripted.slow_close)
               = Some (out, w'))
      by (vm_compute; eexists; eexists; reflexivity).
    destruct Hrun as [out [w' Hrun]].
    exact (proj1 (endpoint_teardown_needs_ok Scripted.state Scripted.ScriptedUCX
                    Scripted.an_endpoint (Scripted.start Scripted.slow_close) eq_refl)
             5%nat out w' Hrun).
  - apply (proj2 (endpoint_teardown_needs_ok Scripted.state Scripted.ScriptedUCX
                    Scripted.an_endpoint (Scripted.start Scripted.stuck_close) eq_refl)
             2%nat UCS_ERR_CONNECTION_RESET).
    + reflexivity.
    + intros i Hi. rewrite scripted_drain_status.
      destruct i as [| [| i]]; [reflexivity | reflexivity | lia].
    + intros i Hi. rewrite scripted_drain_status.
      destruct i as [| [| i]]; [lia | lia | reflexivity].
Defined.

(** * The worker address *)

Section AddressFacts.
Context {N : Type} `{UCX N}.

(** The world after the query: the event, and on success the lent buffer. *)
Lemma native_worker_get_address_parts (worker : Z) (w : World N)
    (st : ucs_status_t) (local_addr : Z) (bytes : list Byte.byte) (n : N) :
  ucp_worker_get_address worker (native w) = (st, local_addr, bytes, n) ->
  fst (native_worker_get_address worker w) = (st, local_addr, List.length bytes) /\
  trace (snd (native_worker_get_address worker w))
  = trace w ++ [Ev_worker_get_address worker] /\
  lent (snd (native_worker_get_address worker w))
  = (if st =? UCS_OK then <[local_addr := bytes]> (lent w) else lent w).
Proof.
  intros Hq. unfold native_worker_get_address. rewrite Hq.
  destruct (st =? UCS_OK); repeat split; reflexivity.
Qed.

(** [address()], by what the query returns. *)
Lemma UCPWorker_address_unfold (self : UCPWorker) (w : World N)
    (st : ucs_status_t) (local_addr : Z) (bytes : list Byte.byte) (n : N) :
  ucp_worker_get_address (worker self) (native w) = (st, local_addr, bytes, n) ->
  UCPWorker_address self w =
    if st =? UCS_OK then
      (Returns bytes,
       snd (native_worker_release_address (worker self) local_addr
              (snd (native_worker_get_address (worker self) w))))
    else (Throws "Failed to get worker address." st,
          snd (native_worker_get_address (worker self) w)).
Proof.
  intros Hq.
  destruct (native_worker_get_address_parts (worker self) w st local_addr bytes n Hq)
    as [Hres [_ Hlent]].
  unfold UCPWorker_address, bind. rewrite lift_returns, Hres.
  unfold TORCH_UCX_CHECK.
  destruct (st =? UCS_OK); [| reflexivity].
  unfold ret, vector_of_range. rewrite Hlent, lookup_insert_eq. simpl default.
  rewrite firstn_all, lift_returns. reflexivity.
Qed.

End AddressFacts.

(** C8, as amended.  [address()] asks the library for the address of the
    worker.  When the query succeeds the call returns exactly the bytes
    the library put in the buffer it lent, as many as the library reported
    and none when it reported none; the bytes are a copy of the program's
    own, taken while the buffer was lent: the last thing the call does is
    release the buffer, which is gone when the call returns, and every other
    lent buffer is as it was.  When the query fails the call throws the
    transport error with the native status, and releases nothing. *)
Theorem address_returns_copy :
  forall (N : Type) (U : UCX N) (self : UCPWorker) (w : World N)
         (st : ucs_status_t) (local_addr : Z) (bytes : list Byte.byte) (n : N),
    ucp_worker_get_address (worker self) (native w) = (st, local_addr, bytes, n) ->
    (st = UCS_OK ->
     exists addr w',
       UCPWorker_address self w = (Returns addr, w') /\
       addr = bytes /\
       trace w' = trace w ++ [Ev_worker_get_address (worker self);
                              Ev_worker_release_address (worker self) local_addr] /\
       lent w' !! local_addr = None /\
       (forall p, p <> local_addr -> lent w' !! p = lent w !! p)) /\
    (st <> UCS_OK ->
     exists w',
       UCPWorker_address self w = (Throws "Failed to get worker address." st, w') /\
       trace w' = trace w ++ [Ev_worker_get_address (worker self)] /\
       lent w' = lent w).
Proof.
  intros N U self w st local_addr bytes n Hq.
  pose proof (UCPWorker_address_unfold self w st local_addr bytes n Hq) as Hcall.
  destruct (native_worker_get_address_parts (worker self) w st local_addr bytes n Hq)
    as [_ [Htr Hlent]].
  split.
  - intros Hok. subst st. simpl in Hcall, Hlent.
    exists bytes. eexists. split; [exact Hcall | split; [reflexivity |]].
    simpl. rewrite Htr, Hlent, <- app_assoc.
    split; [reflexivity | split; [apply lookup_delete_eq |]].
    intros p Hp. rewrite lookup_delete_ne, lookup_insert_ne by congruence. reflexivity.
  - intros Hfail. apply Z.eqb_neq in Hfail. rewrite Hfail in Hcall, Hlent.
    eexists. split; [exact Hcall | split; [exact Htr | exact Hlent]].
Qed.

(** C8, as stated, fails.  On the script [empty_address] the query succeeds
    and reports an address of length zero; [address()] checks the status
    only and returns the empty byte sequence. *)
Lemma address_can_be_empty :
  ucp_worker_get_address 1 (native (Scripted.start empty_address))
  = (UCS_OK, 30, [], native (Scripted.start empty_address))
  /\ fst (UCPWorker_address (mkUCPWorker 1) (Scripted.start empty_address)) = Returns []
  /\ trace (snd (UCPWorker_address (mkUCPWorker 1) (Scripted.start empty_address)))
     = [Ev_worker_get_address 1; Ev_worker_release_address 1 30].
Proof. vm_compute. repeat split. Qed.

(** On the reference transport the worker 4224 of the scenario has the
    eight-byte address of its handle, in the lent buffer 4480; on the script
    [no_address] the query fails with [UCS_ERR_NO_MEMORY] and the call
    throws. *)
Lemma address_returns_copy_witness :
  (ucp_worker_get_address 4224 (native Demo.connected)
   = (UCS_OK, 4480, Ref.address_of 4224, snd (Ref.fresh (native Demo.connected)))
   /\ exists addr w',
        UCPWorker_address Demo.receiver Demo.connected = (Returns addr, w') /\
        addr = Ref.address_of 4224 /\
        trace w' = trace Demo.connected
                   ++ [Ev_worker_get_address 4224; Ev_worker_release_address 4224 4480] /\
        lent w' !! 4480 = None /\
        (forall p, p <> 4480 -> lent w' !! p = lent Demo.connected !! p))
  /\ (UCS_ERR_NO_MEMORY <> UCS_OK
      /\ exists w',
           UCPWorker_address (mkUCPWorker 1) (Scripted.start Scripted.no_address)
           = (Throws "Failed to get worker address." UCS_ERR_NO_MEMORY, w') /\
           trace w' = [Ev_worker_get_address 1] /\
           lent w' = lent (Scripted.start Scripted.no_address)).
Proof.
  assert (Hq : ucp_worker_get_address 4224 (native Demo.connected)
               = (UCS_OK, 4480, Ref.address_of 4224, snd (Ref.fresh (native Demo.connected))))
    by (vm_compute; reflexivity).
  split; (split; [first [exact Hq | discriminate] |]).
  - exact (proj1 (address_returns_copy Ref.state Ref.RefUCX Demo.receiver Demo.connected
                    UCS_OK 4480 (Ref.address_of 4224)
                    (snd (Ref.fresh (native Demo.connected))) Hq) eq_refl).
  - apply (proj2 (address_returns_copy Scripted.state Scripted.ScriptedUCX (mkUCPWorker 1)
                    (Scripted.start Scripted.no_address)
                    UCS_ERR_NO_MEMORY 0 [] (native (Scripted.start Scripted.no_address))
                    eq_refl)).
    discriminate.
Defined.

(** * One context per process *)

Section ProcessFacts.
Context {N : Type} `{UCX N}.

Lemma native_config_read_parts (prefix : string) (w : World N) :
  fst (fst (native_config_read prefix w)) = fst (fst (ucp_config_read prefix (native w)))
  /\ context_wrapper (snd (native_config_read prefix w)) = context_wrapper w.
Proof.
  unfold native_config_read.
  destruct (ucp_config_read prefix (native w)) as [[st config] n]. split; reflexivity.
Qed.

Lemma native_init_parts (params : ucp_params_t) (config : Z) (w : World N) :
  fst (fst (native_init params config w))
  = fst (fst (ucp_init params config (native w)))
  /\ context_wrapper (snd (native_init params config w)) = context_wrapper w.
Proof.
  unfold native_init.
  destruct (ucp_init params config (native w)) as [[st ctx] n]. split; reflexivity.
Qed.

Lemma has_returned_boot (calls : list nat) (c : Z) :
  ~ has_returned (map (fun n => mkThread n []) calls) c.
Proof.
  intros [i [t [Hi Hin]]]. rewrite list_lookup_fmap in Hi.
  destruct (calls !! i); simpl in Hi; [| discriminate].
  inversion Hi; subst. exact Hin.
Qed.

(** A call that ends adds its own result and no other. *)
Lemma has_returned_finish (tid : nat) (t : thread) (out : Outcome Z)
    (ts : list thread) (c : Z) :
  ts !! tid = Some t ->
  has_returned (<[tid := mkThread (pred (calls_left t)) (results t ++ [out])]> ts) c ->
  has_returned ts c \/ out = Returns c.
Proof.
  intros Ht [i [t' [Hi Hin]]].
  apply list_lookup_insert_Some in Hi.
  destruct Hi as [[Heq [Ht' _]] | [Hne Hi]].
  - subst i t'. simpl in Hin. apply in_app_or in Hin.
    destruct Hin as [Hin | [Hin | []]].
    + left. exists tid, t. split; assumption.
    + right. exact Hin.
  - left. exists i, t'. split; assumption.
Qed.

Lemma invariant_boot (w0 : World N) (calls : list nat) :
  context_wrapper w0 = None -> trace w0 = [] ->
  process_invariant (boot w0 calls).
Proof.
  intros Hctx Htr. split.
  - unfold construction_stage. simpl. rewrite Hctx. exact Htr.
  - intros c Hc. exfalso. exact (has_returned_boot calls c Hc).
Qed.

(** The invariant is kept by every step of every thread. *)
Lemma invariant_step (tid : nat) (s : process N) :
  valid_configuration N ->
  process_invariant s -> process_invariant (step tid s).
Proof.
  intros [Hread Hinit] [Hstage Hret]. unfold step.
  destruct (threads s !! tid) as [t |] eqn:Ht; [| split; assumption].
  unfold construction_stage in Hstage.
  destruct (busy s) as [[owner pc] |] eqn:Hbusy.
  - destruct (Nat.eqb owner tid); [| split; [unfold construction_stage; rewrite Hbusy |]; assumption].
    destruct (context_wrapper (world s)) as [wrapper |] eqn:Hctx; [destruct pc; contradiction |].
    unfold ctor_step. destruct pc as [| config | config st c].
    + pose proof (native_config_read_parts "TORCH" (world s)) as [Hst Hkeep].
      pose proof (trace_native_config_read "TORCH" (world s)) as Htr.
      destruct (native_config_read "TORCH" (world s)) as [[st config] w1].
      simpl in Hst, Hkeep, Htr. rewrite Hread in Hst. subst st. simpl.
      split.
      * unfold construction_stage. simpl. rewrite Hkeep, Hctx, Htr, Hstage. reflexivity.
      * simpl. intros c Hc. discriminate (Hret c Hc).
    + pose proof (native_init_parts UCPContext_params config (world s)) as [Hst Hkeep].
      pose proof (trace_native_init UCPContext_params config (world s)) as Htr.
      destruct (native_init UCPContext_params config (world s)) as [[st c] w1].
      simpl in Hst, Hkeep, Htr. rewrite Hinit in Hst. subst st.
      split.
      * unfold construction_stage. simpl. rewrite Hkeep, Hctx, Htr, Hstage.
        split; reflexivity.
      * simpl. intros c' Hc. discriminate (Hret c' Hc).
    + destruct Hstage as [Hst Htr]. subst st. simpl.
      split.
      * unfold construction_stage. simpl. exists config. rewrite Htr. reflexivity.
      * simpl. intros c' Hc.
        destruct (has_returned_finish tid t _ _ c' Ht Hc) as [Hold | Hnew].
        -- discriminate (Hret c' Hold).
        -- inversion Hnew; subst. reflexivity.
  - destruct (calls_left t) as [| k]; [split; [unfold construction_stage; rewrite Hbusy |]; assumption |].
    destruct (context_wrapper (world s)) as [wrapper |] eqn:Hctx.
    + split.
      * unfold construction_stage. simpl. rewrite Hctx. exact Hstage.
      * simpl. intros c Hc. rewrite Hctx.
        destruct (has_returned_finish tid t _ _ c Ht Hc) as [Hold | Hnew].
        -- apply Hret, Hold.
        -- inversion Hnew; subst. destruct wrapper; reflexivity.
    + split.
      * unfold construction_stage. simpl. rewrite Hctx. exact Hstage.
      * simpl. rewrite Hctx. exact Hret.
Qed.

Lemma invariant_run (schedule : list nat) (s : process N) :
  valid_configuration N ->
  process_invariant s -> process_invariant (run schedule s).
Proof.
  intros Hvalid. unfold run. revert s.
  induction schedule as [| tid schedule IH]; intros s Hs; simpl; [exact Hs |].
  apply IH, invariant_step; assumption.
Qed.

End ProcessFacts.

Section SingleContext.
Context {N : Type} `{UCX N}.
Hypothesis Hvalid : valid_configuration N.

Lemma begun_step (tid : nat) (s : process N) :
  process_invariant s -> begun s -> begun (step tid s).
Proof.
  intros [Hstage _] Hbegun. unfold step.
  destruct (threads s !! tid) as [t |]; [| exact Hbegun].
  unfold construction_stage in Hstage.
  destruct (busy s) as [[owner pc] |] eqn:Hbusy.
  - destruct (Nat.eqb owner tid); [| left; rewrite Hbusy; discriminate].
    destruct (context_wrapper (world s)) as [wrapper |]; [destruct pc; contradiction |].
    unfold ctor_step. destruct pc as [| config | config st c].
    + pose proof (native_config_read_parts "TORCH" (world s)) as [Hst _].
      destruct (native_config_read "TORCH" (world s)) as [[st config] w1].
      simpl in Hst. rewrite (proj1 Hvalid) in Hst. subst st. left. discriminate.
    + destruct (native_init UCPContext_params config (world s)) as [[st c] w1].
      left. discriminate.
    + destruct Hstage as [-> _]. right. discriminate.
  - destruct Hbegun as [Hb | Hc]; [rewrite Hbusy in Hb; contradiction |].
    destruct (calls_left t); [right; exact Hc |].
    destruct (context_wrapper (world s)) as [wrapper |] eqn:Hctx;
      [| exfalso; apply Hc; reflexivity].
    right. simpl. rewrite Hctx. discriminate.
Qed.

Lemma begun_run (schedule : list nat) (s : process N) :
  process_invariant s -> begun s -> begun (run schedule s).
Proof.
  unfold run. revert s.
  induction schedule as [| tid schedule IH]; intros s Hinv Hb; simpl; [exact Hb |].
  apply IH; [apply invariant_step | apply begun_step]; assumption.
Qed.

(** A step in a process that has not begun the construction either begins
    it or changes nothing; it begins it when the thread has a call to make. *)
Lemma step_not_begun (tid : nat) (s : process N) :
  ~ begun s ->
  (step tid s = s /\ forall t, threads s !! tid = Some t -> calls_left t = O) \/
  begun (step tid s).
Proof.
  intros Hnot. unfold step.
  destruct (threads s !! tid) as [t |] eqn:Ht; [| left; split; [reflexivity | discriminate]].
  destruct (busy s) as [[owner pc] |] eqn:Hbusy.
  - exfalso. apply Hnot. left. rewrite Hbusy. discriminate.
  - destruct (calls_left t) as [| k] eqn:Hcalls.
    + left. split; [reflexivity |]. intros t' Ht'. inversion Ht'; subst. exact Hcalls.
    + destruct (context_wrapper (world s)) as [wrapper |] eqn:Hctx.
      * exfalso. apply Hnot. right. rewrite Hctx. discriminate.
      * right. left. discriminate.
Qed.

Lemma begun_dec (s : process N) : begun s \/ ~ begun s.
Proof.
  unfold begun.
  destruct (busy s); [left; left; discriminate |].
  destruct (context_wrapper (world s)); [left; right; discriminate |].
  right. intros [Hb | Hc]; contradiction.
Qed.

(** The first scheduled thread that has a call to make begins the
    construction, and from then on it stays begun. *)
Lemma run_begins (schedule : list nat) :
  forall (s : process N),
    process_invariant s ->
    (exists tid t, In tid schedule /\ threads s !! tid = Some t /\ calls_left t <> O) ->
    begun (run schedule s).
Proof.
  induction schedule as [| a schedule IH]; intros s Hinv [tid [t [Hin [Ht Hcalls]]]];
    [destruct Hin |].
  change (run (a :: schedule) s) with (run schedule (step a s)).
  destruct (begun_dec s) as [Hb | Hnb].
  - apply begun_run; [apply invariant_step | apply begun_step]; assumption.
  - destruct (step_not_begun a s Hnb) as [[Hsame Hidle] | Hb].
    + rewrite Hsame. apply IH; [exact Hinv |].
      exists tid, t. split; [| split; assumption].
      destruct Hin as [-> | Hin]; [| exact Hin].
      exfalso. apply Hcalls, (Hidle t Ht).
    + apply begun_run; [apply invariant_step |]; assumption.
Qed.

(** The first call constructs the context. *)
Lemma getUCPContext_first (w : World N) :
  context_wrapper w = None ->
  exists c config w1,
    getUCPContext w = (Returns c, w1) /\
    context_wrapper w1 = Some (mkUCPContext c) /\
    trace w1 = trace w ++ [Ev_config_read "TORCH"; Ev_init UCPContext_params UCS_OK c;
                           Ev_config_release config].
Proof.
  intros Hctx. unfold getUCPContext. rewrite Hctx.
  pose proof (UCPContext_ctor_unfold w) as Hc. cbv zeta in Hc. rewrite Hc. clear Hc.
  pose proof (native_config_read_parts "TORCH" w) as [Hst1 _].
  rewrite (proj1 Hvalid) in Hst1. rewrite Hst1.
  pose proof (native_init_parts UCPContext_params
                (snd (fst (native_config_read "TORCH" w)))
                (snd (native_config_read "TORCH" w))) as [Hst2 _].
  rewrite (proj2 Hvalid) in Hst2. rewrite Hst2. simpl.
  eexists. eexists. eexists. split; [reflexivity | split; [reflexivity |]].
  simpl. rewrite trace_native_init, trace_native_config_read, Hst2, <- !app_assoc.
  reflexivity.
Qed.

(** Every later call returns it and calls nothing. *)
Lemma sequential_constructed (n : nat) (w : World N) (wrapper : UCPContext) :
  context_wrapper w = Some wrapper ->
  sequential n w = (repeat (Returns (context wrapper)) n, w).
Proof.
  intros Hctx. induction n as [| n IH]; [reflexivity |].
  simpl. unfold getUCPContext at 1. rewrite Hctx, IH. reflexivity.
Qed.

End SingleContext.

(** The process machine run by one thread that makes one call does what
    [getUCPContext] does, whatever the library answers. *)
Lemma one_thread_one_call {N : Type} `{UCX N} (w : World N) :
  world (run [0; 0; 0; 0]%nat (boot w [1%nat])) = snd (getUCPContext w) /\
  threads (run [0; 0; 0; 0]%nat (boot w [1%nat])) = [mkThread 0 [fst (getUCPContext w)]] /\
  busy (run [0; 0; 0; 0]%nat (boot w [1%nat])) = None.
Proof.
  unfold getUCPContext.
  pose proof (UCPContext_ctor_unfold w) as Hc. cbv zeta in Hc.
  change (run [0; 0; 0; 0]%nat (boot w [1%nat]))
    with (step 0 (step 0 (step 0 (step 0 (boot w [1%nat]))))).
  destruct (context_wrapper w) as [wrapper |] eqn:Hctx.
  - assert (H1 : step 0 (boot w [1%nat])
                 = mkProcess w None [mkThread 0 [Returns (UCPContext_get wrapper)]]).
    { unfold step, boot. simpl. rewrite Hctx. reflexivity. }
    rewrite H1. unfold step. simpl. repeat split; reflexivity.
  - assert (H1 : step 0 (boot w [1%nat])
                 = mkProcess w (Some (0%nat, AtConfigRead)) [mkThread 1 []]).
    { unfold step, boot. simpl. rewrite Hctx. reflexivity. }
    rewrite H1, Hc. clear H1 Hc.
    destruct (native_config_read "TORCH" w) as [[st1 config] w1] eqn:E1. simpl.
    assert (H2 : step 0 (mkProcess w (Some (0%nat, AtConfigRead)) [mkThread 1 []])
                 = if st1 =? UCS_OK
                   then mkProcess w1 (Some (0%nat, AtInit config)) [mkThread 1 []]
                   else mkProcess w1 None
                          [mkThread 0 [Throws "Failed to read UCP config." st1]]).
    { unfold step. simpl. rewrite E1. destruct (st1 =? UCS_OK); reflexivity. }
    rewrite H2. clear H2.
    destruct (st1 =? UCS_OK).
    + destruct (native_init UCPContext_params config w1) as [[st2 c] w2] eqn:E2. simpl.
      assert (H3 : step 0 (mkProcess w1 (Some (0%nat, AtInit config)) [mkThread 1 []])
                   = mkProcess w2 (Some (0%nat, AtConfigRelease config st2 c))
                       [mkThread 1 []]).
      { unfold step. simpl. rewrite E2. reflexivity. }
      rewrite H3. clear H3.
      unfold step. simpl.
      destruct (st2 =? UCS_OK); simpl; repeat split; reflexivity.
    + unfold step. simpl. repeat split; reflexivity.
Qed.

Section AnyConfiguration.
Context {N : Type} `{UCX N}.

Lemma count_events_snoc (P : Event -> bool) (tr : list Event) (e : Event) :
  count_events P (tr ++ [e]) = (count_events P tr + if P e then 1 else 0)%nat.
Proof.
  unfold count_events. rewrite List.filter_app, List.length_app. simpl.
  destruct (P e); reflexivity.
Qed.

Lemma native_config_release_parts (config : Z) (w : World N) :
  trace (snd (native_config_release config w)) = trace w ++ [Ev_config_release config]
  /\ context_wrapper (snd (native_config_release config w)) = context_wrapper w.
Proof. split; reflexivity. Qed.

Lemma invariant_any_boot (w0 : World N) (calls : list nat) :
  context_wrapper w0 = None -> trace w0 = [] ->
  process_invariant_any (boot w0 calls).
Proof.
  intros Hctx Htr. split.
  - unfold construction_count. simpl. rewrite Hctx, Htr. split; reflexivity.
  - intros c Hc. exfalso. exact (has_returned_boot calls c Hc).
Qed.

(** The count is kept by every step of every thread, whatever the library
    answers. *)
Lemma invariant_any_step (tid : nat) (s : process N) :
  process_invariant_any s -> process_invariant_any (step tid s).
Proof.
  intros [[Hclean Hcount] Hret]. unfold step.
  destruct (threads s !! tid) as [t |] eqn:Ht; [| split; [split |]; assumption].
  destruct (busy s) as [[owner pc] |] eqn:Hbusy.
  - destruct (Nat.eqb owner tid);
      [| split; [split; [| unfold construction_count; rewrite Hbusy] |]; assumption].
    destruct (context_wrapper (world s)) as [wrapper |] eqn:Hctx;
      [destruct pc; contradiction |].
    unfold ctor_step. destruct pc as [| config | config st c].
    + pose proof (native_config_read_parts "TORCH" (world s)) as [_ Hkeep].
      pose proof (trace_native_config_read "TORCH" (world s)) as Htr.
      destruct (native_config_read "TORCH" (world s)) as [[st config] w1].
      simpl in Hkeep, Htr.
      assert (Hclean1 : count_events is_cleanup (trace w1) = 0%nat)
        by (rewrite Htr, count_events_snoc, Hclean; reflexivity).
      assert (Hcount1 : count_events is_ok_init (trace w1) = 0%nat)
        by (rewrite Htr, count_events_snoc, Hcount; reflexivity).
      destruct (st =? UCS_OK).
      * split; [split; [exact Hclean1 |] |].
        -- simpl. rewrite Hkeep, Hctx. exact Hcount1.
        -- simpl. intros c Hc. discriminate (Hret c Hc).
      * split; [split; [exact Hclean1 |] |].
        -- simpl. rewrite Hkeep, Hctx. exact Hcount1.
        -- simpl. intros c Hc.
           destruct (has_returned_finish tid t _ _ c Ht Hc) as [Hold | Hnew];
             [discriminate (Hret c Hold) | discriminate Hnew].
    + pose proof (native_init_parts UCPContext_params config (world s)) as [_ Hkeep].
      pose proof (trace_native_init UCPContext_params config (world s)) as Htr.
      destruct (native_init UCPContext_params config (world s)) as [[st c] w1].
      simpl in Hkeep, Htr.
      split; [split |].
      * simpl. rewrite Htr, count_events_snoc, Hclean. reflexivity.
      * simpl. rewrite Hkeep, Hctx, Htr, count_events_snoc, Hcount. simpl.
        destruct (st =? UCS_OK) eqn:Hst; [| reflexivity].
        split; [reflexivity |]. apply Z.eqb_eq in Hst. subst st.
        apply in_or_app. right. left. reflexivity.
      * simpl. intros c' Hc. discriminate (Hret c' Hc).
    + pose proof (native_config_release_parts config (world s)) as [Htr Hkeep].
      destruct (st =? UCS_OK) eqn:Hst.
      * destruct Hcount as [Hone Hin].
        split; [split |].
        -- simpl. rewrite count_events_snoc, Hclean. reflexivity.
        -- simpl. rewrite count_events_snoc, Hone. split; [reflexivity |].
           apply in_or_app. left. exact Hin.
        -- simpl. intros c' Hc.
           destruct (has_returned_finish tid t _ _ c' Ht Hc) as [Hold | Hnew];
             [discriminate (Hret c' Hold) |].
           inversion Hnew; subst. reflexivity.
      * split; [split |].
        -- simpl. rewrite count_events_snoc, Hclean. reflexivity.
        -- simpl. rewrite Hctx, count_events_snoc, Hcount. reflexivity.
        -- simpl. rewrite Hctx. intros c' Hc.
           destruct (has_returned_finish tid t _ _ c' Ht Hc) as [Hold | Hnew];
             [discriminate (Hret c' Hold) | discriminate Hnew].
  - destruct (calls_left t) as [| k];
      [split; [split; [| unfold construction_count; rewrite Hbusy] |]; assumption |].
    destruct (context_wrapper (world s)) as [wrapper |] eqn:Hctx.
    + split; [split; [exact Hclean |] |].
      * simpl. rewrite Hctx. exact Hcount.
      * simpl. intros c Hc. rewrite Hctx.
        destruct (has_returned_finish tid t _ _ c Ht Hc) as [Hold | Hnew].
        -- apply Hret, Hold.
        -- inversion Hnew; subst. destruct wrapper; reflexivity.
    + split; [split; [exact Hclean |] |].
      * simpl. rewrite Hctx. exact Hcount.
      * simpl. rewrite Hctx. exact Hret.
Qed.

Lemma invariant_any_run (schedule : list nat) (s : process N) :
  process_invariant_any s -> process_invariant_any (run schedule s).
Proof.
  unfold run. revert s.
  induction schedule as [| tid schedule IH]; intros s Hs; simpl; [exact Hs |].
  apply IH, invariant_any_step; assumption.
Qed.

(** Whatever the library answers. *)
Lemma at_most_one_context_holds (w0 : World N) (calls schedule : list nat) :
  context_wrapper w0 = None ->
  trace w0 = [] ->
  at_most_one_context w0 calls schedule.
Proof.
  intros Hctx Htr. unfold at_most_one_context. cbv zeta.
  pose proof (invariant_any_run schedule (boot w0 calls) (invariant_any_boot w0 calls Hctx Htr))
    as [[Hclean Hcount] Hret].
  set (s := run schedule (boot w0 calls)) in *.
  assert (Hreturned : forall c, has_returned (threads s) c ->
             count_events is_ok_init (trace (world s)) = 1%nat /\
             In (Ev_init UCPContext_params UCS_OK c) (trace (world s)) /\
             context_wrapper (world s) = Some (mkUCPContext c)).
  { intros c Hc. specialize (Hret c Hc). rewrite Hret in Hcount.
    destruct (busy s) as [[owner pc] |]; [destruct pc; contradiction |].
    destruct Hcount as [Hone Hin]. split; [exact Hone | split; [exact Hin | exact Hret]]. }
  split; [| split; [exact Hreturned |]].
  - destruct (busy s) as [[owner pc] |]; destruct (context_wrapper (world s)) as [wrapper |].
    + destruct pc; contradiction.
    + destruct pc as [| config | config st c]; try (rewrite Hcount; lia).
      destruct (st =? UCS_OK); [destruct Hcount as [Hone _]; rewrite Hone | rewrite Hcount]; lia.
    + destruct Hcount as [Hone _]. rewrite Hone. lia.
    + rewrite Hcount. lia.
  - intros Hbusy. rewrite Hbusy in Hcount. unfold process_exit.
    destruct (context_wrapper (world s)) as [[c] |] eqn:Hctxs.
    + destruct Hcount as [Hone Hin].
      split; [| split].
      * simpl. rewrite count_events_snoc, Hclean, Hone. reflexivity.
      * intros c' Hc. destruct (Hreturned c' Hc) as [_ [_ Hsome]].
        inversion Hsome; subst. simpl. apply in_or_app. right. left. reflexivity.
      * reflexivity.
    + split; [rewrite Hclean, Hcount; reflexivity | split].
      * intros c' Hc. destruct (Hreturned c' Hc) as [_ [_ Hsome]]. discriminate Hsome.
      * rewrite Hctxs. reflexivity.
Qed.

End AnyConfiguration.

(** * Concurrent callers under a valid configuration *)

Section Served.
Context {N : Type} `{UCX N}.
Hypothesis Hvalid : valid_configuration N.

Lemma calls_to_make_insert (ts : list thread) (tid : nat) (t t' : thread) :
  ts !! tid = Some t ->
  (calls_to_make (<[tid := t']> ts) + calls_left t
   = calls_to_make ts + calls_left t')%nat.
Proof.
  revert tid. induction ts as [| a ts IH]; intros tid Ht; [discriminate |].
  destruct tid as [| tid]; simpl in *.
  - inversion Ht; subst. lia.
  - specialize (IH tid Ht). unfold calls_to_make in *. lia.
Qed.

Lemma calls_to_make_pos (ts : list thread) (tid : nat) (t : thread) :
  ts !! tid = Some t -> (calls_left t <= calls_to_make ts)%nat.
Proof.
  revert tid. induction ts as [| a ts IH]; intros tid Ht; [discriminate |].
  destruct tid as [| tid]; simpl in *.
  - inversion Ht; subst. lia.
  - specialize (IH tid Ht). unfold calls_to_make in *. lia.
Qed.

Lemma calls_to_make_boot (calls : list nat) :
  calls_to_make (map (fun n => mkThread n []) calls) = list_sum calls.
Proof. induction calls as [| a calls IH]; simpl; [reflexivity | rewrite IH; reflexivity]. Qed.

Lemma results_invariant_boot (w0 : World N) (calls : list nat) :
  context_wrapper w0 = None ->
  results_invariant calls (boot w0 calls).
Proof.
  intros Hctx. split; [| split].
  - simpl. apply length_map.
  - intros tid t Ht. simpl in Ht. rewrite list_lookup_fmap in Ht.
    destruct (calls !! tid) as [k |] eqn:Hk; [| discriminate].
    simpl in Ht. inversion Ht; subst. exists k. simpl. rewrite Hctx.
    split; [reflexivity | split; [lia | split; reflexivity]].
  - intros owner pc Hb. discriminate Hb.
Qed.

(** What a step does to the threads, in the cases where a call ends. *)
Lemma results_invariant_finish (calls : list nat) (s : process N) (tid : nat) (t : thread)
    (c : Z) (w : World N) :
  results_invariant calls s ->
  threads s !! tid = Some t ->
  calls_left t <> O ->
  context_wrapper w = Some (mkUCPContext c) ->
  (context_wrapper (world s) = None \/ context_wrapper (world s) = Some (mkUCPContext c)) ->
  results_invariant calls (finish tid t (Returns c) w (threads s)).
Proof.
  intros [Hlen [Hres Hown]] Ht Hcalls Hw Hbefore.
  split; [| split].
  - simpl. rewrite length_insert. exact Hlen.
  - intros i ti Hi. simpl in Hi. simpl world. rewrite Hw. simpl context.
    apply list_lookup_insert_Some in Hi.
    destruct Hi as [[Heq [Hti _]] | [Hne Hi]].
    + subst i ti. simpl. destruct (Hres tid t Ht) as [k [Hk [Hle Hr]]].
      exists k. split; [exact Hk | split; [lia |]].
      destruct Hbefore as [Hb | Hb]; rewrite Hb in Hr.
      * destruct Hr as [Hcl Hr]. rewrite Hr. simpl.
        replace (k - pred (calls_left t))%nat with 1%nat by lia. reflexivity.
      * simpl in Hr. rewrite Hr.
        replace (k - pred (calls_left t))%nat with (S (k - calls_left t)) by lia.
        simpl. symmetry. apply repeat_cons.
    + destruct (Hres i ti Hi) as [k [Hk [Hle Hr]]].
      exists k. split; [exact Hk | split; [exact Hle |]].
      destruct Hbefore as [Hb | Hb]; rewrite Hb in Hr.
      * destruct Hr as [Hcl Hr]. rewrite Hr, Hcl.
        replace (k - k)%nat with O by lia. reflexivity.
      * exact Hr.
  - intros owner pc Hb. discriminate Hb.
Qed.

Lemma results_invariant_step (calls : list nat) (tid : nat) (s : process N) :
  process_invariant s ->
  results_invariant calls s -> results_invariant calls (step tid s).
Proof.
  intros [Hstage Hret] HJ. pose proof HJ as [Hlen [Hres Hown]]. unfold step.
  destruct (threads s !! tid) as [t |] eqn:Ht; [| exact HJ].
  unfold construction_stage in Hstage.
  destruct (busy s) as [[owner pc] |] eqn:Hbusy.
  - destruct (Nat.eqb owner tid) eqn:Heq; [| exact HJ].
    apply Nat.eqb_eq in Heq. subst owner.
    destruct (Hown tid pc eq_refl) as [t' [Ht' Hcalls]].
    rewrite Ht in Ht'. inversion Ht'; subst t'. clear Ht'.
    destruct (context_wrapper (world s)) as [wrapper |] eqn:Hctx;
      [destruct pc; contradiction |].
    unfold ctor_step. destruct pc as [| config | config st c].
    + pose proof (native_config_read_parts "TORCH" (world s)) as [Hst Hkeep].
      destruct (native_config_read "TORCH" (world s)) as [[st config] w1].
      simpl in Hst, Hkeep. rewrite (proj1 Hvalid) in Hst. subst st. simpl.
      split; [exact Hlen | split].
      * intros i ti Hi. simpl in Hi. simpl world. rewrite Hkeep, Hctx.
        destruct (Hres i ti Hi) as [k Hk]. exists k. exact Hk.
      * intros owner pc Hb. inversion Hb; subst. exists t. split; assumption.
    + pose proof (native_init_parts UCPContext_params config (world s)) as [Hst Hkeep].
      destruct (native_init UCPContext_params config (world s)) as [[st c] w1].
      simpl in Hst, Hkeep.
      split; [exact Hlen | split].
      * intros i ti Hi. simpl in Hi. simpl world. rewrite Hkeep, Hctx.
        destruct (Hres i ti Hi) as [k Hk]. exists k. exact Hk.
      * intros owner pc Hb. inversion Hb; subst. exists t. split; assumption.
    + destruct Hstage as [Hst Htr]. subst st. simpl.
      apply results_invariant_finish; try assumption.
      * reflexivity.
      * left. exact Hctx.
  - destruct (calls_left t) as [| m] eqn:Hcalls; [exact HJ |].
    destruct (context_wrapper (world s)) as [[c] |] eqn:Hctx.
    + simpl. apply results_invariant_finish; try assumption.
      * rewrite Hcalls. discriminate.
      * right. exact Hctx.
    + split; [exact Hlen | split].
      * intros i ti Hi. simpl in Hi. simpl world. rewrite Hctx.
        destruct (Hres i ti Hi) as [k Hk]. exists k. exact Hk.
      * intros owner pc Hb. inversion Hb; subst. exists t.
        split; [exact Ht | rewrite Hcalls; discriminate].
Qed.

Lemma results_invariant_run (calls schedule : list nat) (s : process N) :
  process_invariant s ->
  results_invariant calls s -> results_invariant calls (run schedule s).
Proof.
  unfold run. revert s.
  induction schedule as [| tid schedule IH]; intros s Hinv HJ; simpl; [exact HJ |].
  apply IH; [apply invariant_step | apply results_invariant_step]; assumption.
Qed.

(** A step of a thread that is not enabled changes nothing; a step of one
    that is enabled brings the process nearer to its end. *)
Lemma step_progress (calls : list nat) (tid : nat) (s : process N) :
  process_invariant s ->
  results_invariant calls s ->
  (step tid s = s /\ ~ enabled tid s) \/ (togo (step tid s) < togo s)%nat.
Proof.
  intros [Hstage Hret] [Hlen [Hres Hown]]. unfold step, enabled.
  destruct (threads s !! tid) as [t |] eqn:Ht.
  2:{ left. split; [reflexivity |].
      intros [[pc Hb] | [_ [t [Ht' _]]]]; [| discriminate].
      destruct (Hown tid pc Hb) as [t [Ht' _]]. rewrite Ht in Ht'. discriminate. }
  unfold construction_stage in Hstage.
  destruct (busy s) as [[owner pc] |] eqn:Hbusy.
  - destruct (Nat.eqb owner tid) eqn:Heq.
    2:{ left. split; [reflexivity |]. apply Nat.eqb_neq in Heq.
        intros [[pc' Hb] | [Hb _]]; [inversion Hb; subst; contradiction | discriminate]. }
    apply Nat.eqb_eq in Heq. subst owner. right.
    destruct (Hown tid pc eq_refl) as [t' [Ht' Hcalls]].
    rewrite Ht in Ht'. inversion Ht'; subst t'. clear Ht'.
    pose proof (calls_to_make_pos (threads s) tid t Ht) as Hpos.
    destruct (context_wrapper (world s)) as [wrapper |] eqn:Hctx;
      [destruct pc; contradiction |].
    unfold ctor_step, togo. rewrite Hbusy. destruct pc as [| config | config st c].
    + pose proof (native_config_read_parts "TORCH" (world s)) as [Hst _].
      destruct (native_config_read "TORCH" (world s)) as [[st config] w1].
      simpl in Hst. rewrite (proj1 Hvalid) in Hst. subst st. simpl. lia.
    + destruct (native_init UCPContext_params config (world s)) as [[st c] w1].
      simpl. lia.
    + destruct Hstage as [Hst _]. subst st. simpl.
      pose proof (calls_to_make_insert (threads s) tid t
                    (mkThread (pred (calls_left t)) (results t ++ [Returns c])) Ht) as Hsum.
      simpl in Hsum. lia.
  - destruct (calls_left t) as [| m] eqn:Hcalls.
    { left. split; [reflexivity |].
      intros [[pc Hb] | [_ [t' [Ht' Hc]]]]; [discriminate |].
      inversion Ht'; subst. contradiction. }
    right. pose proof (calls_to_make_pos (threads s) tid t Ht) as Hpos.
    unfold togo. rewrite Hbusy.
    destruct (context_wrapper (world s)) as [wrapper |] eqn:Hctx.
    + pose proof (calls_to_make_insert (threads s) tid t
                    (mkThread (pred (calls_left t))
                       (results t ++ [Returns (UCPContext_get wrapper)])) Ht) as Hsum.
      simpl in *. rewrite Hcalls in *. simpl in *. lia.
    + simpl. lia.
Qed.

(** The steps of a list of threads never take the process further from
    its end, and bring it nearer if one of the threads is enabled. *)
Lemma run_progress (calls : list nat) (L : list nat) :
  forall s : process N,
    process_invariant s ->
    results_invariant calls s ->
    (togo (run L s) <= togo s)%nat /\
    ((exists tid, In tid L /\ enabled tid s) -> (togo (run L s) < togo s)%nat).
Proof.
  induction L as [| a L IH]; intros s Hinv HJ.
  - split; [reflexivity | intros [tid [[] _]]].
  - change (run (a :: L) s) with (run L (step a s)).
    destruct (step_progress calls a s Hinv HJ) as [[Hsame Hnot] | Hless].
    + rewrite Hsame. destruct (IH s Hinv HJ) as [Hle Hlt]. split; [exact Hle |].
      intros [tid [[-> | Hin] Hen]]; [contradiction |].
      apply Hlt. exists tid. split; assumption.
    + destruct (IH (step a s) (invariant_step a s Hvalid Hinv)
                  (results_invariant_step calls a s Hinv HJ)) as [Hle _].
      split; [lia | intros _; lia].
Qed.

Lemma all_done_step (tid : nat) (s : process N) : all_done s -> step tid s = s.
Proof.
  intros [Hb Hts]. unfold step.
  destruct (threads s !! tid) as [t |] eqn:Ht; [| reflexivity].
  rewrite Hb, (Hts tid t Ht). reflexivity.
Qed.

Lemma all_done_run (L : list nat) (s : process N) : all_done s -> run L s = s.
Proof.
  intros Hdone. induction L as [| a L IH]; [reflexivity |].
  change (run (a :: L) s) with (run L (step a s)).
  rewrite (all_done_step a s Hdone). exact IH.
Qed.

Lemma idle_or_caller (ts : list thread) :
  (forall tid t, ts !! tid = Some t -> calls_left t = O) \/
  (exists tid t, ts !! tid = Some t /\ calls_left t <> O).
Proof.
  induction ts as [| a ts [IH | [tid [t [Ht Hc]]]]].
  - left. intros tid t Ht. discriminate.
  - destruct (calls_left a) as [| m] eqn:Ha.
    + left. intros [| tid] t Ht; simpl in Ht; [inversion Ht; subst; exact Ha |].
      exact (IH tid t Ht).
    + right. exists 0%nat, a. split; [reflexivity | rewrite Ha; discriminate].
  - right. exists (S tid), t. split; assumption.
Qed.

(** A process that is not at its end has an enabled thread. *)
Lemma done_or_enabled (calls : list nat) (s : process N) :
  results_invariant calls s ->
  all_done s \/ exists tid, (tid < List.length calls)%nat /\ enabled tid s.
Proof.
  intros [Hlen [_ Hown]].
  destruct (busy s) as [[owner pc] |] eqn:Hbusy.
  - right. destruct (Hown owner pc eq_refl) as [t [Ht _]].
    exists owner. split; [rewrite <- Hlen; exact (lookup_lt_Some _ _ _ Ht) |].
    left. exists pc. exact Hbusy.
  - destruct (idle_or_caller (threads s)) as [Hidle | [tid [t [Ht Hc]]]].
    + left. split; assumption.
    + right. exists tid. split; [rewrite <- Hlen; exact (lookup_lt_Some _ _ _ Ht) |].
      right. split; [exact Hbusy |]. exists t. split; assumption.
Qed.

Lemma enabled_togo (calls : list nat) (tid : nat) (s : process N) :
  results_invariant calls s -> enabled tid s -> (0 < togo s)%nat.
Proof.
  intros [_ [_ Hown]] [[pc Hb] | [Hb [t [Ht Hc]]]]; unfold togo.
  - destruct (Hown tid pc Hb) as [t [Ht Hc]].
    pose proof (calls_to_make_pos (threads s) tid t Ht). rewrite Hb.
    destruct pc; simpl; lia.
  - pose proof (calls_to_make_pos (threads s) tid t Ht). rewrite Hb. simpl. lia.
Qed.

Lemma run_app (L1 L2 : list nat) (s : process N) :
  run (L1 ++ L2) s = run L2 (run L1 s).
Proof. unfold run. apply foldl_app. Qed.

(** Round robin serves every call. *)
Lemma round_robin_serves (calls : list nat) (k : nat) :
  forall s : process N,
    process_invariant s ->
    results_invariant calls s ->
    (togo s <= k)%nat ->
    all_done (run (round_robin (List.length calls) k) s).
Proof.
  induction k as [| k IH]; intros s Hinv HJ Hk.
  - destruct (done_or_enabled calls s HJ) as [Hdone | [tid [_ Hen]]]; [exact Hdone |].
    pose proof (enabled_togo calls tid s HJ Hen). lia.
  - unfold round_robin. simpl repeat. rewrite concat_cons, run_app.
    fold (round_robin (List.length calls) k).
    destruct (done_or_enabled calls s HJ) as [Hdone | [tid [Htid Hen]]].
    + rewrite (all_done_run _ s Hdone), (all_done_run _ s Hdone). exact Hdone.
    + apply IH.
      * apply invariant_run; assumption.
      * apply results_invariant_run; assumption.
      * destruct (run_progress calls (seq 0 (List.length calls)) s Hinv HJ) as [_ Hlt].
        assert (togo (run (seq 0 (List.length calls)) s) < togo s)%nat; [| lia].
        apply Hlt. exists tid. split; [apply in_seq; lia | exact Hen].
Qed.

(** Who constructs. *)
Lemma constructed_by_step (a tid : nat) (s : process N) :
  process_invariant s ->
  constructed_by a s -> constructed_by a (step tid s).
Proof.
  intros [Hstage _] Hby. unfold step.
  destruct (threads s !! tid) as [t |] eqn:Ht; [| exact Hby].
  unfold construction_stage in Hstage.
  destruct Hby as [[Hctx Hb] | [pc Hb]].
  - rewrite Hb. destruct (calls_left t); [left; split; assumption |].
    destruct (context_wrapper (world s)) as [wrapper |] eqn:Hw; [| contradiction].
    left. simpl. rewrite Hw. split; [discriminate | reflexivity].
  - rewrite Hb in *. destruct (Nat.eqb a tid) eqn:Heq; [| right; exists pc; exact Hb].
    apply Nat.eqb_eq in Heq. subst a.
    destruct (context_wrapper (world s)) as [wrapper |] eqn:Hctx;
      [destruct pc; contradiction |].
    unfold ctor_step. destruct pc as [| config | config st c].
    + pose proof (native_config_read_parts "TORCH" (world s)) as [Hst _].
      destruct (native_config_read "TORCH" (world s)) as [[st config] w1].
      simpl in Hst. rewrite (proj1 Hvalid) in Hst. subst st. simpl.
      right. eexists. reflexivity.
    + destruct (native_init UCPContext_params config (world s)) as [[st c] w1].
      right. eexists. reflexivity.
    + destruct Hstage as [Hst _]. subst st. simpl.
      left. split; [discriminate | reflexivity].
Qed.

Lemma constructed_by_run (a : nat) (L : list nat) :
  forall s : process N,
    process_invariant s ->
    constructed_by a s -> constructed_by a (run L s).
Proof.
  induction L as [| tid L IH]; intros s Hinv Hby; [exact Hby |].
  change (run (tid :: L) s) with (run L (step tid s)).
  apply IH; [apply invariant_step | apply constructed_by_step]; assumption.
Qed.

(** The thread inside the constructor is the first of the schedule that
    had a call to make. *)
Lemma owner_is_first_caller (calls : list nat) (L : list nat) :
  forall s : process N,
    process_invariant s ->
    results_invariant calls s ->
    busy s = None -> context_wrapper (world s) = None ->
    forall owner pc,
      busy (run L s) = Some (owner, pc) -> first_caller calls L = Some owner.
Proof.
  induction L as [| a L IH]; intros s Hinv HJ Hb Hctx owner pc Hrun; simpl in Hrun.
  - rewrite Hb in Hrun. discriminate.
  - change (run (a :: L) s) with (run L (step a s)) in Hrun.
    unfold first_caller. simpl. fold (first_caller calls L).
    pose proof HJ as [_ [Hres _]].
    assert (Hstep : (has_call calls a = false /\ step a s = s) \/
                    (has_call calls a = true /\ constructed_by a (step a s))).
    { unfold step, has_call.
      destruct (threads s !! a) as [t |] eqn:Ht.
      - destruct (Hres a t Ht) as [k [Hk [_ Hr]]]. rewrite Hctx in Hr.
        destruct Hr as [Hcl _]. rewrite Hk, Hb, Hcl, Hctx.
        destruct k as [| k]; [left; split; reflexivity |].
        right. split; [reflexivity |]. right. eexists. reflexivity.
      - left. split; [| reflexivity].
        destruct (calls !! a) as [k |] eqn:Hk; [| reflexivity].
        exfalso. apply lookup_lt_Some in Hk. destruct HJ as [Hlen _].
        rewrite <- Hlen in Hk. apply lookup_lt_is_Some_2 in Hk.
        rewrite Ht in Hk. destruct Hk as [x Hx]. discriminate. }
    destruct Hstep as [[Hno Hsame] | [Hyes Hby]].
    + rewrite Hno. rewrite Hsame in Hrun. exact (IH s Hinv HJ Hb Hctx owner pc Hrun).
    + rewrite Hyes.
      pose proof (constructed_by_run a L (step a s) (invariant_step a s Hvalid Hinv) Hby)
        as [[_ Hnone] | [pc' Hown]]; rewrite Hrun in *; [discriminate |].
      inversion Hown; subst. reflexivity.
Qed.

(** A process in which every call has been made. *)
Lemma all_done_served_once (w0 : World N) (calls schedule : list nat) :
  context_wrapper w0 = None ->
  trace w0 = [] ->
  all_done (run schedule (boot w0 calls)) ->
  (exists tid k, calls !! tid = Some (S k)) ->
  served_once calls (run schedule (boot w0 calls)).
Proof.
  intros Hctx Htr [Hb Hidle] [tid [k Hk]].
  pose proof (invariant_boot w0 calls Hctx Htr) as Hinv0.
  pose proof (results_invariant_boot w0 calls Hctx) as HJ0.
  pose proof (invariant_run schedule _ Hvalid Hinv0) as Hinv.
  pose proof (results_invariant_run calls schedule _ Hinv0 HJ0) as HJ.
  set (s := run schedule (boot w0 calls)) in *.
  destruct HJ as [Hlen [Hres _]]. destruct Hinv as [Hstage _].
  unfold construction_stage in Hstage. rewrite Hb in Hstage.
  assert (Htid : is_Some (threads s !! tid)).
  { apply lookup_lt_is_Some_2. rewrite Hlen. exact (lookup_lt_Some _ _ _ Hk). }
  destruct Htid as [t Ht]. unfold served_once.
  destruct (context_wrapper (world s)) as [[c] |] eqn:Hw.
  - destruct Hstage as [config Hstage]. exists c, config.
    split; [exact Hstage | split; [| split]].
    + intros i ti Hi. destruct (Hres i ti Hi) as [ki [Hki [_ Hr]]].
      exists ki. split; [exact Hki |]. simpl in Hr.
      rewrite (Hidle i ti Hi), Nat.sub_0_r in Hr. exact Hr.
    + unfold process_exit. rewrite Hw. reflexivity.
    + unfold process_exit. rewrite Hw. reflexivity.
  - destruct (Hres tid t Ht) as [k' [Hk' [_ Hr]]].
    destruct Hr as [Hcl _]. rewrite (Hidle tid t Ht) in Hcl.
    rewrite Hk in Hk'. inversion Hk'; subst. discriminate.
Qed.

Lemma requests_construct_once_holds (w0 : World N) (calls schedule : list nat) :
  context_wrapper w0 = None ->
  trace w0 = [] ->
  requests_construct_once w0 calls schedule.
Proof.
  intros Hctx Htr. unfold requests_construct_once. cbv zeta.
  pose proof (invariant_boot w0 calls Hctx Htr) as Hinv0.
  pose proof (results_invariant_boot w0 calls Hctx) as HJ0.
  assert (Hserved : all_done (run (schedule
                                   ++ round_robin (List.length calls) (4 * list_sum calls))
                                (boot w0 calls))).
  { rewrite run_app. apply round_robin_serves.
    - apply invariant_run; assumption.
    - apply results_invariant_run; assumption.
    - destruct (run_progress calls schedule (boot w0 calls) Hinv0 HJ0) as [Hle _].
      unfold togo at 2 in Hle. simpl in Hle. rewrite calls_to_make_boot in Hle. lia. }
  split; [| split; [| split]].
  - intros owner pc Hb.
    exact (owner_is_first_caller calls schedule (boot w0 calls) Hinv0 HJ0 eq_refl Hctx
             owner pc Hb).
  - apply all_done_served_once; assumption.
  - exact Hserved.
  - apply all_done_served_once; assumption.
Qed.

End Served.

(** Under a valid configuration. *)
Lemma first_request_constructs_holds {N : Type} `{UCX N} (w0 : World N)
    (calls schedule : list nat) (n : nat) :
  valid_configuration N ->
  context_wrapper w0 = None ->
  trace w0 = [] ->
  first_request_constructs w0 calls schedule n.
Proof.
  intros Hvalid Hctx Htr. unfold first_request_constructs. cbv zeta.
  pose proof (invariant_run schedule (boot w0 calls) Hvalid (invariant_boot w0 calls Hctx Htr))
    as Hinv.
  set (s := run schedule (boot w0 calls)) in *.
  split; [| split].
  - destruct Hinv as [Hstage _]. unfold construction_stage in Hstage.
    destruct (busy s) as [[owner pc] |]; destruct (context_wrapper (world s)) as [wrapper |].
    + destruct pc; contradiction.
    + destruct pc as [| config | config st c]; [| | destruct Hstage as [_ Hstage]];
        rewrite Hstage; unfold count_events; simpl; lia.
    + destruct Hstage as [config Hstage]. rewrite Hstage. unfold count_events. simpl. lia.
    + rewrite Hstage. unfold count_events. simpl. lia.
  - intros [tid [k [Hin Hcalls]]]. apply (run_begins Hvalid).
    + apply invariant_boot; assumption.
    + exists tid, (mkThread (S k) []). split; [exact Hin | split; [| discriminate]].
      simpl. rewrite list_lookup_fmap, Hcalls. reflexivity.
  - destruct (getUCPContext_first Hvalid w0 Hctx) as [c [config [w1 [Hfirst [Hctx1 Htr1]]]]].
    exists c. simpl sequential. rewrite Hfirst.
    rewrite (sequential_constructed n w1 (mkUCPContext c) Hctx1). simpl.
    rewrite Htr1, Htr. unfold process_exit. rewrite Hctx1. simpl. rewrite Htr1, Htr.
    repeat split; reflexivity.
Qed.



Lemma valid_configuration_ref : valid_configuration Ref.state.
Proof. split; intros; reflexivity. Qed.


(** * Construction of the context, beyond the single instance *)

Section ConstructionFacts.
Context {N : Type} `{UCX N}.

Lemma context_wrapper_ctor (w : World N) :
  context_wrapper (snd (UCPContext_ctor w)) = context_wrapper w.
Proof.
  pose proof (UCPContext_ctor_unfold w) as Hc. cbv zeta in Hc. rewrite Hc. clear Hc.
  pose proof (native_config_read_parts "TORCH" w) as [_ Hk1].
  pose proof (native_init_parts UCPContext_params
                (snd (fst (native_config_read "TORCH" w)))
                (snd (native_config_read "TORCH" w))) as [_ Hk2].
  destruct (_ =? UCS_OK); [| exact Hk1].
  destruct (_ =? UCS_OK); simpl; rewrite Hk2; exact Hk1.
Qed.

(** The constructor starts with the configuration read. *)
Lemma trace_ctor_starts (w : World N) :
  exists rest,
    trace (snd (UCPContext_ctor w)) = trace w ++ Ev_config_read "TORCH" :: rest.
Proof.
  pose proof (UCPContext_ctor_unfold w) as Hc. cbv zeta in Hc. rewrite Hc. clear Hc.
  destruct (_ =? UCS_OK).
  - eexists. destruct (_ =? UCS_OK); simpl;
      rewrite trace_native_init, trace_native_config_read, <- !app_assoc; reflexivity.
  - exists []. apply trace_native_config_read.
Qed.

Lemma getUCPContext_returns (w w1 : World N) (c : Z) :
  getUCPContext w = (Returns c, w1) ->
  context_wrapper w1 = Some (mkUCPContext c).
Proof.
  unfold getUCPContext. destruct (context_wrapper w) as [[c0] |] eqn:Hctx.
  - intros Heq. inversion Heq; subst. exact Hctx.
  - destruct (UCPContext_ctor w) as [[[c0] | what st] w'].
    + intros Heq. inversion Heq; subst. reflexivity.
    + discriminate.
Qed.

Lemma getUCPContext_throws (w w1 : World N) (what : string) (st : ucs_status_t) :
  getUCPContext w = (Throws what st, w1) ->
  context_wrapper w = None /\ UCPContext_ctor w = (Throws what st, w1) /\
  context_wrapper w1 = None.
Proof.
  unfold getUCPContext. destruct (context_wrapper w) as [wrapper |] eqn:Hctx;
    [discriminate |].
  pose proof (context_wrapper_ctor w) as Hkeep.
  destruct (UCPContext_ctor w) as [[wrapper | what' st'] w']; [discriminate |].
  intros Heq. inversion Heq; subst. simpl in Hkeep.
  split; [reflexivity | split; [reflexivity | congruence]].
Qed.

Lemma getUCPContext_constructed (w : World N) (wrapper : UCPContext) :
  context_wrapper w = Some wrapper ->
  getUCPContext w = (Returns (context wrapper), w).
Proof. intros Hctx. unfold getUCPContext. rewrite Hctx. reflexivity. Qed.

End ConstructionFacts.

(** X1.  When the configuration cannot be read, the constructor of the
    context throws the read error with the native status; the read is the
    only native call it makes, so nothing is initialised and nothing is
    released, and the static and the request states are left as they were. *)
Theorem context_ctor_config_failure :
  forall (N : Type) (U : UCX N) (w : World N) (st : ucs_status_t) (config : Z) (n : N),
    ucp_config_read "TORCH" (native w) = (st, config, n) ->
    st <> UCS_OK ->
    exists w',
      UCPContext_ctor w = (Throws "Failed to read UCP config." st, w') /\
      trace w' = trace w ++ [Ev_config_read "TORCH"] /\
      context_wrapper w' = context_wrapper w /\
      reqmem w' = reqmem w /\ mem w' = mem w.
Proof.
  intros N U w st config n Hread Hfail.
  pose proof (UCPContext_ctor_unfold w) as Hc. cbv zeta in Hc.
  unfold native_config_read in Hc. rewrite Hread in Hc. simpl in Hc.
  apply Z.eqb_neq in Hfail. rewrite Hfail in Hc.
  eexists. split; [exact Hc |]. repeat split.
Qed.

Lemma context_ctor_config_failure_witness :
  ucp_config_read "TORCH" (native (Scripted.start Scripted.flaky_config))
  = (UCS_ERR_NO_MEMORY, 0,
     Scripted.mkState 0 1 0 Scripted.flaky_config)
  /\ UCS_ERR_NO_MEMORY <> UCS_OK
  /\ exists w',
       UCPContext_ctor (Scripted.start Scripted.flaky_config)
       = (Throws "Failed to read UCP config." UCS_ERR_NO_MEMORY, w') /\
       trace w' = trace (Scripted.start Scripted.flaky_config) ++ [Ev_config_read "TORCH"] /\
       context_wrapper w' = context_wrapper (Scripted.start Scripted.flaky_config) /\
       reqmem w' = reqmem (Scripted.start Scripted.flaky_config) /\
       mem w' = mem (Scripted.start Scripted.flaky_config).
Proof.
  split; [reflexivity | split; [discriminate |]].
  apply (context_ctor_config_failure Scripted.state Scripted.ScriptedUCX
           (Scripted.start Scripted.flaky_config) UCS_ERR_NO_MEMORY 0
           (Scripted.mkState 0 1 0 Scripted.flaky_config) eq_refl).
  discriminate.
Defined.

(** X2.  When the configuration was read, the constructor initialises the
    context with that configuration and then releases the configuration,
    once, whether the initialisation succeeded or not: its native calls are
    the read, the initialisation and the release, in this order.  It
    returns the context the library produced when the initialisation
    succeeded and throws the initialisation error with the native status
    otherwise. *)
Theorem context_ctor_releases_config :
  forall (N : Type) (U : UCX N) (w : World N) (config : Z) (n : N),
    ucp_config_read "TORCH" (native w) = (UCS_OK, config, n) ->
    exists (st : ucs_status_t) (c : Z) (w' : World N),
      fst (fst (ucp_init UCPContext_params config n)) = st /\
      snd (fst (ucp_init UCPContext_params config n)) = c /\
      UCPContext_ctor w =
        (if st =? UCS_OK then Returns (mkUCPContext c)
         else Throws "Failed to init UCP context." st, w') /\
      trace w' = trace w ++ [Ev_config_read "TORCH"; Ev_init UCPContext_params st c;
                             Ev_config_release config] /\
      count_events is_config_release (trace w')
      = S (count_events is_config_release (trace w)).
Proof.
  intros N U w config n Hread.
  pose proof (UCPContext_ctor_unfold w) as Hc. cbv zeta in Hc.
  unfold native_config_read in Hc. rewrite Hread in Hc. simpl in Hc.
  unfold native_init in Hc. simpl in Hc.
  destruct (ucp_init UCPContext_params config n) as [[st c] n2]. simpl in Hc.
  exists st, c. eexists.
  split; [reflexivity | split; [reflexivity |]].
  assert (Htr : forall e1 e2 e3 : Event,
             count_events is_config_release (trace w ++ [e1; e2; e3])
             = (count_events is_config_release (trace w)
                + count_events is_config_release [e1; e2; e3])%nat).
  { intros. unfold count_events. rewrite List.filter_app, List.length_app. reflexivity. }
  destruct (st =? UCS_OK); (split; [exact Hc |]); simpl;
    rewrite <- !app_assoc; simpl; (split; [reflexivity |]);
    rewrite Htr; unfold count_events; simpl; lia.
Qed.

(** On the script [failing_init] the configuration 10 is read, the
    initialisation fails, and the configuration is released all the same. *)
Lemma context_ctor_releases_config_witness :
  ucp_config_read "TORCH" (native (Scripted.start failing_init))
  = (UCS_OK, 10, Scripted.mkState 0 1 0 failing_init)
  /\ fst (UCPContext_ctor (Scripted.start failing_init))
     = Throws "Failed to init UCP context." UCS_ERR_NO_MEMORY
  /\ trace (snd (UCPContext_ctor (Scripted.start failing_init)))
     = [Ev_config_read "TORCH"; Ev_init UCPContext_params UCS_ERR_NO_MEMORY 0;
        Ev_config_release 10].
Proof.
  split; [reflexivity |].
  destruct (context_ctor_releases_config Scripted.state Scripted.ScriptedUCX
              (Scripted.start failing_init) 10
              (Scripted.mkState 0 1 0 failing_init) eq_refl)
    as [st [c [w' [Hst [Hc [Hrun [Htr _]]]]]]].
  simpl in Hst, Hc. subst st c. rewrite Hrun. simpl. split; [reflexivity | exact Htr].
Defined.

(** X3.  A construction that failed is not remembered.  When a call of
    [getUCPContext] throws, the static is left unconstructed, so that
    process teardown has nothing to destroy, and the next call runs the
    constructor again, beginning with a new read of the configuration. *)
Theorem failed_construction_is_retried :
  forall (N : Type) (U : UCX N) (w w1 : World N) (what : string) (st : ucs_status_t),
    getUCPContext w = (Throws what st, w1) ->
    context_wrapper w1 = None /\
    process_exit w1 = w1 /\
    exists rest,
      trace (snd (getUCPContext w1)) = trace w1 ++ Ev_config_read "TORCH" :: rest.
Proof.
  intros N U w w1 what st Hthrow.
  destruct (getUCPContext_throws w w1 what st Hthrow) as [_ [_ Hnone]].
  split; [exact Hnone | split].
  - unfold process_exit. rewrite Hnone. reflexivity.
  - destruct (trace_ctor_starts w1) as [rest Hrest]. exists rest.
    unfold getUCPContext. rewrite Hnone.
    destruct (UCPContext_ctor w1) as [[wrapper | what' st'] w2]; exact Hrest.
Qed.

(** On the script [flaky_config] the first call throws, and the second
    call reads the configuration again. *)
Lemma failed_construction_is_retried_witness :
  getUCPContext (Scripted.start Scripted.flaky_config)
  = (Throws "Failed to read UCP config." UCS_ERR_NO_MEMORY,
     snd (getUCPContext (Scripted.start Scripted.flaky_config)))
  /\ context_wrapper (snd (getUCPContext (Scripted.start Scripted.flaky_config))) = None
  /\ exists rest,
       trace (snd (getUCPContext (snd (getUCPContext (Scripted.start Scripted.flaky_config)))))
       = trace (snd (getUCPContext (Scripted.start Scripted.flaky_config)))
         ++ Ev_config_read "TORCH" :: rest.
Proof.
  assert (Hthrow : getUCPContext (Scripted.start Scripted.flaky_config)
                   = (Throws "Failed to read UCP config." UCS_ERR_NO_MEMORY,
                      snd (getUCPContext (Scripted.start Scripted.flaky_config))))
    by reflexivity.
  split; [exact Hthrow |].
  destruct (failed_construction_is_retried Scripted.state Scripted.ScriptedUCX
              _ _ _ _ Hthrow) as [Hnone [_ Hnext]].
  split; [exact Hnone | exact Hnext].
Defined.

(** X4.  Once a call of [getUCPContext] has returned a context, every
    further call returns that same context and leaves the world as it is:
    no native call is made and no state changes, however many calls
    follow. *)
Theorem constructed_context_is_reused :
  forall (N : Type) (U : UCX N) (w w1 : World N) (c : Z) (n : nat),
    getUCPContext w = (Returns c, w1) ->
    sequential n w1 = (repeat (Returns c) n, w1).
Proof.
  intros N U w w1 c n Hfirst.
  apply (sequential_constructed n w1 (mkUCPContext c)).
  apply (getUCPContext_returns w w1 c Hfirst).
Qed.

Lemma constructed_context_is_reused_witness :
  getUCPContext Ref.init_world = (Returns 4160, snd (getUCPContext Ref.init_world))
  /\ sequential 3 (snd (getUCPContext Ref.init_world))
     = (repeat (Returns 4160) 3, snd (getUCPContext Ref.init_world)).
Proof.
  assert (Hfirst : getUCPContext Ref.init_world
                   = (Returns 4160, snd (getUCPContext Ref.init_world)))
    by reflexivity.
  split; [exact Hfirst |].
  exact (constructed_context_is_reused Ref.state Ref.RefUCX _ _ 4160 3 Hfirst).
Defined.

(** * Workers *)

Section WorkerFacts.
Context {N : Type} `{UCX N}.

Lemma native_worker_create_parts (c : Z) (p : ucp_worker_params_t) (w : World N) :
  fst (fst (native_worker_create c p w)) = fst (fst (ucp_worker_create c p (native w)))
  /\ trace (snd (native_worker_create c p w)) = trace w ++ [Ev_worker_create c p]
  /\ context_wrapper (snd (native_worker_create c p w)) = context_wrapper w.
Proof.
  unfold native_worker_create.
  destruct (ucp_worker_create c p (native w)) as [[st wk] n]. repeat split.
Qed.

(** The constructor of a worker, by how the context request and the native
    creation end. *)
Lemma UCPWorker_ctor_unfold (w : World N) :
  UCPWorker_ctor w =
    match getUCPContext w with
    | (Throws what st, w1) => (Throws what st, w1)
    | (Returns c, w1) =>
        let r := native_worker_create c multi_thread_params w1 in
        if fst (fst r) =? UCS_OK
        then (Returns (mkUCPWorker (snd (fst r))), snd r)
        else (Throws "Failed to create UCP worker." (fst (fst r)), snd r)
    end.
Proof.
  unfold UCPWorker_ctor, bind.
  destruct (getUCPContext w) as [[c | what st] w1]; [| reflexivity].
  rewrite lift_returns. cbv zeta.
  change {| worker_field_mask := UCP_WORKER_PARAM_FIELD_THREAD_MODE;
            thread_mode := UCS_THREAD_MODE_MULTI |} with multi_thread_params.
  destruct (native_worker_create c multi_thread_params w1) as [[st wk] w2]. simpl.
  unfold TORCH_UCX_CHECK. destruct (st =? UCS_OK); reflexivity.
Qed.

(** A worker constructor that returns: the context it used, the world the
    context request left, and the one native creation after it. *)
Lemma UCPWorker_ctor_returns (w w2 : World N) (wk : UCPWorker) :
  UCPWorker_ctor w = (Returns wk, w2) ->
  exists c w1,
    getUCPContext w = (Returns c, w1) /\
    trace w2 = trace w1 ++ [Ev_worker_create c multi_thread_params] /\
    context_wrapper w2 = Some (mkUCPContext c).
Proof.
  rewrite UCPWorker_ctor_unfold.
  destruct (getUCPContext w) as [[c | what st] w1] eqn:Hctx; [| discriminate].
  cbv zeta.
  pose proof (native_worker_create_parts c multi_thread_params w1) as [_ [Htr Hkeep]].
  destruct (_ =? UCS_OK); [| discriminate].
  intros Heq. inversion Heq; subst. exists c, w1.
  split; [reflexivity | split; [exact Htr |]].
  rewrite Hkeep. apply (getUCPContext_returns w w1 c Hctx).
Qed.

End WorkerFacts.

(** X5.  All workers of a process are created against one context.  When a
    worker has been constructed, a later construction of a worker, in any
    world whose static is as the first construction left it, makes exactly
    one native call: the creation of the worker, in multi-threaded mode,
    against the same context handle the first worker was created against;
    the library is not asked for a configuration or a context again. *)
Theorem workers_share_context :
  forall (N : Type) (U : UCX N) (w w1 w' w2 : World N) (wk1 wk2 : UCPWorker),
    UCPWorker_ctor w = (Returns wk1, w1) ->
    context_wrapper w' = context_wrapper w1 ->
    UCPWorker_ctor w' = (Returns wk2, w2) ->
    exists c pre,
      trace w1 = pre ++ [Ev_worker_create c multi_thread_params] /\
      trace w2 = trace w' ++ [Ev_worker_create c multi_thread_params] /\
      context_wrapper w2 = Some (mkUCPContext c).
Proof.
  intros N U w w1 w' w2 wk1 wk2 Hfirst Hsame Hsecond.
  destruct (UCPWorker_ctor_returns w w1 wk1 Hfirst) as [c [wa [_ [Htr1 Hctx1]]]].
  destruct (UCPWorker_ctor_returns w' w2 wk2 Hsecond) as [c' [wb [Hget [Htr2 Hctx2]]]].
  rewrite Hctx1 in Hsame.
  rewrite (getUCPContext_constructed w' (mkUCPContext c) Hsame) in Hget.
  inversion Hget; subst c' wb.
  exists c, (trace wa). split; [exact Htr1 | split; [exact Htr2 | exact Hctx2]].
Qed.

(** Two workers constructed one after the other in the scenario: both are
    created against the context 4160. *)
Lemma workers_share_context_witness :
  UCPWorker_ctor Ref.init_world
  = (Returns (mkUCPWorker 4224), snd (UCPWorker_ctor Ref.init_world))
  /\ UCPWorker_ctor (snd (UCPWorker_ctor Ref.init_world))
     = (Returns (mkUCPWorker 4288), snd (UCPWorker_ctor (snd (UCPWorker_ctor Ref.init_world))))
  /\ exists c pre,
       trace (snd (UCPWorker_ctor Ref.init_world))
       = pre ++ [Ev_worker_create c multi_thread_params] /\
       trace (snd (UCPWorker_ctor (snd (UCPWorker_ctor Ref.init_world))))
       = trace (snd (UCPWorker_ctor Ref.init_world))
         ++ [Ev_worker_create c multi_thread_params] /\
       context_wrapper (snd (UCPWorker_ctor (snd (UCPWorker_ctor Ref.init_world))))
       = Some (mkUCPContext c).
Proof.
  assert (H1 : UCPWorker_ctor Ref.init_world
               = (Returns (mkUCPWorker 4224), snd (UCPWorker_ctor Ref.init_world)))
    by reflexivity.
  assert (H2 : UCPWorker_ctor (snd (UCPWorker_ctor Ref.init_world))
               = (Returns (mkUCPWorker 4288),
                  snd (UCPWorker_ctor (snd (UCPWorker_ctor Ref.init_world)))))
    by reflexivity.
  split; [exact H1 | split; [exact H2 |]].
  exact (workers_share_context Ref.state Ref.RefUCX _ _ _ _ _ _ H1 eq_refl H2).
Defined.

(** X6.  How the construction of a worker fails.  When the context request
    throws, the constructor throws the same error and leaves the world the
    failed construction left, without asking the library for a worker.
    When the library refuses the worker, the constructor throws the
    creation error with the native status after that one native call, and
    the context stays constructed: the next request for it returns it
    without a native call. *)
Theorem worker_ctor_failure :
  forall (N : Type) (U : UCX N) (w w1 : World N),
    (forall what st,
        getUCPContext w = (Throws what st, w1) ->
        UCPWorker_ctor w = (Throws what st, w1)) /\
    (forall c st,
        getUCPContext w = (Returns c, w1) ->
        fst (fst (ucp_worker_create c multi_thread_params (native w1))) = st ->
        st <> UCS_OK ->
        exists w2,
          UCPWorker_ctor w = (Throws "Failed to create UCP worker." st, w2) /\
          trace w2 = trace w1 ++ [Ev_worker_create c multi_thread_params] /\
          getUCPContext w2 = (Returns c, w2)).
Proof.
  intros N U w w1. split.
  - intros what st Hget. rewrite UCPWorker_ctor_unfold, Hget. reflexivity.
  - intros c st Hget Hst Hfail. rewrite UCPWorker_ctor_unfold, Hget. cbv zeta.
    pose proof (native_worker_create_parts c multi_thread_params w1) as [Hst' [Htr Hkeep]].
    rewrite Hst in Hst'. rewrite Hst'.
    apply Z.eqb_neq in Hfail. rewrite Hfail.
    eexists. split; [reflexivity | split; [exact Htr |]].
    apply (getUCPContext_constructed _ (mkUCPContext c)).
    rewrite Hkeep. apply (getUCPContext_returns w w1 c Hget).
Qed.

(** On the script [flaky_config] the context request throws and so does
    the worker constructor; on the refusing library the context 20 is
    constructed, the worker is refused, and the context is still there. *)
Lemma worker_ctor_failure_witness :
  (getUCPContext (Scripted.start Scripted.flaky_config)
   = (Throws "Failed to read UCP config." UCS_ERR_NO_MEMORY,
      snd (getUCPContext (Scripted.start Scripted.flaky_config)))
   /\ UCPWorker_ctor (Scripted.start Scripted.flaky_config)
      = (Throws "Failed to read UCP config." UCS_ERR_NO_MEMORY,
         snd (getUCPContext (Scripted.start Scripted.flaky_config))))
  /\ (getUCPContext Refusing.start = (Returns 20, snd (getUCPContext Refusing.start))
      /\ UCS_ERR_NO_MEMORY <> UCS_OK
      /\ exists w2,
           UCPWorker_ctor Refusing.start
           = (Throws "Failed to create UCP worker." UCS_ERR_NO_MEMORY, w2) /\
           trace w2 = trace (snd (getUCPContext Refusing.start))
                      ++ [Ev_worker_create 20 multi_thread_params] /\
           getUCPContext w2 = (Returns 20, w2)).
Proof.
  split.
  - assert (Hget : getUCPContext (Scripted.start Scripted.flaky_config)
                   = (Throws "Failed to read UCP config." UCS_ERR_NO_MEMORY,
                      snd (getUCPContext (Scripted.start Scripted.flaky_config))))
      by reflexivity.
    split; [exact Hget |].
    exact (proj1 (worker_ctor_failure Scripted.state Scripted.ScriptedUCX _ _) _ _ Hget).
  - assert (Hget : getUCPContext Refusing.start
                   = (Returns 20, snd (getUCPContext Refusing.start)))
      by reflexivity.
    split; [exact Hget | split; [discriminate |]].
    apply (proj2 (worker_ctor_failure Refusing.state Refusing.RefusingUCX _ _)
             20 UCS_ERR_NO_MEMORY Hget eq_refl).
    discriminate.
Defined.

(** * Endpoints *)

Section EndpointFacts.
Context {N : Type} `{UCX N}.

Lemma native_ep_create_parts (wk : Z) (p : ucp_ep_params_t) (w : World N) :
  fst (native_ep_create wk p w) = fst (ucp_ep_create wk p (native w))
  /\ trace (snd (native_ep_create wk p w)) = trace w ++ [Ev_ep_create wk p].
Proof.
  unfold native_ep_create.
  destruct (ucp_ep_create wk p (native w)) as [[st ep] n]. split; reflexivity.
Qed.

Lemma UCPWorker_connect_unfold (self : UCPWorker) (address : list Byte.byte) (w : World N) :
  UCPWorker_connect self address w =
    let r := native_ep_create (worker self) (remote_address_params address) w in
    (if fst (fst r) =? UCS_OK
     then Returns (mkUCPEndpoint self (snd (fst r)))
     else Throws "Failed to create endpoint." (fst (fst r)), snd r).
Proof.
  unfold UCPWorker_connect, UCPEndpoint_ctor, bind, UCPWorker_get. cbv zeta.
  rewrite lift_returns.
  change {| ep_field_mask := UCP_EP_PARAM_FIELD_REMOTE_ADDRESS; address := address |}
    with (remote_address_params address).
  destruct (native_ep_create (worker self) (remote_address_params address) w)
    as [[st ep] w1]. simpl.
  unfold TORCH_UCX_CHECK. destruct (st =? UCS_OK); reflexivity.
Qed.

(** An endpoint [connect] returned is bound to the worker that connected. *)
Lemma UCPWorker_connect_returns (self : UCPWorker) (address : list Byte.byte)
    (w w1 : World N) (ep : UCPEndpoint) :
  UCPWorker_connect self address w = (Returns ep, w1) ->
  ep_worker ep = self /\
  trace w1 = trace w ++ [Ev_ep_create (worker self) (remote_address_params address)].
Proof.
  rewrite UCPWorker_connect_unfold. cbv zeta.
  pose proof (native_ep_create_parts (worker self) (remote_address_params address) w)
    as [_ Htr].
  destruct (_ =? UCS_OK); [| discriminate].
  intros Heq. inversion Heq; subst. split; [reflexivity | exact Htr].
Qed.

(** A call of [address()] that returns. *)
Lemma UCPWorker_address_returns (self : UCPWorker) (w w1 : World N)
    (addr : list Byte.byte) :
  UCPWorker_address self w = (Returns addr, w1) ->
  addr = snd (fst (ucp_worker_get_address (worker self) (native w))) /\
  trace w1 = trace w
             ++ [Ev_worker_get_address (worker self);
                 Ev_worker_release_address (worker self)
                   (snd (fst (fst (ucp_worker_get_address (worker self) (native w)))))].
Proof.
  destruct (ucp_worker_get_address (worker self) (native w)) as [[[st la] bytes] n] eqn:Hq.
  rewrite (UCPWorker_address_unfold self w st la bytes n Hq).
  destruct (native_worker_get_address_parts (worker self) w st la bytes n Hq)
    as [_ [Htr _]].
  destruct (st =? UCS_OK); [| discriminate].
  intros Heq. inversion Heq; subst. split; [reflexivity |].
  simpl. rewrite Htr, <- app_assoc. reflexivity.
Qed.

(** The one event of a [connect], whether it returns or throws. *)
Lemma connect_parts_trace (self : UCPWorker) (address : list Byte.byte) (w : World N) :
  trace (snd (UCPWorker_connect self address w))
  = trace w ++ [Ev_ep_create (worker self) (remote_address_params address)]
  /\ context_wrapper (snd (UCPWorker_connect self address w)) = context_wrapper w.
Proof.
  rewrite UCPWorker_connect_unfold. cbv zeta. simpl snd.
  unfold native_ep_create.
  destruct (ucp_ep_create _ _ _) as [[st ep] n]. split; reflexivity.
Qed.

End EndpointFacts.

(** X7.  [connect] makes one native call, the creation of an endpoint on
    the handle of the connecting worker, with a parameter block that
    announces a remote address and carries exactly the bytes it was given.
    When the library reports OK it returns an endpoint that holds the
    native handle and the connecting worker; on any other status it throws
    the endpoint error with that status and returns no endpoint. *)
Theorem connect_outcome :
  forall (N : Type) (U : UCX N) (self : UCPWorker) (address : list Byte.byte) (w : World N),
    exists w',
      UCPWorker_connect self address w =
        (if fst (fst (ucp_ep_create (worker self) (remote_address_params address) (native w)))
            =? UCS_OK
         then Returns
                (mkUCPEndpoint self
                   (snd (fst (ucp_ep_create (worker self) (remote_address_params address)
                                (native w)))))
         else Throws "Failed to create endpoint."
                (fst (fst (ucp_ep_create (worker self) (remote_address_params address)
                             (native w)))),
         w') /\
      trace w' = trace w ++ [Ev_ep_create (worker self) (remote_address_params address)] /\
      Z.land (ep_field_mask (remote_address_params address))
             UCP_EP_PARAM_FIELD_REMOTE_ADDRESS <> 0.
Proof.
  intros N U self address w.
  rewrite UCPWorker_connect_unfold. cbv zeta.
  pose proof (native_ep_create_parts (worker self) (remote_address_params address) w)
    as [Hfst Htr].
  rewrite Hfst. eexists. split; [reflexivity | split; [exact Htr | discriminate]].
Qed.

(** X8.  The address a worker reports reaches the library unchanged.  When
    [address()] of one worker has returned, a [connect] of another worker
    with the returned bytes asks the library for an endpoint to exactly
    the bytes the library reported for the first worker; the three native
    calls are the query, the release of the buffer of the query, and the
    creation of the endpoint. *)
Theorem address_then_connect :
  forall (N : Type) (U : UCX N) (wa wb : UCPWorker) (w w1 : World N)
         (addr : list Byte.byte),
    UCPWorker_address wa w = (Returns addr, w1) ->
    addr = snd (fst (ucp_worker_get_address (worker wa) (native w))) /\
    trace (snd (UCPWorker_connect wb addr w1))
    = trace w
      ++ [Ev_worker_get_address (worker wa);
          Ev_worker_release_address (worker wa)
            (snd (fst (fst (ucp_worker_get_address (worker wa) (native w)))));
          Ev_ep_create (worker wb)
            (remote_address_params
               (snd (fst (ucp_worker_get_address (worker wa) (native w)))))].
Proof.
  intros N U wa wb w w1 addr Haddr.
  destruct (UCPWorker_address_returns wa w w1 addr Haddr) as [Hbytes Htr].
  split; [exact Hbytes |].
  destruct (connect_parts_trace wb addr w1) as [Hc _]. rewrite Hc, Htr, <- app_assoc.
  rewrite <- Hbytes. reflexivity.
Qed.

(** In the scenario the receiver reports the eight bytes of its handle and
    the sender connects to exactly those bytes. *)
Lemma address_then_connect_witness :
  UCPWorker_address Demo.receiver Demo.connected
  = (Returns (Ref.address_of 4224), snd (UCPWorker_address Demo.receiver Demo.connected))
  /\ trace (snd (UCPWorker_connect Demo.sender (Ref.address_of 4224)
                   (snd (UCPWorker_address Demo.receiver Demo.connected))))
     = trace Demo.connected
       ++ [Ev_worker_get_address 4224; Ev_worker_release_address 4224 4480;
           Ev_ep_create 4288 (remote_address_params (Ref.address_of 4224))].
Proof.
  assert (Haddr : UCPWorker_address Demo.receiver Demo.connected
                  = (Returns (Ref.address_of 4224),
                     snd (UCPWorker_address Demo.receiver Demo.connected)))
    by (vm_compute; reflexivity).
  split; [exact Haddr |].
  exact (proj2 (address_then_connect Ref.state Ref.RefUCX Demo.receiver Demo.sender
                  _ _ _ Haddr)).
Defined.

(** * Endpoint teardown, all cases *)

Lemma count_events_app (P : Event -> bool) (tr1 tr2 : list Event) :
  count_events P (tr1 ++ tr2) = (count_events P tr1 + count_events P tr2)%nat.
Proof. unfold count_events. rewrite List.filter_app, List.length_app. reflexivity. Qed.

(** What the rounds of the drain loop consist of. *)
Lemma count_drain_events (self : UCPEndpoint) (request : Z) (n : nat) :
  count_events is_progress (drain_events self request n) = n /\
  count_events is_check (drain_events self request n) = n /\
  count_events is_warn (drain_events self request n) = O /\
  count_events is_free (drain_events self request n) = O /\
  count_events is_close (drain_events self request n) = O.
Proof.
  induction n as [| n [Hp [Hc [Hw [Hf Hcl]]]]]; [repeat split |].
  unfold count_events in *. simpl. rewrite Hp, Hc, Hw, Hf, Hcl. repeat split.
Qed.

(** A pointer whose status reads OK is neither an error nor a request. *)
Lemma status_ok_is_null (p : ucs_status_ptr_t) :
  UCS_PTR_STATUS p = UCS_OK ->
  UCS_PTR_IS_ERR p = false /\ UCS_PTR_IS_PTR p = false.
Proof.
  intros Hok.
  destruct (UCS_PTR_IS_ERR p) eqn:He.
  - pose proof (is_err_status_not_ok p He) as Hne. rewrite Hok in Hne. discriminate.
  - split; [reflexivity |]. destruct (UCS_PTR_IS_PTR p) eqn:Hp; [| reflexivity].
    unfold UCS_PTR_STATUS in Hok. rewrite Hp in Hok. discriminate.
Qed.

(** The status an error pointer reads as: the code the pointer encodes. *)
Lemma is_err_status_range (p : ucs_status_ptr_t) :
  UCS_PTR_IS_ERR p = true ->
  UCS_ERR_LAST <= UCS_PTR_STATUS p <= -1 /\
  UCS_STATUS_PTR (UCS_PTR_STATUS p) = uintptr p.
Proof.
  intros He. unfold UCS_PTR_STATUS. rewrite (is_err_not_ptr p He).
  unfold UCS_PTR_RAW_STATUS, intptr, UCS_STATUS_PTR, UCS_ERR_LAST.
  unfold UCS_PTR_IS_ERR in He. apply Z.leb_le in He.
  change (uintptr UCS_ERR_LAST) with (ptr_modulus - 100) in He.
  pose proof (uintptr_range p) as Hp. unfold ptr_modulus in *. cbv zeta.
  destruct (uintptr p <? 2 ^ 63) eqn:E; [apply Z.ltb_lt in E; lia |].
  split; [lia |].
  unfold uintptr at 1. unfold ptr_modulus.
  replace (uintptr p - 2 ^ 64) with (uintptr p + (-1) * 2 ^ 64) by lia.
  rewrite Z.mod_add by lia. apply Z.mod_small. exact Hp.
Qed.

Section TeardownCases.
Context {N : Type} `{UCX N}.

(** The destructor when the close request is neither an error nor a
    request. *)
Lemma dtor_close_done (self : UCPEndpoint) (w : World N) (fuel : nat) :
  UCS_PTR_IS_ERR (close_request self w) = false ->
  UCS_PTR_IS_PTR (close_request self w) = false ->
  UCPEndpoint_dtor fuel self w = Some (Returns tt, closing_world self w).
Proof.
  intros He Hp. unfold UCPEndpoint_dtor.
  rewrite close_and_warn_unfold, He, Hp. reflexivity.
Qed.

End TeardownCases.

(** X9.  What is done through an endpoint is done on the worker that
    connected it.  For an endpoint [connect] returned: a receive through
    the endpoint is the receive of the connecting worker, result and world;
    a send through it hands the library the native endpoint handle, and
    the progress step that may follow is driven on the connecting worker;
    every iteration of the drain loop of its destructor drives the progress
    of that worker once and then checks the close request; and whatever a
    destructor that returns has driven, it has driven on that worker. *)
Theorem endpoint_runs_on_its_worker :
  forall (N : Type) (U : UCX N) (self : UCPWorker) (address : list Byte.byte)
         (w w1 : World N) (ep : UCPEndpoint),
    UCPWorker_connect self address w = (Returns ep, w1) ->
    (forall data size tag d (w2 : World N),
        UCPEndpoint_recv_with_tag ep data size tag d w2
        = UCPWorker_recv_with_tag self data size tag d w2) /\
    (forall data size tag d (w2 : World N),
        exists rest,
          trace (snd (UCPEndpoint_send_with_tag ep data size tag d w2))
          = trace w2
            ++ Ev_tag_send_nbx (endpoint ep) data 1 (ucp_tag_of_int tag) (p2p_params size d)
            :: rest /\
          (rest = [] \/ rest = [Ev_worker_progress (worker self)])) /\
    (forall request (w2 : World N),
        trace (snd (drain_step ep request w2))
        = trace w2 ++ [Ev_worker_progress (worker self); Ev_request_check_status request]) /\
    (forall fuel (w2 w3 : World N) out,
        UCPEndpoint_dtor fuel ep w2 = Some (out, w3) ->
        exists evs,
          trace w3 = trace w2 ++ evs /\
          forall wk, In (Ev_worker_progress wk) evs -> wk = worker self).
Proof.
  intros N U self address w w1 ep Hconn.
  destruct (UCPWorker_connect_returns self address w w1 ep Hconn) as [Hworker _].
  split; [| split; [| split]].
  - intros data size tag d w2. unfold UCPEndpoint_recv_with_tag, UCPWorker_recv_with_tag,
      UCPWorker_get. rewrite Hworker. reflexivity.
  - intros data size tag d w2.
    destruct (submit_p2p_request_trace (ep_worker ep) size d
                (fun p => native_tag_send_nbx (endpoint ep) data 1 (ucp_tag_of_int tag) p) w2)
      as [rest [Htr Hrest]].
    exists rest. unfold UCPEndpoint_send_with_tag. rewrite Htr.
    rewrite trace_native_tag_send_nbx, <- app_assoc. rewrite Hworker in Hrest.
    split; [reflexivity | exact Hrest].
  - intros request w2. rewrite trace_drain_step, <- Hworker. reflexivity.
  - intros fuel w2 w3 out Hrun.
    destruct (status_ptr_trichotomy (close_request ep w2)) as [Hc | [Hc | Hc]];
      destruct Hc as [He [Hp _]].
    + rewrite (dtor_close_failed ep w2 fuel He) in Hrun.
      assert (Hw3 : w3 = log (Ev_warn leak_warning (UCS_PTR_STATUS (close_request ep w2)))
                           (closing_world ep w2)) by congruence.
      subst w3. eexists. split.
      * rewrite trace_log, trace_closing_world, <- app_assoc. reflexivity.
      * intros wk [Hin | [Hin | []]]; discriminate.
    + rewrite (dtor_close_pending ep w2 fuel Hp) in Hrun.
      destruct (do_while fuel _ _) as [[o w4] |] eqn:Hloop; [| discriminate].
      destruct (do_while_drain_inv ep _ fuel _ _ _ Hloop) as [k [_ [_ [_ [Ho Hw4]]]]].
      subst o w4.
      assert (Hw3 : w3 = snd (native_request_free (close_request ep w2)
                                (drain_world ep (close_request ep w2) (S k)
                                   (closing_world ep w2)))) by congruence.
      subst w3. eexists. split.
      * rewrite trace_native_request_free, trace_drain_world, trace_closing_world.
        rewrite <- !app_assoc. reflexivity.
      * intros wk Hin. rewrite <- Hworker.
        apply in_app_or in Hin. destruct Hin as [[Hin | []] | Hin]; [discriminate |].
        apply in_app_or in Hin. destruct Hin as [Hin | [Hin | []]]; [| discriminate].
        clear Hloop Hrun. induction (S k) as [| m IH]; [destruct Hin |].
        destruct Hin as [Hin | [Hin | Hin]]; [congruence | discriminate | exact (IH Hin)].
    + rewrite (dtor_close_done ep w2 fuel He Hp) in Hrun.
      assert (Hw3 : w3 = closing_world ep w2) by congruence.
      subst w3. eexists. split; [apply trace_closing_world |].
      intros wk [Hin | []]. discriminate.
Qed.

(** The endpoint of the scenario is the one [connect] of the sender returns
    for the address of the receiver. *)
Lemma endpoint_runs_on_its_worker_witness :
  UCPWorker_connect Demo.sender (Ref.address_of 4224)
    (snd (UCPWorker_address Demo.receiver
            (snd ((let* w1 := UCPWorker_ctor in UCPWorker_ctor)%ucx Demo.world0))))
  = (Returns Demo.sender_ep, Demo.connected)
  /\ UCPEndpoint_recv_with_tag Demo.sender_ep 2000 5 7 kCPU Demo.connected
     = UCPWorker_recv_with_tag Demo.sender 2000 5 7 kCPU Demo.connected.
Proof.
  assert (Hconn : UCPWorker_connect Demo.sender (Ref.address_of 4224)
                    (snd (UCPWorker_address Demo.receiver
                            (snd ((let* w1 := UCPWorker_ctor in UCPWorker_ctor)%ucx
                                    Demo.world0))))
                  = (Returns Demo.sender_ep, Demo.connected))
    by (vm_compute; reflexivity).
  split; [exact Hconn |].
  exact (proj1 (endpoint_runs_on_its_worker Ref.state Ref.RefUCX _ _ _ _ _ Hconn)
           2000 5 7 kCPU Demo.connected).
Defined.

(** X10.  When the close of the endpoint completes at once, the destructor
    has nothing to wait for: it returns for every fuel, also for none, and
    the close call is the only thing it does; it warns of nothing, drives
    no progress, checks no status and releases no request. *)
Theorem endpoint_teardown_immediate :
  forall (N : Type) (U : UCX N) (self : UCPEndpoint) (w : World N) (fuel : nat),
    UCS_PTR_STATUS (close_request self w) = UCS_OK ->
    exists w',
      UCPEndpoint_dtor fuel self w = Some (Returns tt, w') /\
      trace w' = trace w ++ [Ev_ep_close_nb (endpoint self) UCP_EP_CLOSE_MODE_FLUSH] /\
      reqmem w' = reqmem w /\ mem w' = mem w.
Proof.
  intros N U self w fuel Hok.
  destruct (status_ok_is_null _ Hok) as [He Hp].
  exists (closing_world self w).
  split; [apply dtor_close_done; assumption | split; [apply trace_closing_world |]].
  unfold closing_world, native_ep_close_nb.
  destruct (ucp_ep_close_nb _ _ _) as [request n]. split; reflexivity.
Qed.

(** In the scenario the endpoint has no send outstanding and the library
    closes it at once. *)
Lemma endpoint_teardown_immediate_witness :
  UCS_PTR_STATUS (close_request Demo.sender_ep Demo.connected) = UCS_OK
  /\ exists w',
       UCPEndpoint_dtor 0 Demo.sender_ep Demo.connected = Some (Returns tt, w') /\
       trace w' = trace Demo.connected ++ [Ev_ep_close_nb 4416 UCP_EP_CLOSE_MODE_FLUSH] /\
       reqmem w' = reqmem Demo.connected /\ mem w' = mem Demo.connected.
Proof.
  assert (Hok : UCS_PTR_STATUS (close_request Demo.sender_ep Demo.connected) = UCS_OK)
    by (vm_compute; reflexivity).
  split; [exact Hok |].
  exact (endpoint_teardown_immediate Ref.state Ref.RefUCX Demo.sender_ep Demo.connected
           0 Hok).
Defined.

(** X11.  What a destructor that returns has done, whatever the library
    answered.  It has not thrown.  It has closed the endpoint once, as the
    first thing, in flush mode.  It has warned or released a request, never
    both, and neither more than once.  It has checked the status of the
    close request as often as it has driven progress. *)
Theorem endpoint_teardown_shape :
  forall (N : Type) (U : UCX N) (self : UCPEndpoint) (w w' : World N)
         (fuel : nat) (out : Outcome unit),
    UCPEndpoint_dtor fuel self w = Some (out, w') ->
    out = Returns tt /\
    exists evs,
      trace w' = trace w ++ Ev_ep_close_nb (endpoint self) UCP_EP_CLOSE_MODE_FLUSH :: evs /\
      count_events is_close evs = O /\
      (count_events is_warn evs + count_events is_free evs <= 1)%nat /\
      count_events is_progress evs = count_events is_check evs.
Proof.
  intros N U self w w' fuel out Hrun.
  destruct (status_ptr_trichotomy (close_request self w)) as [Hc | [Hc | Hc]];
    destruct Hc as [He [Hp _]].
  - rewrite (dtor_close_failed self w fuel He) in Hrun. inversion Hrun; subst.
    split; [reflexivity |].
    exists [Ev_warn leak_warning (UCS_PTR_STATUS (close_request self w))].
    rewrite trace_log, trace_closing_world, <- app_assoc.
    split; [reflexivity | split; [reflexivity | split; [| reflexivity]]].
    unfold count_events. simpl. lia.
  - rewrite (dtor_close_pending self w fuel Hp) in Hrun.
    destruct (do_while fuel _ _) as [[o w2] |] eqn:Hloop; [| discriminate].
    destruct (do_while_drain_inv self _ fuel _ _ _ Hloop) as [k [_ [_ [_ [Ho Hw2]]]]].
    subst o w2.
    assert (Hout : out = Returns tt) by congruence.
    assert (Hw' : w' = snd (native_request_free (close_request self w)
                              (drain_world self (close_request self w) (S k)
                                 (closing_world self w)))) by congruence.
    subst out w'. clear Hrun.
    split; [reflexivity |].
    exists (drain_events self (close_request self w) (S k)
            ++ [Ev_request_free (close_request self w)]).
    rewrite trace_native_request_free, trace_drain_world, trace_closing_world.
    rewrite <- !app_assoc.
    destruct (count_drain_events self (close_request self w) (S k))
      as [Hpr [Hch [Hwa [Hfr Hcl]]]].
    split; [reflexivity |].
    rewrite !count_events_app, Hpr, Hch, Hwa, Hfr, Hcl.
    unfold count_events. simpl. repeat split; lia.
  - rewrite (dtor_close_done self w fuel He Hp) in Hrun. inversion Hrun; subst.
    split; [reflexivity |]. exists [].
    rewrite trace_closing_world.
    split; [reflexivity | split; [reflexivity | split; [| reflexivity]]].
    unfold count_events. simpl. lia.
Qed.

(** On the script [slow_close] the destructor returns with five iterations
    of fuel. *)
Lemma endpoint_teardown_shape_witness :
  exists w',
    UCPEndpoint_dtor 5 Scripted.an_endpoint (Scripted.start Scripted.slow_close)
    = Some (Returns tt, w') /\
    exists evs,
      trace w' = trace (Scripted.start Scripted.slow_close)
                 ++ Ev_ep_close_nb 2 UCP_EP_CLOSE_MODE_FLUSH :: evs /\
      count_events is_close evs = O /\
      (count_events is_warn evs + count_events is_free evs <= 1)%nat /\
      count_events is_progress evs = count_events is_check evs.
Proof.
  assert (Hrun : exists w',
             UCPEndpoint_dtor 5 Scripted.an_endpoint (Scripted.start Scripted.slow_close)
             = Some (Returns tt, w'))
    by (vm_compute; eexists; reflexivity).
  destruct Hrun as [w' Hrun]. exists w'. split; [exact Hrun |].
  exact (proj2 (endpoint_teardown_shape Scripted.state Scripted.ScriptedUCX
                  _ _ _ _ _ Hrun)).
Defined.

(** X12.  The warning of the destructor names a real error.  When the
    close request is an error pointer, the status the warning carries is
    an error code of the library, between [UCS_ERR_LAST] and -1, and it is
    the code the pointer encodes: encoding it again gives the pointer
    back. *)
Theorem teardown_warning_status :
  forall (N : Type) (U : UCX N) (self : UCPEndpoint) (w : World N) (fuel : nat),
    UCS_PTR_IS_ERR (close_request self w) = true ->
    exists st w',
      UCPEndpoint_dtor fuel self w = Some (Returns tt, w') /\
      trace w' = trace w ++ [Ev_ep_close_nb (endpoint self) UCP_EP_CLOSE_MODE_FLUSH;
                             Ev_warn leak_warning st] /\
      UCS_ERR_LAST <= st <= -1 /\
      UCS_STATUS_PTR st = uintptr (close_request self w).
Proof.
  intros N U self w fuel Herr.
  destruct (is_err_status_range _ Herr) as [Hrange Hback].
  exists (UCS_PTR_STATUS (close_request self w)). eexists.
  split; [apply dtor_close_failed, Herr |].
  rewrite trace_log, trace_closing_world, <- app_assoc.
  split; [reflexivity | split; [exact Hrange | exact Hback]].
Qed.

Lemma teardown_warning_status_witness :
  UCS_PTR_IS_ERR (close_request Scripted.an_endpoint (Scripted.start Scripted.failing_close))
  = true
  /\ exists st w',
       UCPEndpoint_dtor 3 Scripted.an_endpoint (Scripted.start Scripted.failing_close)
       = Some (Returns tt, w') /\
       trace w' = trace (Scripted.start Scripted.failing_close)
                  ++ [Ev_ep_close_nb 2 UCP_EP_CLOSE_MODE_FLUSH; Ev_warn leak_warning st] /\
       UCS_ERR_LAST <= st <= -1 /\
       UCS_STATUS_PTR st
       = uintptr (close_request Scripted.an_endpoint
                    (Scripted.start Scripted.failing_close)).
Proof.
  assert (Herr : UCS_PTR_IS_ERR
                   (close_request Scripted.an_endpoint (Scripted.start Scripted.failing_close))
                 = true)
    by (vm_compute; reflexivity).
  split; [exact Herr |].
  exact (teardown_warning_status Scripted.state Scripted.ScriptedUCX _ _ 3 Herr).
Defined.

(** * What a submission tells the library *)

(** The element size the library reads back from the datatype a
    submission builds for [size]: the size, as long as it fits in 61 bits. *)
Lemma contig_elem_size (size : Z) :
  is_size_t size ->
  ucp_contig_dt_elem_size (ucp_dt_make_contig size) = size mod 2 ^ 61.
Proof.
  intros [Hlo Hhi]. unfold ucp_contig_dt_elem_size, ucp_dt_make_contig, uintptr, ptr_modulus.
  rewrite Z.lor_0_r, Z.shiftl_mul_pow2, Z.shiftr_div_pow2 by lia.
  change (2 ^ 64) with (2 ^ 61 * 2 ^ 3).
  rewrite Z.mul_mod_distr_r by lia.
  apply Z.div_mul. lia.
Qed.



Lemma submitted_tags_app (tr1 tr2 : list Event) :
  submitted_tags (tr1 ++ tr2) = submitted_tags tr1 ++ submitted_tags tr2.
Proof. unfold submitted_tags. apply omap_app. Qed.

(** The value of an [int] as a [ucp_tag_t]. *)
Lemma ucp_tag_of_int_value (t : Z) :
  is_int t -> ucp_tag_of_int t = (if t <? 0 then 2 ^ 64 + t else t).
Proof.
  intros [Hl Hh]. unfold ucp_tag_of_int, uintptr, ptr_modulus.
  destruct (t <? 0) eqn:E.
  - apply Z.ltb_lt in E.
    replace t with (2 ^ 64 + t + (-1) * 2 ^ 64) at 1 by lia.
    rewrite Z.mod_add by lia. apply Z.mod_small. lia.
  - apply Z.ltb_ge in E. apply Z.mod_small. lia.
Qed.

(** A submission whose native call leaves the event [e] hands the library
    the tags of [e] and no other. *)
Lemma submitted_tags_submission {N : Type} `{UCX N} (wk : UCPWorker) (size : Z)
    (d : DeviceType) (f : ucp_request_param_t -> World N -> ucs_status_ptr_t * World N)
    (e : ucp_request_param_t -> Event) (g : Z) (w : World N) :
  (forall p, trace (snd (f p w)) = trace w ++ [e p]) ->
  submitted_tags [e (p2p_params size d)] = [g] ->
  submitted_tags (trace (snd (UCPWorker_submit_p2p_request wk size d (fun p => lift (f p)) w)))
  = submitted_tags (trace w) ++ [g].
Proof.
  intros Hf He.
  destruct (submit_p2p_request_trace wk size d f w) as [rest [Htr Hrest]].
  rewrite Htr, Hf, !submitted_tags_app, He.
  destruct Hrest as [-> | ->]; simpl; rewrite app_nil_r; reflexivity.
Qed.

(** X14.  Tags keep apart.  The [int] tag of a send or a receive reaches
    the library as an unsigned 64-bit tag: a tag that is not negative as
    itself, a negative tag as 2^64 plus the tag.  Called with two different
    [int] tags, [send_with_tag] and both [recv_with_tag] hand the library
    one tag each time, and never the same tag. *)
Theorem tags_keep_apart :
  forall (N : Type) (U : UCX N) (self : UCPWorker) (ep : UCPEndpoint)
         (data size : Z) (d : DeviceType) (w : World N) (t1 t2 : Z),
    is_int t1 -> is_int t2 -> t1 <> t2 ->
    keeps_tags_apart (fun t => UCPEndpoint_send_with_tag ep data size t d) w t1 t2 /\
    keeps_tags_apart (fun t => UCPWorker_recv_with_tag self data size t d) w t1 t2 /\
    keeps_tags_apart (fun t => UCPEndpoint_recv_with_tag ep data size t d) w t1 t2.
Proof.
  intros N U self ep data size d w t1 t2 H1 H2 Hne.
  assert (Hapart : forall op : Z -> M N UCPRequest,
             (forall t, submitted_tags (trace (snd (op t w)))
                        = submitted_tags (trace w) ++ [ucp_tag_of_int t]) ->
             keeps_tags_apart op w t1 t2).
  { intros op Hop. exists (ucp_tag_of_int t1), (ucp_tag_of_int t2).
    split; [apply Hop | split; [apply Hop |]].
    split; [apply ucp_tag_of_int_value, H1 | split; [apply ucp_tag_of_int_value, H2 |]].
    split; [apply uintptr_range | split; [apply uintptr_range |]].
    rewrite (ucp_tag_of_int_value t1 H1), (ucp_tag_of_int_value t2 H2).
    destruct H1 as [H1l H1h], H2 as [H2l H2h].
    destruct (t1 <? 0) eqn:E1, (t2 <? 0) eqn:E2;
      try apply Z.ltb_lt in E1; try apply Z.ltb_ge in E1;
      try apply Z.ltb_lt in E2; try apply Z.ltb_ge in E2; lia. }
  split; [| split]; apply Hapart; intros t.
  - apply (submitted_tags_submission (ep_worker ep) size d _
             (fun p => Ev_tag_send_nbx (endpoint ep) data 1 (ucp_tag_of_int t) p)).
    + intros p. apply trace_native_tag_send_nbx.
    + reflexivity.
  - apply (submitted_tags_submission self size d _
             (fun p => Ev_tag_recv_nbx (worker self) data 1 (ucp_tag_of_int t) 0 p)).
    + intros p. apply trace_native_tag_recv_nbx.
    + reflexivity.
  - apply (submitted_tags_submission (ep_worker ep) size d _
             (fun p => Ev_tag_recv_nbx (UCPWorker_get (ep_worker ep)) data 1
                         (ucp_tag_of_int t) 0 p)).
    + intros p. apply trace_native_tag_recv_nbx.
    + reflexivity.
Qed.

(** In the scenario, a send with the tag -1 and a send with the tag 7: the
    library is handed 2^64 - 1 and 7. *)
Lemma tags_keep_apart_witness :
  is_int (-1) /\ is_int 7 /\ -1 <> 7
  /\ keeps_tags_apart (fun t => UCPEndpoint_send_with_tag Demo.sender_ep 1000 5 t kCPU)
       Demo.connected (-1) 7
  /\ submitted_tags
       (trace (snd (UCPEndpoint_send_with_tag Demo.sender_ep 1000 5 (-1) kCPU Demo.connected)))
     = [2 ^ 64 - 1].
Proof.
  assert (Ha : is_int (-1)) by (unfold is_int; lia).
  assert (Hb : is_int 7) by (unfold is_int; lia).
  assert (Hne : -1 <> 7) by lia.
  split; [exact Ha | split; [exact Hb | split; [exact Hne | split]]].
  - exact (proj1 (tags_keep_apart Ref.state Ref.RefUCX Demo.receiver Demo.sender_ep
                    1000 5 kCPU Demo.connected (-1) 7 Ha Hb Hne)).
  - vm_compute. reflexivity.
Defined.

(** X15.  Every error of the library at submission ends up in the handle of
    a Request.  When the native operation returns the pointer that encodes
    an error status between [UCS_ERR_LAST] and -1, the submission throws
    nothing: it drives one progress step and returns a Request whose handle
    is 2^64 plus the status.  The handle is an error pointer, and its
    status reads back as the status the library reported. *)
Theorem submission_error_in_handle :
  forall (N : Type) (U : UCX N) (self : UCPWorker) (size : Z) (device : DeviceType)
         (work : ucp_request_param_t -> M N ucs_status_ptr_t)
         (w w1 : World N) (st : ucs_status_t),
    UCS_ERR_LAST <= st <= -1 ->
    work (p2p_params size device) w = (Returns (UCS_STATUS_PTR st), w1) ->
    UCPWorker_submit_p2p_request self size device work w
    = (Returns (mkUCPRequest (2 ^ 64 + st)), snd (native_worker_progress (worker self) w1))
    /\ UCS_PTR_IS_ERR (2 ^ 64 + st) = true
    /\ UCS_PTR_STATUS (2 ^ 64 + st) = st.
Proof.
  intros N U self size device work w w1 st [Hlo Hhi] Hwork.
  unfold UCS_ERR_LAST in Hlo.
  assert (Hptr : UCS_STATUS_PTR st = 2 ^ 64 + st).
  { unfold UCS_STATUS_PTR, uintptr, ptr_modulus.
    replace st with (2 ^ 64 + st + (-1) * 2 ^ 64) at 1 by lia.
    rewrite Z.mod_add by lia. apply Z.mod_small. lia. }
  assert (Hsmall : uintptr (2 ^ 64 + st) = 2 ^ 64 + st)
    by (apply uintptr_small; unfold ptr_modulus; lia).
  assert (Herr : UCS_PTR_IS_ERR (2 ^ 64 + st) = true).
  { unfold UCS_PTR_IS_ERR. rewrite Hsmall.
    change (uintptr UCS_ERR_LAST) with (2 ^ 64 - 100). apply Z.leb_le. lia. }
  rewrite Hptr in Hwork.
  split; [apply (submit_p2p_request_error_ptr self size device work w w1 _ Hwork Herr) |].
  split; [exact Herr |].
  unfold UCS_PTR_STATUS. rewrite (is_err_not_ptr _ Herr).
  unfold UCS_PTR_RAW_STATUS, intptr. rewrite Hsmall. cbv zeta.
  destruct (2 ^ 64 + st <? 2 ^ 63) eqn:E; [apply Z.ltb_lt in E; lia |].
  unfold ptr_modulus. lia.
Qed.

(** On the script [out_of_memory] a receive is refused with
    [UCS_ERR_NO_MEMORY], the status -4. *)
Lemma submission_error_in_handle_witness :
  UCS_ERR_LAST <= UCS_ERR_NO_MEMORY <= -1
  /\ lift (native_tag_recv_nbx 1 2000 1 (ucp_tag_of_int 7) 0 (p2p_params 5 kCPU))
          (Scripted.start Scripted.out_of_memory)
     = (Returns (UCS_STATUS_PTR UCS_ERR_NO_MEMORY),
        snd (native_tag_recv_nbx 1 2000 1 (ucp_tag_of_int 7) 0 (p2p_params 5 kCPU)
               (Scripted.start Scripted.out_of_memory)))
  /\ UCPWorker_recv_with_tag (mkUCPWorker 1) 2000 5 7 kCPU
       (Scripted.start Scripted.out_of_memory)
     = (Returns (mkUCPRequest (2 ^ 64 + UCS_ERR_NO_MEMORY)),
        snd (native_worker_progress 1
               (snd (native_tag_recv_nbx 1 2000 1 (ucp_tag_of_int 7) 0 (p2p_params 5 kCPU)
                       (Scripted.start Scripted.out_of_memory)))))
  /\ UCS_PTR_STATUS (2 ^ 64 + UCS_ERR_NO_MEMORY) = UCS_ERR_NO_MEMORY.
Proof.
  assert (Hrange : UCS_ERR_LAST <= UCS_ERR_NO_MEMORY <= -1)
    by (unfold UCS_ERR_LAST, UCS_ERR_NO_MEMORY; lia).
  assert (Hwork : lift (native_tag_recv_nbx 1 2000 1 (ucp_tag_of_int 7) 0 (p2p_params 5 kCPU))
                       (Scripted.start Scripted.out_of_memory)
                  = (Returns (UCS_STATUS_PTR UCS_ERR_NO_MEMORY),
                     snd (native_tag_recv_nbx 1 2000 1 (ucp_tag_of_int 7) 0
                            (p2p_params 5 kCPU) (Scripted.start Scripted.out_of_memory))))
    by (vm_compute; reflexivity).
  pose proof (submission_error_in_handle Scripted.state Scripted.ScriptedUCX
                (mkUCPWorker 1) 5 kCPU
                (fun params =>
                   lift (native_tag_recv_nbx 1 2000 1 (ucp_tag_of_int 7) 0 params))
                (Scripted.start Scripted.out_of_memory)
                (snd (native_tag_recv_nbx 1 2000 1 (ucp_tag_of_int 7) 0 (p2p_params 5 kCPU)
                        (Scripted.start Scripted.out_of_memory)))
                UCS_ERR_NO_MEMORY Hrange Hwork) as [Hrun [_ Hback]].
  split; [exact Hrange | split; [exact Hwork | split; [exact Hrun | exact Hback]]].
Defined.
